(** * lifecycle-manager: the event processing pipeline of [pkg/service]

    A shallow embedding of [server.go] (Manager, poller, worker, the drain and
    deregistration stages) and of the heartbeat driver, with the properties of
    the pipeline stated over it.

    Conventions of the embedding:
    - a Go [int]/[int64] is a [Z] with its 64-bit wrap-around written out;
    - [float64] seconds are rationals [Q] (rounding is not modelled);
    - a [*LifecycleEvent] is an address into a store of events, so that the
      work queue and the worker alias the same event as they do in Go;
    - calls to the cloud, cluster, metrics and logger are recorded in a trace;
      what the collaborators answer is read from the [Authenticator] stubs;
    - a run-time panic (nil dereference, integer division by zero) is an
      explicit outcome. *)

From Stdlib Require Import ZArith QArith Lia.
From Stdlib Require DecimalString DecimalZ DecimalPos.
From stdpp Require Import base option list gmap strings.

Local Open Scope Z_scope.

(** ** Go integers *)

Module GoInt.

Definition min_int : Z := - 2 ^ 63.
Definition max_int : Z := 2 ^ 63 - 1.

(** Two's complement wrap-around of a 64-bit signed integer. *)
Definition wrap (x : Z) : Z := (x + 2 ^ 63) mod 2 ^ 64 - 2 ^ 63.

(** [x++] *)
Definition incr (x : Z) : Z := wrap (x + 1).

Definition in_range (x : Z) : Prop := min_int <= x <= max_int.

End GoInt.

(** ** Errors

    The [error] interface, as far as the service looks into it: an error is
    an [awserr.Error] carrying a code, some other error, or an error wrapped
    by [errors.Wrap]. *)

Inductive error : Type :=
| AwsError (code : string) (msg : string)
| PlainError (msg : string)
| WrappedError (cause : error) (msg : string).

#[global] Instance error_eq_dec : EqDecision error.
Proof. solve_decision. Defined.

(** [awsErr, ok := err.(awserr.Error)]: the code when the assertion holds. *)
Definition awsCode (err : error) : option string :=
  match err with
  | AwsError code _ => Some code
  | _ => None
  end.

(** [errors.Wrap(err, msg)]: nil stays nil. *)
Definition Wrap (err : option error) (msg : string) : option error :=
  match err with
  | Some e => Some (WrappedError e msg)
  | None => None
  end.

(** Error codes of the load-balancer services. *)
Definition ErrCodeAccessPointNotFoundException : string := "LoadBalancerNotFound".
Definition ErrCodeInvalidEndPointException : string := "InvalidInstance".
Definition ErrCodeTargetGroupNotFoundException : string := "TargetGroupNotFound".
Definition ErrCodeInvalidTargetException : string := "InvalidTarget".

(** ** Package constants of server.go *)

Definition TerminationEventName : string := "autoscaling:EC2_INSTANCE_TERMINATING".
Definition ContinueAction : string := "CONTINUE".
Definition AbandonAction : string := "ABANDON".
Definition ExcludeLabelKey : string := "alpha.service-controller.kubernetes.io/exclude-balancer".
Definition ExcludeLabelValue : string := "true".
Definition InProgressAnnotationKey : string := "lifecycle-manager.keikoproj.io/in-progress".
Definition NodeAgeCacheTTL : Z := 90.

(** ** Data model *)

(** [v1.Node], restricted to the fields the service reads. *)
Record Node : Type := mkNode {
  Name : string;
  ProviderID : string;
  CreationTimestamp : Z            (* an instant, in ns *)
}.

(** [sqs.Message]: both fields are [*string]. *)
Record Message : Type := mkMessage {
  Body : option string;
  ReceiptHandle : option string
}.

(** Modelled from the spec: the declaration of [LifecycleEvent] is not in the
    sources at hand; the fields are those of section 3 of the specification
    under the names server.go and its tests use. [startTime] is a wall-clock
    instant in nanoseconds, [message] is a [*sqs.Message]. *)
Record LifecycleEvent : Type := mkEvent {
  LifecycleHookName : string;
  AccountID : string;
  RequestID : string;
  LifecycleTransition : string;
  AutoScalingGroupName : string;
  EC2InstanceID : string;
  LifecycleActionToken : string;
  receiptHandle : string;
  queueURL : string;
  heartbeatInterval : Z;
  referencedNode : Node;
  drainCompleted : bool;
  deregisterCompleted : bool;
  eventCompleted : bool;
  startTime : Z;
  message : option Message
}.

#[global] Instance Node_eq_dec : EqDecision Node.
Proof. solve_decision. Defined.
#[global] Instance Message_eq_dec : EqDecision Message.
Proof. solve_decision. Defined.
#[global] Instance LifecycleEvent_eq_dec : EqDecision LifecycleEvent.
Proof. solve_decision. Defined.

(** [LifecycleEvent{}] *)
Definition zeroNode : Node := mkNode "" "" 0.
Definition zeroEvent : LifecycleEvent :=
  mkEvent "" "" "" "" "" "" "" "" "" 0 zeroNode false false false 0 None.

(** The setters of the event ([event.SetX(v)]). *)
Definition withEventCompleted (b : bool) (e : LifecycleEvent) : LifecycleEvent :=
  mkEvent (LifecycleHookName e) (AccountID e) (RequestID e) (LifecycleTransition e)
    (AutoScalingGroupName e) (EC2InstanceID e) (LifecycleActionToken e)
    (receiptHandle e) (queueURL e) (heartbeatInterval e) (referencedNode e)
    (drainCompleted e) (deregisterCompleted e) b (startTime e) (message e).

Definition withDrainCompleted (b : bool) (e : LifecycleEvent) : LifecycleEvent :=
  mkEvent (LifecycleHookName e) (AccountID e) (RequestID e) (LifecycleTransition e)
    (AutoScalingGroupName e) (EC2InstanceID e) (LifecycleActionToken e)
    (receiptHandle e) (queueURL e) (heartbeatInterval e) (referencedNode e)
    b (deregisterCompleted e) (eventCompleted e) (startTime e) (message e).

Definition withDeregisterCompleted (b : bool) (e : LifecycleEvent) : LifecycleEvent :=
  mkEvent (LifecycleHookName e) (AccountID e) (RequestID e) (LifecycleTransition e)
    (AutoScalingGroupName e) (EC2InstanceID e) (LifecycleActionToken e)
    (receiptHandle e) (queueURL e) (heartbeatInterval e) (referencedNode e)
    (drainCompleted e) b (eventCompleted e) (startTime e) (message e).

Definition withEventTimeStarted (t : Z) (e : LifecycleEvent) : LifecycleEvent :=
  mkEvent (LifecycleHookName e) (AccountID e) (RequestID e) (LifecycleTransition e)
    (AutoScalingGroupName e) (EC2InstanceID e) (LifecycleActionToken e)
    (receiptHandle e) (queueURL e) (heartbeatInterval e) (referencedNode e)
    (drainCompleted e) (deregisterCompleted e) (eventCompleted e) t (message e).

Definition withQueueURL (url : string) (e : LifecycleEvent) : LifecycleEvent :=
  mkEvent (LifecycleHookName e) (AccountID e) (RequestID e) (LifecycleTransition e)
    (AutoScalingGroupName e) (EC2InstanceID e) (LifecycleActionToken e)
    (receiptHandle e) url (heartbeatInterval e) (referencedNode e)
    (drainCompleted e) (deregisterCompleted e) (eventCompleted e) (startTime e) (message e).

Definition withHeartbeatInterval (i : Z) (e : LifecycleEvent) : LifecycleEvent :=
  mkEvent (LifecycleHookName e) (AccountID e) (RequestID e) (LifecycleTransition e)
    (AutoScalingGroupName e) (EC2InstanceID e) (LifecycleActionToken e)
    (receiptHandle e) (queueURL e) i (referencedNode e)
    (drainCompleted e) (deregisterCompleted e) (eventCompleted e) (startTime e) (message e).

Definition withReferencedNode (n : Node) (e : LifecycleEvent) : LifecycleEvent :=
  mkEvent (LifecycleHookName e) (AccountID e) (RequestID e) (LifecycleTransition e)
    (AutoScalingGroupName e) (EC2InstanceID e) (LifecycleActionToken e)
    (receiptHandle e) (queueURL e) (heartbeatInterval e) n
    (drainCompleted e) (deregisterCompleted e) (eventCompleted e) (startTime e) (message e).

Definition withMessage (m : option Message) (e : LifecycleEvent) : LifecycleEvent :=
  mkEvent (LifecycleHookName e) (AccountID e) (RequestID e) (LifecycleTransition e)
    (AutoScalingGroupName e) (EC2InstanceID e) (LifecycleActionToken e)
    (receiptHandle e) (queueURL e) (heartbeatInterval e) (referencedNode e)
    (drainCompleted e) (deregisterCompleted e) (eventCompleted e) (startTime e) m.

(** ** reflect.DeepEqual

    [DeepEqual] takes two [interface{}] values. The two dynamic types that
    reach it in server.go are [*LifecycleEvent] and [LifecycleEvent]. Values
    of distinct types are never deeply equal; two pointers are deeply equal
    when both are nil or their targets are; two structs when their fields
    are. *)

Inductive GoType : Type := TPtrLifecycleEvent | TLifecycleEvent.

Inductive GoValue : Type :=
| VPtrLifecycleEvent (target : option LifecycleEvent)
| VLifecycleEvent (e : LifecycleEvent).

Definition TypeOf (v : GoValue) : GoType :=
  match v with
  | VPtrLifecycleEvent _ => TPtrLifecycleEvent
  | VLifecycleEvent _ => TLifecycleEvent
  end.

#[global] Instance GoType_eq_dec : EqDecision GoType.
Proof. solve_decision. Defined.

Definition DeepEqual (x y : GoValue) : bool :=
  if decide (TypeOf x = TypeOf y) then
    match x, y with
    | VPtrLifecycleEvent None, VPtrLifecycleEvent None => true
    | VPtrLifecycleEvent (Some a), VPtrLifecycleEvent (Some b) => bool_decide (a = b)
    | VLifecycleEvent a, VLifecycleEvent b => bool_decide (a = b)
    | _, _ => false
    end
  else false.

(** ** Collaborators

    Every call that leaves the process is recorded in a trace, in program
    order. The answers of the collaborators come from the stubs of the
    [Authenticator]; a stub is a function of the request. *)

Inductive Metric : Type :=
| TerminatingInstancesCountMetric
| DrainingInstancesCountMetric
| DeregisteringInstancesCountMetric
| SuccessfulEventsTotalMetric
| FailedEventsTotalMetric
| RejectedEventsTotalMetric
| AverageDurationSecondsMetric
| ActiveGoroutinesMetric
| SuccessfulNodeDrainTotalMetric
| FailedNodeDrainTotalMetric
| SuccessfulLBDeregisterTotalMetric
| FailedLBDeregisterTotalMetric.

Inductive EventReason : Type :=
| EventReasonLifecycleHookReceived
| EventReasonLifecycleHookProcessed
| EventReasonLifecycleHookFailed
| EventReasonNodeDrainSucceeded
| EventReasonNodeDrainFailed
| EventReasonTargetDeregisterSucceeded
| EventReasonTargetDeregisterFailed
| EventReasonInstanceDeregisterSucceeded
| EventReasonInstanceDeregisterFailed.

Inductive LogLevel : Type := LvlDebug | LvlInfo | LvlWarn | LvlError.

(** The goroutines the service starts with [go]. *)
Inductive Goroutine : Type :=
| GoMetricsServer
| GoPoller
| GoWorker (m : option Message)
| GoHeartbeat (event : nat)
| GoClassicWaiter (elbName instance : string)
| GoTargetWaiter (arn instance : string) (port : Z)
| GoWaitGroupCloser.

Inductive Call : Type :=
| Log (lvl : LogLevel) (format : string)
| Sleep (seconds : Z)
| WaitJitter (max : Q)
| Go (g : Goroutine)
| StreamSend (m : Message)
| ErrChannelSend (err : error)
| WaitGroupAdd (n : Z)
| WaitGroupDone
| IncGauge (m : Metric)
| DecGauge (m : Metric)
| AddCounter (m : Metric) (n : Z)
| SetGauge (m : Metric) (v : Q)
| SQSReceiveMessage (url : string) (waitSeconds : Z)
| SQSDeleteMessage (url receipt : string)
| ASGCompleteLifecycleAction (asg instance hook result : string)
| ASGRecordLifecycleActionHeartbeat (asg instance token hook : string)
| KubeCreateEvent (reason : EventReason) (refNodeName : string)
| KubectlDrain (node : string) (timeout retry : Z)
| KubectlLabel (node key value : string)
| KubectlAnnotate (node key value : string)
| FlushCache (name : string)
| ELBDescribeLoadBalancers
| ELBDescribeInstanceHealth (elbName : string)
| ELBDeregisterInstances (elbName instance : string)
| ELBv2DescribeTargetGroups
| ELBv2DescribeTargetHealth (arn : string)
| ELBv2DeregisterTargets (arn instance : string) (port : Z).

(** [sqs.ReceiveMessageOutput] *)
Record ReceiveMessageOutput : Type := mkReceiveMessageOutput {
  Messages : list Message
}.

(** One page of a paginated listing: its items and [NextMarker]. *)
Record Page (A : Type) : Type := mkPage {
  PageItems : list A;
  NextMarker : option string
}.
Arguments mkPage {A} _ _.
Arguments PageItems {A} _.
Arguments NextMarker {A} _.

(** [sqsiface.SQSAPI]. [ReceiveMessage] answers the n-th poll: a
    [*ReceiveMessageOutput] (nil is [None]) and an error. *)
Record SQSAPI : Type := mkSQS {
  GetQueueUrl : string -> string;
  ReceiveMessage : nat -> option ReceiveMessageOutput * option error;
  DeleteMessage : string -> string -> option error
}.

(** [autoscalingiface.AutoScalingAPI] *)
Record AutoScalingAPI : Type := mkASG {
  DescribeLifecycleHooks : string -> string -> list Z * option error;
  RecordLifecycleActionHeartbeat : string -> string -> string -> string -> nat -> option error;
  CompleteLifecycleAction : string -> string -> string -> string -> option error
}.

(** [elbiface.ELBAPI] *)
Record ELBAPI : Type := mkELB {
  DescribeLoadBalancersPages : list (Page string) * option error;
  DescribeInstanceHealth : string -> list string * option error;
  DeregisterInstancesFromLoadBalancer : string -> string -> option error;
  WaitUntilInstanceDeregistered : string -> string -> option error
}.

(** [elbv2iface.ELBV2API]. A target is an instance id and a port. *)
Record ELBV2API : Type := mkELBv2 {
  DescribeTargetGroupsPages : list (Page string) * option error;
  DescribeTargetHealth : string -> list (string * Z) * option error;
  DeregisterTargets : string -> string -> Z -> option error;
  WaitUntilTargetDeregistered : string -> string -> Z -> option error
}.

(** [kubernetes.Interface] together with the kubectl subprocess the service
    drives the cluster with. *)
Record KubernetesAPI : Type := mkKube {
  CreateEvent : EventReason -> string -> option error;
  ListNodes : list Node;
  NodeAnnotations : string -> list (string * string) * option error;
  KubectlDrainNode : string -> Z -> Z -> option error;
  KubectlLabelNode : string -> string -> string -> option error
}.

Record Authenticator : Type := mkAuth {
  ScalingGroupClient : AutoScalingAPI;
  SQSClient : SQSAPI;
  ELBv2Client : ELBV2API;
  ELBClient : ELBAPI;
  KubernetesClient : KubernetesAPI
}.

Record ManagerContext : Type := mkContext {
  KubectlLocalPath : string;
  QueueName : string;
  Region : string;
  DrainTimeoutSeconds : Z;
  DrainRetryIntervalSeconds : Z;
  PollingIntervalSeconds : Z;
  WithDeregister : bool
}.

(** ** The manager and the state of a run *)

(** [Manager]: the work queue holds [*LifecycleEvent], here addresses. *)
Record Manager : Type := mkManager {
  context : ManagerContext;
  authenticator : Authenticator;
  workQueue : list nat;
  completedEvents : Z;
  failedEvents : Z;
  rejectedEvents : Z;
  avarageLatency : Q
}.

Record State : Type := mkState {
  mgr : Manager;
  events : gmap nat LifecycleEvent;     (* the events behind the pointers *)
  trace : list Call;
  wallClock : nat -> Z;                 (* the n-th reading of time.Now(), in ns *)
  clockReads : nat;
  others : nat -> nat -> LifecycleEvent -> LifecycleEvent;
                                        (* what the other goroutines write to the
                                           event at an address during the n-th sleep *)
  sleeps : nat
}.

Definition setWorkQueue (q : list nat) (m : Manager) : Manager :=
  mkManager (context m) (authenticator m) q (completedEvents m) (failedEvents m)
    (rejectedEvents m) (avarageLatency m).
Definition setCompletedEvents (n : Z) (m : Manager) : Manager :=
  mkManager (context m) (authenticator m) (workQueue m) n (failedEvents m)
    (rejectedEvents m) (avarageLatency m).
Definition setFailedEvents (n : Z) (m : Manager) : Manager :=
  mkManager (context m) (authenticator m) (workQueue m) (completedEvents m) n
    (rejectedEvents m) (avarageLatency m).
Definition setRejectedEvents (n : Z) (m : Manager) : Manager :=
  mkManager (context m) (authenticator m) (workQueue m) (completedEvents m)
    (failedEvents m) n (avarageLatency m).
Definition setAvarageLatency (a : Q) (m : Manager) : Manager :=
  mkManager (context m) (authenticator m) (workQueue m) (completedEvents m)
    (failedEvents m) (rejectedEvents m) a.

(** ** The monad of the embedding: state, trace, panics and blocking

    A computation ends normally, panics, or blocks for ever on a channel or
    a wait group. *)

Inductive panic : Type := NilDereference | DivideByZero | NegativeWaitGroupCounter.

Inductive outcome (A : Type) : Type :=
| Done (a : A) (s : State)
| Panicked (p : panic) (s : State)
| Blocked (s : State).
Arguments Done {A} _ _.
Arguments Panicked {A} _ _.
Arguments Blocked {A} _.

Definition M (A : Type) : Type := State -> outcome A.

#[global] Instance M_ret : MRet M := fun A a s => Done a s.

#[global] Instance M_bind : MBind M := fun A B k c s =>
  match c s with
  | Done a s' => k a s'
  | Panicked p s' => Panicked p s'
  | Blocked s' => Blocked s'
  end.

Definition raise {A} (p : panic) : M A := fun s => Panicked p s.

Definition block {A} : M A := fun s => Blocked s.

Definition call (c : Call) : M unit :=
  fun s => Done tt (mkState (mgr s) (events s) (trace s ++ [c]) (wallClock s) (clockReads s)
                      (others s) (sleeps s)).

Definition getMgr : M Manager := fun s => Done (mgr s) s.

Definition modifyMgr (f : Manager -> Manager) : M unit :=
  fun s => Done tt (mkState (f (mgr s)) (events s) (trace s) (wallClock s) (clockReads s)
                      (others s) (sleeps s)).

(** [time.Now()] *)
Definition timeNow : M Z :=
  fun s => Done (wallClock s (clockReads s))
             (mkState (mgr s) (events s) (trace s) (wallClock s) (S (clockReads s))
                (others s) (sleeps s)).

(** While this goroutine sleeps the others run: they may write the fields of
    the shared events (they neither allocate nor free one). *)
Definition yield : M unit :=
  fun s => Done tt (mkState (mgr s)
                      (map_imap (fun p e => Some (others s (sleeps s) p e)) (events s))
                      (trace s) (wallClock s) (clockReads s) (others s) (S (sleeps s))).

(** [time.Duration(x) * time.Second], in nanoseconds. *)
Definition secondsDuration (x : Z) : Z := GoInt.wrap (x * 1000000000).

(** [time.Sleep(d)] *)
Definition timeSleep (d : Z) : M unit := call (Sleep d);; yield.

(** [*event]: dereferencing an address that holds no event panics. *)
Definition deref (event : nat) : M LifecycleEvent :=
  fun s => match events s !! event with
           | Some e => Done e s
           | None => Panicked NilDereference s
           end.

(** A method with a pointer receiver that writes a field. *)
Definition update (event : nat) (f : LifecycleEvent -> LifecycleEvent) : M unit :=
  fun s => match events s !! event with
           | Some e => Done tt (mkState (mgr s) (<[event := f e]> (events s)) (trace s)
                                  (wallClock s) (clockReads s) (others s) (sleeps s))
           | None => Panicked NilDereference s
           end.

(** A [*LifecycleEvent] passed as an [interface{}]. *)
Definition asInterface (event : nat) : M GoValue :=
  fun s => Done (VPtrLifecycleEvent (events s !! event)) s.

(** [d.Seconds()] of a duration in nanoseconds. *)
Definition Seconds (d : Z) : Q := d # 1000000000.

(** ** Helpers around the collaborators *)

(** [publishKubernetesEvent(kubeClient, newKubernetesEvent(reason, fields, node))].
    The trace keeps the reason and the referenced node of the event. *)
Definition publishKubernetesEvent (kube : KubernetesAPI) (reason : EventReason)
    (refNodeName : string) : M unit :=
  call (Log LvlDebug "publishing event: %v");;
  call (KubeCreateEvent reason refNodeName);;
  match CreateEvent kube reason refNodeName with
  | Some _ => call (Log LvlError "failed to publish event: %v")
  | None => mret tt
  end.

(** [completeLifecycleAction(client, event, result)]; the event is passed by
    value. *)
Definition completeLifecycleAction (client : AutoScalingAPI) (event : LifecycleEvent)
    (result : string) : M (option error) :=
  call (Log LvlInfo "setting lifecycle event as completed with result: %v");;
  call (ASGCompleteLifecycleAction (AutoScalingGroupName event) (EC2InstanceID event)
          (LifecycleHookName event) result);;
  mret (CompleteLifecycleAction client (AutoScalingGroupName event) (EC2InstanceID event)
          (LifecycleHookName event) result).

(** Modelled from the spec: the body of [deleteMessage] is not in the sources
    at hand; by section 6 it is the queue service's
    [DeleteMessage(url, receiptHandle)], whose error it returns. *)
Definition deleteMessage (queue : SQSAPI) (url receipt : string) : M (option error) :=
  call (SQSDeleteMessage url receipt);;
  mret (DeleteMessage queue url receipt).

(** Modelled from the spec: the body of [IsAlreadyExist] is not in the sources
    at hand; by section 4.1 it compares [requestId] and [instanceId] against
    the entries of the work queue. *)
Definition IsAlreadyExist (e : LifecycleEvent) (queue : list LifecycleEvent) : bool :=
  existsb (fun q => bool_decide (RequestID q = RequestID e)
                    && bool_decide (EC2InstanceID q = EC2InstanceID e)) queue.

(** The events a queue of pointers stands for. *)
Fixpoint derefAll (queue : list nat) : M (list LifecycleEvent) :=
  match queue with
  | [] => mret []
  | p :: rest => e ← deref p; es ← derefAll rest; mret (e :: es)
  end.

(** ** Manager: work-queue bookkeeping *)

(** func (mgr *Manager) AddEvent(event *LifecycleEvent) *)
Definition AddEvent (event : nat) : M unit :=
  now ← timeNow;
  update event (withEventTimeStarted now);;
  call (IncGauge TerminatingInstancesCountMetric);;
  modifyMgr (fun m => setWorkQueue (workQueue m ++ [event]) m).

(** The four lines of [CompleteEvent] that maintain [avarageLatency]. *)
Definition updateLatency (avg t : Q) : Q :=
  if Qeq_bool avg 0 then t else ((avg + t) / 2)%Q.

(** The loop of [CompleteEvent] over the work queue; [newQueue] collects the
    entries that are kept. *)
Fixpoint CompleteEvent_loop (event : nat) (url : string) (queue newQueue : list nat)
    : M (list nat) :=
  match queue with
  | [] => mret newQueue
  | e :: rest =>
      x ← asInterface event;
      y ← asInterface e;
      if DeepEqual x y then
        m ← getMgr;
        call (Log LvlInfo "event %v completed processing");;
        update event (withEventCompleted true);;
        ev ← deref event;
        err ← deleteMessage (SQSClient (authenticator m)) url (receiptHandle ev);
        (if err is Some _ then call (Log LvlError "failed to delete message: %v")
         else mret tt);;
        ev ← deref event;
        err ← completeLifecycleAction (ScalingGroupClient (authenticator m)) ev ContinueAction;
        (if err is Some _ then call (Log LvlError "failed to complete lifecycle action: %v")
         else mret tt);;
        ev ← deref event;
        publishKubernetesEvent (KubernetesClient (authenticator m))
          EventReasonLifecycleHookProcessed (Name (referencedNode ev));;
        call (AddCounter SuccessfulEventsTotalMetric 1);;
        CompleteEvent_loop event url rest newQueue
      else
        CompleteEvent_loop event url rest (newQueue ++ [e])
  end.

(** func (mgr *Manager) CompleteEvent(event *LifecycleEvent) *)
Definition CompleteEvent (event : nat) : M unit :=
  ev ← deref event;
  let url := queueURL ev in
  now ← timeNow;
  let t := Seconds (now - startTime ev) in
  modifyMgr (fun m => setAvarageLatency (updateLatency (avarageLatency m) t) m);;
  m ← getMgr;
  newQueue ← CompleteEvent_loop event url (workQueue m) [];
  modifyMgr (fun m => setCompletedEvents (GoInt.incr (completedEvents m))
                        (setWorkQueue newQueue m));;
  call (DecGauge TerminatingInstancesCountMetric);;
  m ← getMgr;
  call (SetGauge AverageDurationSecondsMetric (avarageLatency m));;
  call (Log LvlInfo "event %v for instance %v completed after %vs").

(** func (mgr *Manager) FailEvent(err error, event *LifecycleEvent, abandon bool) *)
Definition FailEvent (err : option error) (event : nat) (abandon : bool) : M unit :=
  m ← getMgr;
  ev ← deref event;
  let url := queueURL ev in
  _ ← timeNow;
  call (Log LvlError "event %v has failed processing after %vs: %v");;
  modifyMgr (fun m => setFailedEvents (GoInt.incr (failedEvents m)) m);;
  call (AddCounter FailedEventsTotalMetric 1);;
  update event (withEventCompleted true);;
  ev ← deref event;
  publishKubernetesEvent (KubernetesClient (authenticator m))
    EventReasonLifecycleHookFailed (Name (referencedNode ev));;
  (if abandon then
     call (Log LvlWarn "abandoning instance %v");;
     ev ← deref event;
     err ← completeLifecycleAction (ScalingGroupClient (authenticator m)) ev AbandonAction;
     if err is Some _ then call (Log LvlError "completeLifecycleAction Failed, %s")
     else mret tt
   else mret tt);;
  x ← asInterface event;
  if DeepEqual x (VLifecycleEvent zeroEvent) then
    call (Log LvlError "event failed: invalid message: %v")
  else
    ev ← deref event;
    err ← deleteMessage (SQSClient (authenticator m)) url (receiptHandle ev);
    if err is Some _ then call (Log LvlError "event failed: failed to delete message: %v")
    else mret tt.

(** func (mgr *Manager) RejectEvent(err error, event *LifecycleEvent) *)
Definition RejectEvent (err : option error) (event : nat) : M unit :=
  m ← getMgr;
  ev ← deref event;
  let url := queueURL ev in
  call (Log LvlDebug "event %v has been rejected for processing: %v");;
  modifyMgr (fun m => setRejectedEvents (GoInt.incr (rejectedEvents m)) m);;
  call (AddCounter RejectedEventsTotalMetric 1);;
  x ← asInterface event;
  if DeepEqual x (VLifecycleEvent zeroEvent) then
    call (Log LvlError "event failed: invalid message: %v")
  else
    ev ← deref event;
    err ← deleteMessage (SQSClient (authenticator m)) url (receiptHandle ev);
    if err is Some _ then call (Log LvlError "failed to delete message: %v")
    else mret tt.

(** ** Poller *)

(** Modelled from the spec: the body of [getQueueURLByName] is not in the
    sources at hand; by section 6 it is [GetQueueURL(name)] of the queue
    service. *)
Definition getQueueURLByName (queue : SQSAPI) (name : string) : string :=
  GetQueueUrl queue name.

(** [for _, message := range output.Messages { stream <- message }] *)
Fixpoint sendAll (messages : list Message) : M unit :=
  match messages with
  | [] => mret tt
  | message :: rest => call (StreamSend message);; sendAll rest
  end.

(** The body of the [for] loop of [newPoller], at its n-th turn.
    [numGoroutine] is what [runtime.NumGoroutine()] reports. *)
Definition newPoller_body (queue : SQSAPI) (url : string) (interval : Z)
    (numGoroutine : nat -> Z) (n : nat) : M unit :=
  call (Log LvlDebug "polling for messages from queue");;
  call (SetGauge ActiveGoroutinesMetric (inject_Z (numGoroutine n)));;
  call (Log LvlDebug "active goroutines: %v");;
  call (SQSReceiveMessage url interval);;
  let '(output, err) := ReceiveMessage queue n in
  (if err is Some _ then
     call (Log LvlError "unable to receive message from queue %s, %v.");;
     timeSleep (secondsDuration interval)
   else mret tt);;
  match output with
  | None => raise NilDereference                  (* output.Messages, output == nil *)
  | Some out =>
      (if bool_decide (length (Messages out) = 0%nat) then
         call (Log LvlDebug "no messages received in interval")
       else mret tt);;
      sendAll (Messages out)
  end.

(** The first [turns] turns of the loop, starting at turn [n]. *)
Fixpoint newPoller_loop (queue : SQSAPI) (url : string) (interval : Z)
    (numGoroutine : nat -> Z) (turns n : nat) : M unit :=
  match turns with
  | O => mret tt
  | S turns' =>
      newPoller_body queue url interval numGoroutine n;;
      newPoller_loop queue url interval numGoroutine turns' (S n)
  end.

(** func (mgr *Manager) newPoller(), cut after [turns] turns of its endless
    loop. *)
Definition newPoller (numGoroutine : nat -> Z) (turns : nat) : M unit :=
  m ← getMgr;
  let queue := SQSClient (authenticator m) in
  let url := getQueueURLByName queue (QueueName (context m)) in
  let interval := PollingIntervalSeconds (context m) in
  newPoller_loop queue url interval numGoroutine turns 0.

(** ** Heartbeat driver *)

(** [extendLifecycleAction(client, event)]; [n] numbers the call. *)
Definition extendLifecycleAction (client : AutoScalingAPI) (event : LifecycleEvent)
    (n : nat) : M (option error) :=
  call (Log LvlDebug "extending lifecycle event for %v");;
  call (ASGRecordLifecycleActionHeartbeat (AutoScalingGroupName event) (EC2InstanceID event)
          (LifecycleActionToken event) (LifecycleHookName event));;
  mret (RecordLifecycleActionHeartbeat client (AutoScalingGroupName event)
          (EC2InstanceID event) (LifecycleActionToken event) (LifecycleHookName event) n).

(** How [sendHeartbeat] left its loop; [StillRunning] when the model was cut
    before it did. *)
Inductive HeartbeatExit : Type :=
| ExitEventCompleted
| ExitOverThreshold
| ExitHeartbeatFailed (err : error)
| StillRunning.

(** The [for] loop of [sendHeartbeat]; the result carries the value of
    [iterationCount] on exit, the number of turns taken. *)
Fixpoint sendHeartbeat_loop (fuel : nat) (client : AutoScalingAPI) (event : nat)
    (recommendedInterval maxIterations iterationCount : Z) : M (HeartbeatExit * Z) :=
  match fuel with
  | O => mret (StillRunning, iterationCount)
  | S fuel' =>
      let iterationCount := GoInt.incr iterationCount in
      timeSleep (secondsDuration recommendedInterval);;
      ev ← deref event;
      if eventCompleted ev then mret (ExitEventCompleted, iterationCount)
      else if iterationCount >=? maxIterations then
        call (Log LvlDebug "heartbeat extended over threshold, instance will be abandoned");;
        mret (ExitOverThreshold, iterationCount)
      else
        call (Log LvlInfo "sending heartbeat for %v");;
        ev ← deref event;
        err ← extendLifecycleAction client ev (Z.to_nat iterationCount);
        match err with
        | Some e =>
            call (Log LvlError "failed to send heartbeat for event with instance %v: %v");;
            mret (ExitHeartbeatFailed e, iterationCount)
        | None =>
            sendHeartbeat_loop fuel' client event recommendedInterval maxIterations
              iterationCount
        end
  end.

(** func sendHeartbeat(client, event). Integer division truncates towards
    zero and panics on a zero divisor. *)
Definition sendHeartbeat (fuel : nat) (client : AutoScalingAPI) (event : nat)
    : M (HeartbeatExit * Z) :=
  ev ← deref event;
  let interval := heartbeatInterval ev in
  let recommendedInterval := Z.quot interval 2 in
  call (Log LvlDebug "scaling-group = %v, maxInterval = %v, heartbeat = %v");;
  if recommendedInterval =? 0 then raise DivideByZero
  else
    let maxIterations := Z.quot 3600 recommendedInterval in
    sendHeartbeat_loop fuel client event recommendedInterval maxIterations 0.

(** [getHookHeartbeatInterval(client, lifecycleHookName, scalingGroupName)] *)
Definition getHookHeartbeatInterval (client : AutoScalingAPI)
    (lifecycleHookName scalingGroupName : string) : Z * option error :=
  match DescribeLifecycleHooks client scalingGroupName lifecycleHookName with
  | (_, Some err) => (0, Some err)
  | ([], None) => (0, Some (PlainError
      "could not find lifecycle hook with name %v for scaling group %v"))
  | (timeout :: _, None) => (timeout, None)
  end.

(** ** Drain stage *)

(** Modelled from the spec: the bodies of [drainNode], [labelNode] and
    [annotateNode] are not in the sources at hand; by section 6 each invokes
    the drain tool (kubectl) on the node. [annotateNode] returns nothing. *)
Definition drainNode (kube : KubernetesAPI) (node : string) (timeout retry : Z)
    : M (option error) :=
  call (KubectlDrain node timeout retry);;
  mret (KubectlDrainNode kube node timeout retry).

Definition labelNode (kube : KubernetesAPI) (node key value : string) : M (option error) :=
  call (KubectlLabel node key value);;
  mret (KubectlLabelNode kube node key value).

Definition annotateNode (node key value : string) : M unit :=
  call (KubectlAnnotate node key value).

(** func (mgr *Manager) drainNodeTarget(event *LifecycleEvent) error *)
Definition drainNodeTarget (event : nat) : M (option error) :=
  m ← getMgr;
  let kubeClient := KubernetesClient (authenticator m) in
  let drainTimeout := DrainTimeoutSeconds (context m) in
  let retryInterval := DrainRetryIntervalSeconds (context m) in
  ev ← deref event;
  err ← drainNode kubeClient (Name (referencedNode ev)) drainTimeout retryInterval;
  match err with
  | Some e =>
      ev ← deref event;
      publishKubernetesEvent kubeClient EventReasonNodeDrainFailed (Name (referencedNode ev));;
      mret (Some e)
  | None =>
      call (Log LvlInfo "completed drain for node %v");;
      update event (withDrainCompleted true);;
      call (AddCounter SuccessfulNodeDrainTotalMetric 1);;
      ev ← deref event;
      publishKubernetesEvent kubeClient EventReasonNodeDrainSucceeded
        (Name (referencedNode ev));;
      mret None
  end.

(** ** Load-balancer deregistration stage *)

Definition ThreadJitterRangeSeconds : Q := 30.
Definition IterationJitterRangeSeconds : Q := 1.

(** func waitJitter(max float64): a random sleep. *)
Definition waitJitter (max : Q) : M unit :=
  call (Log LvlDebug "adding jitter of %v seconds to waiter");;
  call (WaitJitter max);;
  yield.

(** The callback of a [...Pages] listing: append the page, go on while it
    has a [NextMarker]. *)
Fixpoint collectPages {A} (pages : list (Page A)) (acc : list A) : list A :=
  match pages with
  | [] => acc
  | page :: rest =>
      let acc := acc ++ PageItems page in
      if NextMarker page is Some _ then collectPages rest acc else acc
  end.

(** [findInstanceInTargetGroup(elbClient, arn, instanceID)] *)
Definition findInstanceInTargetGroup (elbClient : ELBV2API) (arn instanceID : string)
    : M (bool * Z * option error) :=
  call (ELBv2DescribeTargetHealth arn);;
  match DescribeTargetHealth elbClient arn with
  | (_, Some err) =>
      call (Log LvlInfo "failed finding instance %v in target group %v: %v");;
      mret (false, 0, Some err)
  | (descs, None) =>
      match find (fun desc => bool_decide (desc.1 = instanceID)) descs with
      | Some desc => mret (true, desc.2, None)
      | None => mret (false, 0, None)
      end
  end.

(** [deregisterTarget(elbClient, arn, instanceID, port)] *)
Definition deregisterTarget (elbClient : ELBV2API) (arn instanceID : string) (port : Z)
    : M (option error) :=
  call (Log LvlInfo "deregistering %v from %v");;
  call (ELBv2DeregisterTargets arn instanceID port);;
  mret (DeregisterTargets elbClient arn instanceID port).

(** [waitForDeregisterTarget(event, elbClient, arn, instanceID, port)]: the
    SDK waiter, which polls until the target is drained or its attempts are
    used up. The body in the sources is that of the signature without the
    event: it waits under [context.Background()] and, as section 5 of the
    specification has it, does not consult the event. *)
Definition waitForDeregisterTarget (event : nat) (elbClient : ELBV2API)
    (arn instanceID : string) (port : Z) : M (option error) :=
  mret (WaitUntilTargetDeregistered elbClient arn instanceID port).

(** Modelled from the spec: the bodies of [findInstanceInClassicBalancer],
    [deregisterInstance] and [waitForDeregisterInstance] are not in the
    sources at hand; by sections 4.4.2 and 6 they are the classic
    counterparts of the three functions above, over [DescribeInstanceHealth],
    [DeregisterInstancesFromLoadBalancer] and [WaitUntilInstanceDeregistered]. *)
Definition findInstanceInClassicBalancer (elbClient : ELBAPI) (elbName instanceID : string)
    : M (bool * option error) :=
  call (ELBDescribeInstanceHealth elbName);;
  match DescribeInstanceHealth elbClient elbName with
  | (_, Some err) => mret (false, Some err)
  | (instances, None) => mret (bool_decide (instanceID ∈ instances), None)
  end.

Definition deregisterInstance (elbClient : ELBAPI) (elbName instanceID : string)
    : M (option error) :=
  call (ELBDeregisterInstances elbName instanceID);;
  mret (DeregisterInstancesFromLoadBalancer elbClient elbName instanceID).

Definition waitForDeregisterInstance (event : nat) (elbClient : ELBAPI)
    (elbName instanceID : string) : M (option error) :=
  mret (WaitUntilInstanceDeregistered elbClient elbName instanceID).

(** [awsErr.Code() == code], after [awsErr, ok := err.(awserr.Error)]. *)
Definition hasCode (err : error) (code : string) : bool :=
  match awsCode err with
  | Some c => bool_decide (c = code)
  | None => false
  end.

(** The membership loop over the target groups. A loop of the stage yields
    [inl err] when it makes the stage return [err]. *)
Fixpoint findTargetGroups (elbv2Client : ELBV2API) (instanceID : string)
    (targetGroups : list string) (activeTargetGroups : gmap string Z)
    : M (error + gmap string Z) :=
  match targetGroups with
  | [] => mret (inr activeTargetGroups)
  | arn :: rest =>
      waitJitter IterationJitterRangeSeconds;;
      call (Log LvlDebug "checking membership of %v on %v (%v/%v)");;
      r ← findInstanceInTargetGroup elbv2Client arn instanceID;
      match r with
      | (_, _, Some err) =>
          if hasCode err ErrCodeTargetGroupNotFoundException then
            call (Log LvlWarn "target group %v not found, skipping");;
            findTargetGroups elbv2Client instanceID rest activeTargetGroups
          else mret (inl err)
      | (false, _, None) =>
          findTargetGroups elbv2Client instanceID rest activeTargetGroups
      | (true, port, None) =>
          findTargetGroups elbv2Client instanceID rest (<[arn := port]> activeTargetGroups)
      end
  end.

(** The membership loop over the classic balancers. *)
Fixpoint findLoadBalancers (elbClient : ELBAPI) (instanceID : string)
    (elbDescriptions : list string) (activeLoadBalancers : list string)
    : M (error + list string) :=
  match elbDescriptions with
  | [] => mret (inr activeLoadBalancers)
  | elbName :: rest =>
      waitJitter IterationJitterRangeSeconds;;
      call (Log LvlDebug "checking membership of %v on %v (%v/%v)");;
      r ← findInstanceInClassicBalancer elbClient elbName instanceID;
      match r with
      | (_, Some err) =>
          if hasCode err ErrCodeAccessPointNotFoundException then
            call (Log LvlWarn "classic-elb %v not found, skipping");;
            findLoadBalancers elbClient instanceID rest activeLoadBalancers
          else mret (inl err)
      | (false, None) => findLoadBalancers elbClient instanceID rest activeLoadBalancers
      | (true, None) =>
          findLoadBalancers elbClient instanceID rest (activeLoadBalancers ++ [elbName])
      end
  end.

(** [errChannel <- err] on a channel of the given capacity: the sender blocks
    while the buffer is full, and nothing ever empties it before the
    [select]. *)
Definition errChannelSend (capacity : Z) (errChannel : list error) (err : error)
    : M (list error) :=
  if Z.of_nat (length errChannel) <? capacity then
    call (ErrChannelSend err);;
    mret (errChannel ++ [err])
  else block.

(** The deregistration loop over the active classic balancers. It yields the
    balancers whose deregistration was requested and the contents of the
    error channel. *)
Fixpoint deregisterLoadBalancers (event : nat) (elbClient : ELBAPI) (kubeClient : KubernetesAPI)
    (instanceID : string) (capacity : Z) (activeLoadBalancers : list string)
    (deregisteredLoadBalancers : list string) (errChannel : list error)
    : M (error + list string * list error) :=
  match activeLoadBalancers with
  | [] => mret (inr (deregisteredLoadBalancers, errChannel))
  | elbName :: rest =>
      ev ← deref event;
      if eventCompleted ev then
        mret (inl (PlainError "event finished execution during deregistration"))
      else
        waitJitter IterationJitterRangeSeconds;;
        call (Log LvlDebug "deregistering %v from %v (%v/%v)");;
        err ← deregisterInstance elbClient elbName instanceID;
        match err with
        | Some e =>
            if hasCode e ErrCodeAccessPointNotFoundException then
              call (Log LvlWarn "ELB %v not found, skipping");;
              deregisterLoadBalancers event elbClient kubeClient instanceID capacity rest
                deregisteredLoadBalancers errChannel
            else if hasCode e ErrCodeInvalidEndPointException then
              call (Log LvlWarn "ELB target %v not found in %v, skipping");;
              deregisterLoadBalancers event elbClient kubeClient instanceID capacity rest
                deregisteredLoadBalancers errChannel
            else
              call (Log LvlError "instance %v deregistration failed: %v");;
              errChannel ← errChannelSend capacity errChannel e;
              ev ← deref event;
              publishKubernetesEvent kubeClient EventReasonInstanceDeregisterFailed
                (Name (referencedNode ev));;
              deregisterLoadBalancers event elbClient kubeClient instanceID capacity rest
                deregisteredLoadBalancers errChannel
        | None =>
            deregisterLoadBalancers event elbClient kubeClient instanceID capacity rest
              (deregisteredLoadBalancers ++ [elbName]) errChannel
        end
  end.

(** The deregistration loop over the active target groups, in the order the
    map is ranged over. *)
Fixpoint deregisterTargetGroups (event : nat) (elbv2Client : ELBV2API)
    (kubeClient : KubernetesAPI) (instanceID : string) (capacity : Z)
    (activeTargetGroups : list (string * Z)) (deregisteredTargetGroups : gmap string Z)
    (errChannel : list error) : M (error + gmap string Z * list error) :=
  match activeTargetGroups with
  | [] => mret (inr (deregisteredTargetGroups, errChannel))
  | (arn, port) :: rest =>
      ev ← deref event;
      if eventCompleted ev then
        mret (inl (PlainError "event finished execution during deregistration"))
      else
        waitJitter IterationJitterRangeSeconds;;
        call (Log LvlDebug "deregistering %v from %v (%v/%v)");;
        err ← deregisterTarget elbv2Client arn instanceID port;
        match err with
        | Some e =>
            if hasCode e ErrCodeTargetGroupNotFoundException then
              call (Log LvlWarn "target group %v not found, skipping");;
              deregisterTargetGroups event elbv2Client kubeClient instanceID capacity rest
                deregisteredTargetGroups errChannel
            else if hasCode e ErrCodeInvalidTargetException then
              call (Log LvlWarn "target %v not found in target group %v, skipping");;
              deregisterTargetGroups event elbv2Client kubeClient instanceID capacity rest
                deregisteredTargetGroups errChannel
            else
              call (Log LvlError "target %v deregistration failed: %v");;
              errChannel ← errChannelSend capacity errChannel e;
              ev ← deref event;
              publishKubernetesEvent kubeClient EventReasonTargetDeregisterFailed
                (Name (referencedNode ev));;
              deregisterTargetGroups event elbv2Client kubeClient instanceID capacity rest
                deregisteredTargetGroups errChannel
        | None =>
            deregisterTargetGroups event elbv2Client kubeClient instanceID capacity rest
              (<[arn := port]> deregisteredTargetGroups) errChannel
        end
  end.

(** *** The waiters and the coordinator

    The waiters, the goroutine that closes [finished] and the [select] of
    the stage run concurrently. Their shared state is the wait group, the
    error channel and [finished]; a schedule says which goroutine moves
    next. *)

Inductive Waiter : Type :=
| ClassicWaiter (elbName instance : string)
| TargetWaiter (arn instance : string) (port : Z).

Record WaitState : Type := mkWait {
  wgCounter : Z;                   (* sync.WaitGroup *)
  running : list Waiter;           (* waiters spawned, neither returned nor stuck *)
  stuck : list Waiter;             (* waiters blocked in a send on a full channel *)
  errChannel : list error;         (* buffered, first in first out *)
  capacity : Z;
  finished : bool                  (* close(finished) has happened *)
}.

Definition setRunning (ws : list Waiter) (st : WaitState) : WaitState :=
  mkWait (wgCounter st) ws (stuck st) (errChannel st) (capacity st) (finished st).

(** [defer wg.Done()] of a waiter that returns. *)
Definition wgDone (st : WaitState) : M WaitState :=
  if wgCounter st - 1 <? 0 then raise NegativeWaitGroupCounter
  else
    call WaitGroupDone;;
    mret (mkWait (wgCounter st - 1) (running st) (stuck st) (errChannel st) (capacity st)
            (finished st)).

(** A waiter's [errChannel <- err; return]. With the buffer full the waiter
    stays blocked in the send and never reaches [wg.Done()]. *)
Definition waiterFail (w : Waiter) (st : WaitState) (err : error) : M WaitState :=
  if Z.of_nat (length (errChannel st)) <? capacity st then
    call (ErrChannelSend err);;
    wgDone (mkWait (wgCounter st) (running st) (stuck st) (errChannel st ++ [err])
              (capacity st) (finished st))
  else
    mret (mkWait (wgCounter st) (running st) (stuck st ++ [w]) (errChannel st)
            (capacity st) (finished st)).

(** The body of a waiter goroutine, run to its end. *)
Definition waiterBody (event : nat) (w : Waiter) (st : WaitState) : M WaitState :=
  m ← getMgr;
  let kubeClient := KubernetesClient (authenticator m) in
  match w with
  | ClassicWaiter elbName instance =>
      call (Log LvlDebug "starting elb-drain waiter for %v in classic-elb %v");;
      err ← waitForDeregisterInstance event (ELBClient (authenticator m)) elbName instance;
      match err with
      | Some e =>
          if hasCode e ErrCodeAccessPointNotFoundException then
            call (Log LvlWarn "ELB %v not found, skipping");;
            wgDone st
          else waiterFail w st e
      | None =>
          ev ← deref event;
          publishKubernetesEvent kubeClient EventReasonInstanceDeregisterSucceeded
            (Name (referencedNode ev));;
          wgDone st
      end
  | TargetWaiter activeARN instance activePort =>
      call (Log LvlDebug "starting alb-drain waiter for %v in target-group %v");;
      err ← waitForDeregisterTarget event (ELBv2Client (authenticator m)) activeARN
              instance activePort;
      match err with
      | Some e =>
          if hasCode e ErrCodeTargetGroupNotFoundException then
            call (Log LvlWarn "target group %v not found, skipping");;
            wgDone st
          else waiterFail w st e
      | None =>
          ev ← deref event;
          publishKubernetesEvent kubeClient EventReasonTargetDeregisterSucceeded
            (Name (referencedNode ev));;
          wgDone st
      end
  end.

(** [go func() { wg.Wait(); close(finished) }()]: it moves once the counter
    is zero. *)
Definition closerStep (st : WaitState) : WaitState :=
  if wgCounter st =? 0 then
    mkWait (wgCounter st) (running st) (stuck st) (errChannel st) (capacity st) true
  else st.

(** The [select] over [<-finished] and [<-errChannel]: [None] while neither
    case is ready; with both ready Go picks either, here by [preferFinished].
    The result is the error received, nil on [finished]. *)
Definition trySelect (preferFinished : bool) (st : WaitState) : option (option error) :=
  match finished st, errChannel st with
  | true, [] => Some None
  | true, err :: _ => if preferFinished then Some None else Some (Some err)
  | false, err :: _ => Some (Some err)
  | false, [] => None
  end.

Inductive SchedStep : Type :=
| RunWaiter (i : nat)                   (* the i-th running waiter runs to its end *)
| RunCloser
| RunSelect (preferFinished : bool).

(** All running waiters run to their end, in the order they were spawned. *)
Fixpoint runWaiters (event : nat) (ws : list Waiter) (st : WaitState) : M WaitState :=
  match ws with
  | [] => mret st
  | w :: rest => st ← waiterBody event w st; runWaiters event rest st
  end.

(** The coordinator under a schedule; it yields what the [select] received
    and the shared state at that moment. When the schedule is used up every
    goroutine that can still move does so: the waiters run to their end, the
    closer runs, and the [select] takes a ready case. If no case is ready
    then, none ever will be: the stage blocks. *)
Fixpoint coordinate (event : nat) (sched : list SchedStep) (st : WaitState)
    : M (option error * WaitState) :=
  match sched with
  | [] =>
      st ← runWaiters event (running st) (setRunning [] st);
      let st := closerStep st in
      match trySelect false st with
      | Some r => mret (r, st)
      | None => block
      end
  | RunWaiter i :: rest =>
      match running st !! i with
      | Some w =>
          st ← waiterBody event w (setRunning (delete i (running st)) st);
          coordinate event rest st
      | None => coordinate event rest st
      end
  | RunCloser :: rest => coordinate event rest (closerStep st)
  | RunSelect preferFinished :: rest =>
      match trySelect preferFinished st with
      | Some r => mret (r, st)
      | None => coordinate event rest st
      end
  end.

(** The slots of the wait group that no waiter is left to release. *)
Definition unaccounted (st : WaitState) : Z :=
  wgCounter st - Z.of_nat (length (running st) + length (stuck st)).

(** The wait group counts every waiter that has not returned, and
    [finished] is closed only with the counter at zero. *)
Definition waitersAccounted (st : WaitState) : Prop :=
  0 <= unaccounted st /\ (finished st = true -> wgCounter st = 0).

(** The two loops that spawn the waiters. *)
Fixpoint spawnClassicWaiters (instanceID : string) (deregisteredLoadBalancers : list string)
    (spawned : list Waiter) : M (list Waiter) :=
  match deregisteredLoadBalancers with
  | [] => mret spawned
  | elbName :: rest =>
      waitJitter IterationJitterRangeSeconds;;
      call (Go (GoClassicWaiter elbName instanceID));;
      spawnClassicWaiters instanceID rest (spawned ++ [ClassicWaiter elbName instanceID])
  end.

Fixpoint spawnTargetWaiters (instanceID : string) (deregisteredTargetGroups : list (string * Z))
    (spawned : list Waiter) : M (list Waiter) :=
  match deregisteredTargetGroups with
  | [] => mret spawned
  | (arn, port) :: rest =>
      waitJitter IterationJitterRangeSeconds;;
      call (Go (GoTargetWaiter arn instanceID port));;
      spawnTargetWaiters instanceID rest (spawned ++ [TargetWaiter arn instanceID port])
  end.

(** [int(now.Sub(nodeCreationTime).Minutes())] *)
Definition nodeAgeMinutes (now created : Z) : Z := Z.quot (now - created) 60000000000.

(** The stage from [wg.Add(workQueueLength)] on: deregistration, waiters,
    coordinator. *)
Definition deregisterAndWait (event : nat) (instanceID : string)
    (activeTargetGroups : gmap string Z) (activeLoadBalancers : list string)
    (sched : list SchedStep) : M (option error) :=
  m ← getMgr;
  let kubeClient := KubernetesClient (authenticator m) in
  let elbv2Client := ELBv2Client (authenticator m) in
  let elbClient := ELBClient (authenticator m) in
  let workQueueLength :=
    Z.of_nat (size activeTargetGroups) + Z.of_nat (length activeLoadBalancers) in
  let capacity := workQueueLength * 2 in
  call (WaitGroupAdd workQueueLength);;
  call (Log LvlInfo "found %v target groups & %v classic-elb for instance %v");;
  call (Log LvlInfo "starting deregistration for %v");;
  r ← deregisterLoadBalancers event elbClient kubeClient instanceID capacity
        activeLoadBalancers [] [];
  match r with
  | inl err => mret (Some err)
  | inr (deregisteredLoadBalancers, errChannel) =>
      r ← deregisterTargetGroups event elbv2Client kubeClient instanceID capacity
            (map_to_list activeTargetGroups) ∅ errChannel;
      match r with
      | inl err => mret (Some err)
      | inr (deregisteredTargetGroups, errChannel) =>
          call (Log LvlInfo "starting waiters for %v");;
          ws ← spawnClassicWaiters instanceID deregisteredLoadBalancers [];
          ws ← spawnTargetWaiters instanceID (map_to_list deregisteredTargetGroups) ws;
          call (Go GoWaitGroupCloser);;
          r ← coordinate event sched (mkWait workQueueLength ws [] errChannel capacity false);
          match Wrap r.1 "failed to process alb-drain: " with
          | Some errs => mret (Some errs)
          | None =>
              call (Log LvlDebug "successfully executed all drainLoadbalancerTarget goroutines");;
              call (AddCounter SuccessfulLBDeregisterTotalMetric 1);;
              update event (withDeregisterCompleted true);;
              mret None
          end
      end
  end.

(** func (mgr *Manager) drainLoadbalancerTarget(event *LifecycleEvent) error *)
Definition drainLoadbalancerTarget (event : nat) (sched : list SchedStep)
    : M (option error) :=
  m ← getMgr;
  let kubeClient := KubernetesClient (authenticator m) in
  let elbv2Client := ELBv2Client (authenticator m) in
  let elbClient := ELBClient (authenticator m) in
  ev ← deref event;
  let instanceID := EC2InstanceID ev in
  let node := referencedNode ev in
  if negb (WithDeregister (context m)) then mret None
  else
    waitJitter ThreadJitterRangeSeconds;;
    call (Log LvlDebug "excluding node %v from load balancers");;
    err ← labelNode kubeClient (Name node) ExcludeLabelKey ExcludeLabelValue;
    match err with
    | Some e => mret (Some e)
    | None =>
        now ← timeNow;
        (if nodeAgeMinutes now (CreationTimestamp node) <=? NodeAgeCacheTTL then
           call (Log LvlInfo
             "Node younger than %vm was terminated, flushing DescribeTargetHealth caches");;
           call (FlushCache "elasticloadbalancing.DescribeTargetHealth");;
           call (FlushCache "elasticloadbalancing.DescribeInstanceHealth")
         else mret tt);;
        call ELBv2DescribeTargetGroups;;
        match DescribeTargetGroupsPages elbv2Client with
        | (_, Some e) => mret (Some e)
        | (pages, None) =>
            let targetGroups := collectPages pages [] in
            call ELBDescribeLoadBalancers;;
            match DescribeLoadBalancersPages elbClient with
            | (_, Some e) => mret (Some e)
            | (pages, None) =>
                let elbDescriptions := collectPages pages [] in
                call (Log LvlInfo "checking targetgroup/elb membership for %v");;
                r ← findTargetGroups elbv2Client instanceID targetGroups ∅;
                match r with
                | inl e => mret (Some e)
                | inr activeTargetGroups =>
                    r ← findLoadBalancers elbClient instanceID elbDescriptions [];
                    match r with
                    | inl e => mret (Some e)
                    | inr activeLoadBalancers =>
                        deregisterAndWait event instanceID activeTargetGroups
                          activeLoadBalancers sched
                    end
                end
            end
        end
    end.

(** ** Worker pipeline *)

Section Pipeline.

(** The codec of the crash-resume annotation and the parser of a queue
    message are not in the sources at hand; the pipeline is stated for any.
    [readMessage] allocates the event it returns and yields its address. *)
Variable serializeMessage : option Message -> string * option error.
Variable deserializeMessage : string -> option Message * option error.
Variable readMessage : option Message -> M (nat * option error).

(** func (mgr *Manager) handleEvent(event *LifecycleEvent) error *)
Definition handleEvent (event : nat) (sched : list SchedStep) : M (option error) :=
  m ← getMgr;
  call (Go (GoHeartbeat event));;
  ev ← deref event;
  (match serializeMessage (message ev) with
   | (_, Some _) =>
       call (Log LvlError "failed to serialize message for storage, event cannot be restored")
   | (storeMessage, None) =>
       annotateNode (Name (referencedNode ev)) InProgressAnnotationKey storeMessage
   end);;
  call (IncGauge DrainingInstancesCountMetric);;
  err ← drainNodeTarget event;
  (if err is Some _ then
     call (DecGauge DrainingInstancesCountMetric);;
     call (AddCounter FailedNodeDrainTotalMetric 1)
   else mret tt);;
  call (DecGauge DrainingInstancesCountMetric);;
  call (IncGauge DeregisteringInstancesCountMetric);;
  err ← drainLoadbalancerTarget event sched;
  (if err is Some _ then
     call (DecGauge DeregisteringInstancesCountMetric);;
     call (AddCounter FailedLBDeregisterTotalMetric 1)
   else mret tt);;
  call (DecGauge DeregisteringInstancesCountMetric);;
  match err with
  | Some e => mret (Some e)
  | None =>
      ev ← deref event;
      annotateNode (Name (referencedNode ev)) InProgressAnnotationKey "";;
      mret None
  end.

(** func (mgr *Manager) Process(event *LifecycleEvent) error *)
Definition Process (event : nat) (sched : list SchedStep) : M (option error) :=
  AddEvent event;;
  call (Log LvlInfo "received termination event for instance/%v");;
  err ← handleEvent event sched;
  match err with
  | Some e => mret (Some e)
  | None => CompleteEvent event;; mret None
  end.

(** Modelled from the spec: the body of [IsValid] is not in the sources at
    hand; by section 4.3 the transition is the termination transition and
    every identifier field is non-empty. *)
Definition IsValid (e : LifecycleEvent) : bool :=
  bool_decide (LifecycleTransition e = TerminationEventName)
  && negb (bool_decide (LifecycleHookName e = ""))
  && negb (bool_decide (AccountID e = ""))
  && negb (bool_decide (RequestID e = ""))
  && negb (bool_decide (AutoScalingGroupName e = ""))
  && negb (bool_decide (EC2InstanceID e = ""))
  && negb (bool_decide (LifecycleActionToken e = "")).

(** Modelled from the spec: the body of [getNodeByInstance] is not in the
    sources at hand; by section 4.3 it scans the cluster nodes for one whose
    provider identifier contains the instance id. *)
Definition getNodeByInstance (kube : KubernetesAPI) (instanceID : string) : Node * bool :=
  match find (fun n => bool_decide (is_Some (String.index 0 instanceID (ProviderID n))))
          (ListNodes kube) with
  | Some n => (n, true)
  | None => (zeroNode, false)
  end.

(** The duplicate check of [newWorker] against the work queue; [true] when
    the event was rejected. *)
Definition newWorker_dedup (event : nat) : M bool :=
  m ← getMgr;
  ev ← deref event;
  queue ← derefAll (workQueue m);
  if IsAlreadyExist ev queue then
    RejectEvent (Some (PlainError "event already exists")) event;;
    mret true
  else mret false.

(** func (mgr *Manager) newWorker(message *sqs.Message) *)
Definition newWorker (message : option Message) (sched : list SchedStep) : M unit :=
  m ← getMgr;
  let auth := authenticator m in
  let kubeClient := KubernetesClient auth in
  let url := getQueueURLByName (SQSClient auth) (QueueName (context m)) in
  r ← readMessage message;
  let '(event, err) := r in
  if err is Some _ then RejectEvent (Wrap err "failed to read message") event
  else
    update event (withQueueURL url);;
    ev ← deref event;
    if negb (IsValid ev) then RejectEvent (Wrap err "received invalid event") event
    else
      rejected ← newWorker_dedup event;
      if (rejected : bool) then mret tt
      else
        ev ← deref event;
        match getHookHeartbeatInterval (ScalingGroupClient auth) (LifecycleHookName ev)
                (AutoScalingGroupName ev) with
        | (_, Some e) =>
            RejectEvent (Wrap (Some e) "failed to get hook heartbeat interval") event
        | (heartbeatInterval, None) =>
            update event (withHeartbeatInterval heartbeatInterval);;
            ev ← deref event;
            match getNodeByInstance kubeClient (EC2InstanceID ev) with
            | (_, false) =>
                RejectEvent (Some (PlainError "instance %v is not seen in cluster nodes")) event
            | (node, true) =>
                update event (withReferencedNode node);;
                update event (withMessage message);;
                ev ← deref event;
                publishKubernetesEvent kubeClient EventReasonLifecycleHookReceived
                  (Name (referencedNode ev));;
                err ← Process event sched;
                if err is Some _ then FailEvent err event true else mret tt
            end
        end.

(** *** Crash resume *)

(** The resume loop of [Start] over the annotated nodes. *)
Fixpoint Start_resume (inProgressEvents : list (string * string)) : M unit :=
  match inProgressEvents with
  | [] => mret tt
  | (node, sqsMessage) :: rest =>
      if bool_decide (sqsMessage = "") then Start_resume rest
      else
        call (Log LvlInfo "trying to resume termination of node/%v");;
        let '(message, err) := deserializeMessage sqsMessage in
        (if err is Some _ then call (Log LvlError "failed to resume in progress events: %v")
         else mret tt);;
        call (Go (GoWorker message));;
        Start_resume rest
  end.

(** [for message := range mgr.eventStream { go mgr.newWorker(message) }] *)
Fixpoint Start_consume (eventStream : list Message) : M unit :=
  match eventStream with
  | [] => mret tt
  | message :: rest => call (Go (GoWorker (Some message)));; Start_consume rest
  end.

(** Modelled from the spec: the body of [getNodesByAnnotationKey] is not in
    the sources at hand; by section 6 it lists the nodes with the value of
    the annotation on each. *)
Definition getNodesByAnnotationKey (kube : KubernetesAPI) (key : string)
    : list (string * string) * option error :=
  NodeAnnotations kube key.

(** func (mgr *Manager) Start(), for the messages that arrive on the event
    stream. *)
Definition Start (eventStream : list Message) : M unit :=
  m ← getMgr;
  let kube := KubernetesClient (authenticator m) in
  call (Log LvlInfo "starting lifecycle-manager service v%v");;
  call (Log LvlInfo "region = %v");;
  call (Log LvlInfo "queue = %v");;
  call (Log LvlInfo "polling interval seconds = %v");;
  call (Log LvlInfo "node drain timeout seconds = %v");;
  call (Log LvlInfo "node drain retry interval seconds = %v");;
  call (Log LvlInfo "with alb deregister = %v");;
  call (Log LvlInfo "starting metrics server on %v%v");;
  call (Go GoMetricsServer);;
  call (Log LvlInfo "spawning sqs poller");;
  call (Go GoPoller);;
  let '(inProgressEvents, err) := getNodesByAnnotationKey kube InProgressAnnotationKey in
  (if err is Some _ then call (Log LvlError "failed to resume in progress events: %v")
   else mret tt);;
  Start_resume inProgressEvents;;
  Start_consume eventStream.

End Pipeline.

(** ** Reading a trace *)

Definition isDeleteMessage (c : Call) : bool :=
  match c with SQSDeleteMessage _ _ => true | _ => false end.

Definition isCompleteLifecycleAction (result : string) (c : Call) : bool :=
  match c with
  | ASGCompleteLifecycleAction _ _ _ r => bool_decide (r = result)
  | _ => false
  end.

Definition isCreateEvent (c : Call) : bool :=
  match c with KubeCreateEvent _ _ => true | _ => false end.

Definition isCreateEventFor (reason : EventReason) (c : Call) : bool :=
  match c with
  | KubeCreateEvent r _ =>
      match r, reason with
      | EventReasonLifecycleHookReceived, EventReasonLifecycleHookReceived
      | EventReasonLifecycleHookProcessed, EventReasonLifecycleHookProcessed
      | EventReasonLifecycleHookFailed, EventReasonLifecycleHookFailed
      | EventReasonNodeDrainSucceeded, EventReasonNodeDrainSucceeded
      | EventReasonNodeDrainFailed, EventReasonNodeDrainFailed
      | EventReasonTargetDeregisterSucceeded, EventReasonTargetDeregisterSucceeded
      | EventReasonTargetDeregisterFailed, EventReasonTargetDeregisterFailed
      | EventReasonInstanceDeregisterSucceeded, EventReasonInstanceDeregisterSucceeded
      | EventReasonInstanceDeregisterFailed, EventReasonInstanceDeregisterFailed => true
      | _, _ => false
      end
  | _ => false
  end.

Definition isErrChannelSend (c : Call) : bool :=
  match c with ErrChannelSend _ => true | _ => false end.

Definition isSpawnWaiter (c : Call) : bool :=
  match c with
  | Go (GoClassicWaiter _ _) | Go (GoTargetWaiter _ _ _) => true
  | _ => false
  end.

Definition isWaitGroupDone (c : Call) : bool :=
  match c with WaitGroupDone => true | _ => false end.

Definition isSpawnWorker (c : Call) : bool :=
  match c with Go (GoWorker _) => true | _ => false end.

Definition isLog (c : Call) : bool :=
  match c with Log _ _ => true | _ => false end.

Definition isWarning (c : Call) : bool :=
  match c with Log LvlWarn _ => true | _ => false end.

Definition isSleep (c : Call) : bool :=
  match c with Sleep _ => true | _ => false end.

(** How many calls of a trace are of a kind. *)
Definition times (kind : Call -> bool) (t : list Call) : nat :=
  length (List.filter kind t).

(** Waiters spawned and waiters returned, as a trace shows them. *)
Definition spawns (t : list Call) : nat := times isSpawnWaiter t.
Definition dones (t : list Call) : nat := times isWaitGroupDone t.

(** A state reached by extending the trace, with [n] waiters spawned and
    [d] returned on the way. *)
Definition extends (s s' : State) (n d : nat) : Prop :=
  exists t, trace s' = trace s ++ t /\ spawns t = n /\ dones t = d.

(** A part of the deregistration stage that went well: it did not panic
    and, if it returned, the event is still allocated, no waiter was
    spawned or returned meanwhile, and the result satisfies [post]. *)
Definition stageOk {A} (event : nat) (s : State) (post : A -> Prop) (o : outcome A) : Prop :=
  match o with
  | Done a s' => is_Some (events s' !! event) /\ extends s s' 0 0 /\ post a
  | Blocked _ => True
  | Panicked _ _ => False
  end.

(** ** Latency smoothing, as the specification words it

    [a1 = t1], [a(i) = (a(i-1) + t(i)) / 2]. *)





(** What the loop of CompleteEvent leaves untouched: the manager, the clock,
    and the set of allocated events. *)
Definition sameFrame (s s' : State) : Prop :=
  mgr s' = mgr s
  /\ wallClock s' = wallClock s
  /\ clockReads s' = clockReads s
  /\ (forall p, is_Some (events s !! p) -> is_Some (events s' !! p)).

(** ** Heartbeat bound of the specification: [ceil (3600 / (interval / 2))] *)



(** ** Workers sharing the manager

    Each worker goroutine holds the event it parsed and moves through
    [newWorker] and [Process] one call at a time; the calls of different
    workers interleave. A step names the worker (by its event) that moves. *)

Inductive WorkerStage : Type :=
| Parsed           (* about to run the duplicate check *)
| Accepted         (* passed the checks, about to call Process *)
| Added            (* AddEvent done, handling the event *)
| Finished.

Inductive WorkerStep : Type :=
| StepDedup (event : nat)
| StepAddEvent (event : nat)
| StepCompleteEvent (event : nat)
| StepFailEvent (err : error) (event : nat).

Definition setStage (event : nat) (st : WorkerStage) (workers : gmap nat WorkerStage)
    : gmap nat WorkerStage := <[event := st]> workers.

(** One step of one worker; [None] when the worker is not at that point of
    its code, or the call does not return. *)
Definition workerStep (step : WorkerStep) (c : State * gmap nat WorkerStage)
    : option (State * gmap nat WorkerStage) :=
  let '(s, workers) := c in
  match step with
  | StepDedup event =>
      match workers !! event, newWorker_dedup event s with
      | Some Parsed, Done rejected s' =>
          Some (s', setStage event (if rejected then Finished else Accepted) workers)
      | _, _ => None
      end
  | StepAddEvent event =>
      match workers !! event, AddEvent event s with
      | Some Accepted, Done _ s' => Some (s', setStage event Added workers)
      | _, _ => None
      end
  | StepCompleteEvent event =>
      match workers !! event, CompleteEvent event s with
      | Some Added, Done _ s' => Some (s', setStage event Finished workers)
      | _, _ => None
      end
  | StepFailEvent err event =>
      match workers !! event, FailEvent (Some err) event true s with
      | Some Added, Done _ s' => Some (s', setStage event Finished workers)
      | _, _ => None
      end
  end.

Fixpoint workerSteps (steps : list WorkerStep) (c : State * gmap nat WorkerStage)
    : option (State * gmap nat WorkerStage) :=
  match steps with
  | [] => Some c
  | step :: rest =>
      match workerStep step c with
      | Some c' => workerSteps rest c'
      | None => None
      end
  end.

(** The pair that identifies an event: [(requestId, instanceId)]. *)
Definition eventKey (e : LifecycleEvent) : string * string :=
  (RequestID e, EC2InstanceID e).

(** The pairs of the entries of the work queue. *)
Definition queueKeys (s : State) : list (string * string) :=
  omap (fun p => eventKey <$> events s !! p) (workQueue (mgr s)).

(** No two entries of the work queue have the same pair. *)
Definition distinctQueue (s : State) : Prop := NoDup (queueKeys s).

(** The entries of a queue other than the event: each holds another
    notification. *)
Definition otherEntries (s : State) (ev : LifecycleEvent) (queue : list nat) : Prop :=
  Forall (fun q => forall e, events s !! q = Some e -> eventKey e <> eventKey ev) queue.

(** ** More readers of a trace *)

#[global] Instance Metric_eq_dec : EqDecision Metric.
Proof. solve_decision. Defined.

Definition isIncGauge (m : Metric) (c : Call) : bool :=
  match c with IncGauge m' => bool_decide (m' = m) | _ => false end.

Definition isDecGauge (m : Metric) (c : Call) : bool :=
  match c with DecGauge m' => bool_decide (m' = m) | _ => false end.

Definition isAddCounter (m : Metric) (c : Call) : bool :=
  match c with AddCounter m' _ => bool_decide (m' = m) | _ => false end.

Definition isHeartbeat (c : Call) : bool :=
  match c with ASGRecordLifecycleActionHeartbeat _ _ _ _ => true | _ => false end.

Definition isStreamSend (c : Call) : bool :=
  match c with StreamSend _ => true | _ => false end.

Definition isGo (c : Call) : bool :=
  match c with Go _ => true | _ => false end.

Definition isKubectlDrain (c : Call) : bool :=
  match c with KubectlDrain _ _ _ => true | _ => false end.

Definition isKubectlLabel (c : Call) : bool :=
  match c with KubectlLabel _ _ _ => true | _ => false end.

Definition isFlushCache (c : Call) : bool :=
  match c with FlushCache _ => true | _ => false end.

(** A request to a load-balancer service about one pool. *)
Definition isPoolRequest (c : Call) : bool :=
  match c with
  | ELBDescribeInstanceHealth _ | ELBDeregisterInstances _ _
  | ELBv2DescribeTargetHealth _ | ELBv2DeregisterTargets _ _ _ => true
  | _ => false
  end.

(** ** What a stage may touch *)

(** The state a computation ends in, whatever its outcome. *)
Definition final {A} (o : outcome A) : State :=
  match o with
  | Done _ s | Panicked _ s | Blocked s => s
  end.

(** The calls the deregistration stage makes for its pools: it logs, sleeps
    its jitter, asks the two load-balancer services about a pool, publishes
    the outcome of a deregistration, drives its wait group and error channel,
    and counts a success. *)
Definition isPoolCall (c : Call) : bool :=
  match c with
  | Log _ _ | WaitJitter _ | ErrChannelSend _ | WaitGroupAdd _ | WaitGroupDone
  | ELBDescribeInstanceHealth _ | ELBDeregisterInstances _ _
  | ELBv2DescribeTargetHealth _ | ELBv2DeregisterTargets _ _ _
  | Go (GoClassicWaiter _ _) | Go (GoTargetWaiter _ _ _) | Go GoWaitGroupCloser
  | AddCounter SuccessfulLBDeregisterTotalMetric _
  | KubeCreateEvent EventReasonTargetDeregisterSucceeded _
  | KubeCreateEvent EventReasonTargetDeregisterFailed _
  | KubeCreateEvent EventReasonInstanceDeregisterSucceeded _
  | KubeCreateEvent EventReasonInstanceDeregisterFailed _ => true
  | _ => false
  end.

(** The calls of the deregistration stage: those for its pools and, before
    them, the exclusion label, the cache flushes and the two listings. *)
Definition isDeregistrationCall (c : Call) : bool :=
  isPoolCall c
  || match c with
     | KubectlLabel _ _ _ | FlushCache _ | ELBDescribeLoadBalancers
     | ELBv2DescribeTargetGroups => true
     | _ => false
     end.

(** The calls of the drain stage. *)
Definition isDrainCall (c : Call) : bool :=
  match c with
  | Log _ _ | KubectlDrain _ _ _
  | AddCounter SuccessfulNodeDrainTotalMetric _
  | KubeCreateEvent EventReasonNodeDrainSucceeded _
  | KubeCreateEvent EventReasonNodeDrainFailed _ => true
  | _ => false
  end.

(** The calls of handleEvent: those of its two stages, the heartbeat
    goroutine, the in-progress annotation, and the gauges and failure
    counters of the stages. *)
Definition isHandlingCall (c : Call) : bool :=
  isDeregistrationCall c || isDrainCall c
  || match c with
     | Go (GoHeartbeat _) | KubectlAnnotate _ _ _
     | IncGauge DrainingInstancesCountMetric | DecGauge DrainingInstancesCountMetric
     | IncGauge DeregisteringInstancesCountMetric
     | DecGauge DeregisteringInstancesCountMetric
     | AddCounter FailedNodeDrainTotalMetric _
     | AddCounter FailedLBDeregisterTotalMetric _ => true
     | _ => false
     end.

(** A computation that, whatever its outcome, leaves the manager as it is,
    frees no event, and only adds calls of the given kind to the trace. *)
Definition framed {A} (kind : Call -> bool) (c : M A) : Prop :=
  forall s,
    mgr (final (c s)) = mgr s
    /\ (forall p, is_Some (events s !! p) -> is_Some (events (final (c s)) !! p))
    /\ exists t, trace (final (c s)) = trace s ++ t /\ Forall (fun c => kind c = true) t.

(** The result of the drain tool for the node of an event. *)
Definition drainResult (s : State) (ev : LifecycleEvent) : option error :=
  KubectlDrainNode (KubernetesClient (authenticator (mgr s))) (Name (referencedNode ev))
    (DrainTimeoutSeconds (context (mgr s))) (DrainRetryIntervalSeconds (context (mgr s))).

(** ** What the poller is handed *)

(** The messages a queue hands out in the polls [n], [n + 1], ...,
    [n + turns - 1], in order. *)
Fixpoint received (queue : SQSAPI) (turns n : nat) : list Message :=
  match turns with
  | O => []
  | S turns' =>
      (if (ReceiveMessage queue n).1 is Some out then Messages out else [])
      ++ received queue turns' (S n)
  end.

(** How many of these polls answer an error. *)
Fixpoint failedPolls (queue : SQSAPI) (turns n : nat) : nat :=
  match turns with
  | O => 0
  | S turns' =>
      ((if (ReceiveMessage queue n).2 is Some _ then 1 else 0)
       + failedPolls queue turns' (S n))%nat
  end.

(** ** Membership and the wait group *)

(** What the membership scan found: the groups it marks active are those
    that were active before and those of the listing where the instance is
    a target. *)
Definition membersOf (elbv2Client : ELBV2API) (instanceID : string)
    (targetGroups : list string) (before after : gmap string Z) : Prop :=
  (forall arn port, after !! arn = Some port ->
     before !! arn = Some port
     \/ (arn ∈ targetGroups
         /\ exists descs, DescribeTargetHealth elbv2Client arn = (descs, None)
                          /\ (instanceID, port) ∈ descs))
  /\ (forall arn descs port,
        arn ∈ targetGroups ->
        DescribeTargetHealth elbv2Client arn = (descs, None) ->
        (instanceID, port) ∈ descs ->
        exists port', after !! arn = Some port' /\ (instanceID, port') ∈ descs)
  /\ (forall arn, is_Some (before !! arn) -> is_Some (after !! arn)).

(** The wait group is sized for exactly the waiters that are left, none is
    stuck, and the error channel has room for an error of each. *)
Definition sized (st : WaitState) : Prop :=
  unaccounted st = 0
  /\ stuck st = []
  /\ Z.of_nat (length (errChannel st) + length (running st)) <= capacity st
  /\ (finished st = true -> wgCounter st = 0).

(** [deregisteredTargetGroups[arn] = port] for each group of a list. *)
Definition insertAll (groups : list (string * Z)) (m : gmap string Z) : gmap string Z :=
  foldl (fun m g => <[g.1 := g.2]> m) m groups.

(** ** Requests of the target-group loop *)

Definition isDeregisterTargets (c : Call) : bool :=
  match c with ELBv2DeregisterTargets _ _ _ => true | _ => false end.

(** A request to take the instance out of a pool. *)
Definition isDeregisterRequest (c : Call) : bool :=
  match c with
  | ELBDeregisterInstances _ _ | ELBv2DeregisterTargets _ _ _ => true
  | _ => false
  end.

(** What the target-group loop does with the answer to one request: the
    group is deregistered, skipped, or its error reported. *)
Definition targetAccepted (elbv2Client : ELBV2API) (instanceID : string) (g : string * Z)
    : bool :=
  bool_decide (DeregisterTargets elbv2Client g.1 instanceID g.2 = None).

Definition targetReported (elbv2Client : ELBV2API) (instanceID : string) (g : string * Z)
    : option error :=
  match DeregisterTargets elbv2Client g.1 instanceID g.2 with
  | Some e =>
      if hasCode e ErrCodeTargetGroupNotFoundException
         || hasCode e ErrCodeInvalidTargetException
      then None else Some e
  | None => None
  end.

(** The calls of the membership scan over the target groups. *)
Definition isScanCall (c : Call) : bool :=
  match c with
  | Log _ _ | WaitJitter _ | ELBv2DescribeTargetHealth _ => true
  | _ => false
  end.

(** The instance is a target of no target group: each group either lists
    its targets without it or is gone. *)
Definition inNoTargetGroup (elbv2Client : ELBV2API) (instanceID : string) : Prop :=
  forall arn,
    match DescribeTargetHealth elbv2Client arn with
    | (descs, None) => instanceID ∉ descs.*1
    | (_, Some e) => hasCode e ErrCodeTargetGroupNotFoundException = true
    end.

(** ** Cluster events (events.go) *)

(** The values of the [EventReason] constants. *)
Definition reasonString (reason : EventReason) : string :=
  match reason with
  | EventReasonLifecycleHookReceived => "EventLifecycleHookReceived"
  | EventReasonLifecycleHookProcessed => "EventLifecycleHookProcessed"
  | EventReasonLifecycleHookFailed => "EventLifecycleHookFailed"
  | EventReasonNodeDrainSucceeded => "EventReasonNodeDrainSucceeded"
  | EventReasonNodeDrainFailed => "EventReasonNodeDrainFailed"
  | EventReasonTargetDeregisterSucceeded => "EventReasonTargetDeregisterSucceeded"
  | EventReasonTargetDeregisterFailed => "EventReasonTargetDeregisterFailed"
  | EventReasonInstanceDeregisterSucceeded => "EventReasonInstanceDeregisterSucceeded"
  | EventReasonInstanceDeregisterFailed => "EventReasonInstanceDeregisterFailed"
  end.

Definition EventLevelNormal : string := "Normal".
Definition EventLevelWarning : string := "Warning".

(** [EventLevels]: a map from [EventReason], a string type, to the level. *)
Definition EventLevels : gmap string string :=
  <[reasonString EventReasonLifecycleHookReceived := EventLevelNormal]>
  (<[reasonString EventReasonLifecycleHookProcessed := EventLevelNormal]>
  (<[reasonString EventReasonLifecycleHookFailed := EventLevelWarning]>
  (<[reasonString EventReasonNodeDrainSucceeded := EventLevelNormal]>
  (<[reasonString EventReasonNodeDrainFailed := EventLevelWarning]>
  (<[reasonString EventReasonTargetDeregisterSucceeded := EventLevelNormal]>
  (<[reasonString EventReasonTargetDeregisterFailed := EventLevelWarning]>
  (<[reasonString EventReasonInstanceDeregisterSucceeded := EventLevelNormal]>
  (<[reasonString EventReasonInstanceDeregisterFailed := EventLevelWarning]> ∅)))))))).

(** func getReasonEventLevel(reason EventReason) string *)
Definition getReasonEventLevel (reason : string) : string :=
  match EventLevels !! reason with
  | Some val => val
  | None => "Normal"
  end.

(** The reasons that report a failure. *)
Definition failureReasons : list EventReason :=
  [EventReasonLifecycleHookFailed; EventReasonNodeDrainFailed;
   EventReasonTargetDeregisterFailed; EventReasonInstanceDeregisterFailed].

(** [v1.ObjectReference] and [v1.Event]: the fields the service fills. *)
Record ObjectReference : Type := mkObjectReference {
  Kind : string;
  ReferenceName : string
}.

Record KubernetesEvent : Type := mkKubernetesEvent {
  ObjectMetaName : string;
  ObjectMetaNamespace : string;
  Reason : string;
  EventMessage : string;
  EventType : string;
  LastTimestamp : Z;                   (* an instant, in ns *)
  InvolvedObject : ObjectReference
}.

Definition EventNamespace : string := "default".

(** [fmt.Sprintf("%v", n)] of an [int64]: its decimal digits. *)
Definition formatInt (n : Z) : string :=
  DecimalString.NilZero.string_of_int (Z.to_int n).

(** [fmt.Sprintf(EventName, n)], with [EventName = "lifecycle-manager.%v"]. *)
Definition eventName (n : Z) : string := String.append "lifecycle-manager." (formatInt n).

(** func newKubernetesEvent(reason EventReason, message string, refNodeName string) *v1.Event.
    The fields of the literal are evaluated in order: the clock is read for
    the name and again for [LastTimestamp]. *)
Definition newKubernetesEvent (reason message refNodeName : string) : M KubernetesEvent :=
  let objReference :=
    if bool_decide (refNodeName = "") then mkObjectReference "" ""
    else mkObjectReference "Node" refNodeName in
  unixNano ← timeNow;
  now ← timeNow;
  mret (mkKubernetesEvent (eventName unixNano) EventNamespace reason message
          (getReasonEventLevel reason) now objReference).

(** ** Fixtures: the stubs and events of server_test.go *)

Module Fixture.

Definition stubSQS : SQSAPI :=
  mkSQS (fun _ => "") (fun _ => (Some (mkReceiveMessageOutput []), None)) (fun _ _ => None).

Definition stubAutoscaling (timeouts : list Z) : AutoScalingAPI :=
  mkASG (fun _ _ => (timeouts, None)) (fun _ _ _ _ _ => None) (fun _ _ _ _ => None).

Definition stubELB : ELBAPI :=
  mkELB ([], None) (fun _ => ([], None)) (fun _ _ => None) (fun _ _ => None).

Definition stubELBv2 : ELBV2API :=
  mkELBv2 ([], None) (fun _ => ([], None)) (fun _ _ _ => None) (fun _ _ _ => None).

Definition fakeNodes : list Node :=
  [ mkNode "" "aws:///us-west-2a/i-123486890234" 0;
    mkNode "" "aws:///us-west-2c/i-22222222222222222" 0 ].

Definition fakeKube : KubernetesAPI :=
  mkKube (fun _ _ => None) fakeNodes (fun _ => ([], None)) (fun _ _ _ => None)
    (fun _ _ _ => None).

Definition auth : Authenticator :=
  mkAuth (stubAutoscaling [60]) stubSQS stubELBv2 stubELB fakeKube.

(** [_newBasicContext()] *)
Definition basicContext : ManagerContext :=
  mkContext "kubectl" "my-queue" "us-west-2" 1 30 1 false.

(** [New(auth, ctx)]: a manager with an empty work queue and zero counters. *)
Definition New (auth : Authenticator) (ctx : ManagerContext) : Manager :=
  mkManager ctx auth [] 0 0 0 0.

Definition event : LifecycleEvent :=
  mkEvent "my-hook" "12345689012" "63f5b5c2-58b3-0574-b7d5-b3162d0268f0"
    "autoscaling:EC2_INSTANCE_TERMINATING" "my-asg" "i-123486890234"
    "cc34960c-1e41-4703-a665-bdb3e5b81ad3"
    "MbZj6wDWli+JvwwJaBV+3dcjk2YW2vA3+STFFljTM8tJJg6HRG6PYSasuWXPJB+Cw="
    "" 2 zeroNode false false false 0 None.

(** A run that starts with the given manager and events; the clock advances
    one second per reading, and no other goroutine writes to the events. *)
Definition start (m : Manager) (evs : gmap nat LifecycleEvent) : State :=
  mkState m evs [] (fun n => Z.of_nat n * 1000000000) 0 (fun _ _ e => e) 0.

Definition serializeMessage (m : option Message) : string * option error := ("{}", None).

(** A drain tool that fails. *)
Definition failingDrainKube : KubernetesAPI :=
  mkKube (fun _ _ => None) fakeNodes (fun _ => ([], None))
    (fun _ _ _ => Some (PlainError "failed to drain node")) (fun _ _ _ => None).

(** A classic balancer that holds the instance when its members are listed
    and is gone when the deregistration is requested. *)
Definition vanishingELB : ELBAPI :=
  mkELB ([mkPage ["my-classic-elb"] None], None)
    (fun _ => (["i-123486890234"], None))
    (fun _ _ => Some (AwsError ErrCodeAccessPointNotFoundException "not found"))
    (fun _ _ => None).

(** Two classic balancers that hold the instance: the deregistration from
    the first is accepted, the one from the second fails. *)
Definition halfFailingELB : ELBAPI :=
  mkELB ([mkPage ["elb-a"; "elb-b"] None], None)
    (fun _ => (["i-123486890234"], None))
    (fun elbName _ => if bool_decide (elbName = "elb-b")
                      then Some (AwsError "some-other-error" "injected")
                      else None)
    (fun _ _ => None).

Definition deregisterContext : ManagerContext :=
  mkContext "kubectl" "my-queue" "us-west-2" 1 30 1 true.

Definition halfFailingAuth : Authenticator :=
  mkAuth (stubAutoscaling [60]) stubSQS stubELBv2 halfFailingELB fakeKube.

Definition vanishingAuth : Authenticator :=
  mkAuth (stubAutoscaling [60]) stubSQS stubELBv2 vanishingELB fakeKube.

Definition failingDrainAuth : Authenticator :=
  mkAuth (stubAutoscaling [60]) stubSQS stubELBv2 stubELB failingDrainKube.

(** A queue whose [ReceiveMessage] fails with a nil output. *)
Definition failingSQS : SQSAPI :=
  mkSQS (fun _ => "") (fun _ => (None, Some (PlainError "receive failed"))) (fun _ _ => None).

(** The notification of another instance. *)
Definition otherEvent : LifecycleEvent :=
  mkEvent "my-hook" "12345689012" "9d5ffd0c-3f9c-4e09-8a59-1e7e6f0f7c11"
    "autoscaling:EC2_INSTANCE_TERMINATING" "my-asg" "i-22222222222222222"
    "0f6c3a52-7d56-4f0b-9a3b-2d1c5d3f9e10" "AQEBzbVv+receipt" "" 2 zeroNode
    false false false 0 None.

Definition fakeMessage : Message := mkMessage (Some "{}") (Some "receipt-handle").

(** A queue that hands out one message at its first poll and fails, with an
    empty output, at every later one. *)
Definition deliveringSQS : SQSAPI :=
  mkSQS (fun _ => "")
    (fun n => match n with
              | O => (Some (mkReceiveMessageOutput [fakeMessage]), None)
              | _ => (Some (mkReceiveMessageOutput []), Some (PlainError "receive failed"))
              end)
    (fun _ _ => None).

Definition deliveringAuth : Authenticator :=
  mkAuth (stubAutoscaling [60]) deliveringSQS stubELBv2 stubELB fakeKube.

(** A target-group listing that fails. *)
Definition failingListELBv2 : ELBV2API :=
  mkELBv2 ([], Some (PlainError "listing failed")) (fun _ => ([], None)) (fun _ _ _ => None)
    (fun _ _ _ => None).

Definition failingListAuth : Authenticator :=
  mkAuth (stubAutoscaling [60]) stubSQS failingListELBv2 stubELB fakeKube.

(** A parser that fails on every message and hands back the event at
    address 1. *)
Definition failingReadMessage (m : option Message) : M (nat * option error) :=
  mret (1%nat, Some (PlainError "unexpected end of JSON input")).

(** A service that refuses the deregistration from one target group and
    reports another one as gone. *)
Definition pickyELBv2 : ELBV2API :=
  mkELBv2 ([], None) (fun _ => ([], None))
    (fun arn _ _ =>
       if bool_decide (arn = "tg-b") then Some (AwsError "some-other-error" "injected")
       else if bool_decide (arn = "tg-c")
            then Some (AwsError ErrCodeTargetGroupNotFoundException "not found")
            else None)
    (fun _ _ _ => None).

(** One target group, serving another instance. *)
Definition foreignELBv2 : ELBV2API :=
  mkELBv2 ([mkPage ["tg-1"] None], None) (fun _ => ([("i-22222222222222222", 8080)], None))
    (fun _ _ _ => None) (fun _ _ _ => None).

Definition foreignAuth : Authenticator :=
  mkAuth (stubAutoscaling [60]) stubSQS foreignELBv2 stubELB fakeKube.

End Fixture.

(** * Properties *)

(** ** Running the monad, one call at a time *)

Section Run.
Context {A B : Type}.
Implicit Types (k : A -> M B) (s : State).

Lemma run_bind (c : M A) k s a s' : c s = Done a s' -> (c ≫= k) s = k a s'.
Proof. intros H. unfold mbind, M_bind. now rewrite H. Qed.

Lemma run_bind_panic (c : M A) k s p s' :
  c s = Panicked p s' -> (c ≫= k) s = Panicked p s'.
Proof. intros H. unfold mbind, M_bind. now rewrite H. Qed.

Lemma run_bind_block (c : M A) k s s' : c s = Blocked s' -> (c ≫= k) s = Blocked s'.
Proof. intros H. unfold mbind, M_bind. now rewrite H. Qed.

Lemma run_ret (a : A) k s : (mret a ≫= k) s = k a s.
Proof. reflexivity. Qed.
End Run.

Lemma run_call {B} (c : Call) (k : unit -> M B) s :
  (call c ≫= k) s
  = k tt (mkState (mgr s) (events s) (trace s ++ [c]) (wallClock s) (clockReads s)
            (others s) (sleeps s)).
Proof. reflexivity. Qed.

Lemma run_getMgr {B} (k : Manager -> M B) s : (getMgr ≫= k) s = k (mgr s) s.
Proof. reflexivity. Qed.

Lemma run_modifyMgr {B} f (k : unit -> M B) s :
  (modifyMgr f ≫= k) s
  = k tt (mkState (f (mgr s)) (events s) (trace s) (wallClock s) (clockReads s)
            (others s) (sleeps s)).
Proof. reflexivity. Qed.

Lemma run_timeNow {B} (k : Z -> M B) s :
  (timeNow ≫= k) s
  = k (wallClock s (clockReads s))
      (mkState (mgr s) (events s) (trace s) (wallClock s) (S (clockReads s))
         (others s) (sleeps s)).
Proof. reflexivity. Qed.

Lemma run_asInterface {B} event (k : GoValue -> M B) s :
  (asInterface event ≫= k) s = k (VPtrLifecycleEvent (events s !! event)) s.
Proof. reflexivity. Qed.

Lemma run_deref {B} event e (k : LifecycleEvent -> M B) s :
  events s !! event = Some e -> (deref event ≫= k) s = k e s.
Proof. intros H. unfold mbind, M_bind, deref. now rewrite H. Qed.

Lemma run_update {B} event e f (k : unit -> M B) s :
  events s !! event = Some e ->
  (update event f ≫= k) s
  = k tt (mkState (mgr s) (<[event := f e]> (events s)) (trace s) (wallClock s)
            (clockReads s) (others s) (sleeps s)).
Proof. intros H. unfold mbind, M_bind, update. now rewrite H. Qed.

Lemma run_assoc {A B C} (c : M A) (k1 : A -> M B) (k2 : B -> M C) s :
  ((c ≫= k1) ≫= k2) s = (c ≫= (fun a => k1 a ≫= k2)) s.
Proof. unfold mbind, M_bind. now destruct (c s). Qed.

Ltac proj := cbn [mgr events trace wallClock clockReads others sleeps].

Ltac step :=
  first
    [ rewrite run_assoc
    | rewrite run_ret
    | rewrite run_call
    | rewrite run_getMgr
    | rewrite run_modifyMgr
    | rewrite run_timeNow
    | rewrite run_asInterface
    | erewrite run_deref by (proj; first [eassumption | apply lookup_insert_eq])
    | erewrite run_update by (proj; first [eassumption | apply lookup_insert_eq]) ];
  proj.

Lemma run_publish {B} kube reason node (k : unit -> M B) s :
  (publishKubernetesEvent kube reason node ≫= k) s
  = k tt (mkState (mgr s) (events s)
            (trace s ++ [Log LvlDebug "publishing event: %v"; KubeCreateEvent reason node]
               ++ (if CreateEvent kube reason node is Some _
                   then [Log LvlError "failed to publish event: %v"] else []))
            (wallClock s) (clockReads s) (others s) (sleeps s)).
Proof.
  unfold publishKubernetesEvent. repeat step.
  destruct (CreateEvent kube reason node); repeat step;
    rewrite <- ?app_assoc; simpl; reflexivity.
Qed.

Lemma run_deleteMessage {B} queue url receipt (k : option error -> M B) s :
  (deleteMessage queue url receipt ≫= k) s
  = k (DeleteMessage queue url receipt)
      (mkState (mgr s) (events s) (trace s ++ [SQSDeleteMessage url receipt])
         (wallClock s) (clockReads s) (others s) (sleeps s)).
Proof. unfold deleteMessage. repeat step. reflexivity. Qed.

Lemma run_completeLifecycleAction {B} client ev result (k : option error -> M B) s :
  (completeLifecycleAction client ev result ≫= k) s
  = k (CompleteLifecycleAction client (AutoScalingGroupName ev) (EC2InstanceID ev)
         (LifecycleHookName ev) result)
      (mkState (mgr s) (events s)
         (trace s ++ [Log LvlInfo "setting lifecycle event as completed with result: %v";
                      ASGCompleteLifecycleAction (AutoScalingGroupName ev) (EC2InstanceID ev)
                        (LifecycleHookName ev) result])
         (wallClock s) (clockReads s) (others s) (sleeps s)).
Proof.
  unfold completeLifecycleAction. repeat step. rewrite <- ?app_assoc. reflexivity.
Qed.

Ltac step' :=
  first [ step | rewrite run_publish | rewrite run_deleteMessage
        | rewrite run_completeLifecycleAction ]; proj.

Lemma DeepEqual_pointer_struct target e :
  DeepEqual (VPtrLifecycleEvent target) (VLifecycleEvent e) = false.
Proof. reflexivity. Qed.

Ltac case_stub :=
  match goal with
  | |- context [match ?x with Some _ => _ | None => _ end] =>
      lazymatch x with
      | context [mbind] => fail
      | _ => destruct x eqn:?
      end
  end.

Lemma FailEvent_run s err event abandon e :
  events s !! event = Some e ->
  exists s' t,
    FailEvent err event abandon s = Done tt s'
    /\ trace s' = trace s ++ t
    /\ failedEvents (mgr s') = GoInt.incr (failedEvents (mgr s))
    /\ events s' = <[event := withEventCompleted true e]> (events s)
    /\ times (isCreateEventFor EventReasonLifecycleHookFailed) t = 1%nat
    /\ times (isCompleteLifecycleAction AbandonAction) t = (if abandon then 1 else 0)%nat
    /\ times isDeleteMessage t = 1%nat
    /\ In (SQSDeleteMessage (queueURL e) (receiptHandle e)) t.
Proof.
  intros He. unfold FailEvent.
  repeat step'. destruct abandon.
  all: repeat first [step' | rewrite DeepEqual_pointer_struct | case_stub].
  all: eexists; eexists; (split; [reflexivity|]); proj.
  all: rewrite <- ?app_assoc; (split; [reflexivity|]).
  all: repeat split; try reflexivity.
  all: simpl; tauto.
Qed.

Lemma RejectEvent_run s err event e :
  events s !! event = Some e ->
  exists s' t,
    RejectEvent err event s = Done tt s'
    /\ trace s' = trace s ++ t
    /\ rejectedEvents (mgr s') = GoInt.incr (rejectedEvents (mgr s))
    /\ events s' = events s
    /\ times isDeleteMessage t = 1%nat
    /\ times (isCompleteLifecycleAction ContinueAction) t = 0%nat
    /\ times (isCompleteLifecycleAction AbandonAction) t = 0%nat
    /\ In (SQSDeleteMessage (queueURL e) (receiptHandle e)) t.
Proof.
  intros He. unfold RejectEvent.
  repeat first [step' | rewrite DeepEqual_pointer_struct | case_stub].
  all: eexists; eexists; (split; [reflexivity|]); proj.
  all: rewrite <- ?app_assoc; (split; [reflexivity|]).
  all: repeat split; try reflexivity.
  all: simpl; tauto.
Qed.

(** ** Manager operations *)

(** C3. For every event behind the pointer, partial or not, FailEvent
    returns; it has incremented the failed counter, set [eventCompleted],
    published one failure event, reported ABANDON once when [abandon] is set
    and not at all otherwise, and deleted the queue message once. *)
Theorem FailEvent_finalises_event s err event abandon e :
  events s !! event = Some e ->
  exists s' t,
    FailEvent err event abandon s = Done tt s'
    /\ trace s' = trace s ++ t
    /\ failedEvents (mgr s') = GoInt.incr (failedEvents (mgr s))
    /\ eventCompleted <$> events s' !! event = Some true
    /\ times (isCreateEventFor EventReasonLifecycleHookFailed) t = 1%nat
    /\ times (isCompleteLifecycleAction AbandonAction) t = (if abandon then 1 else 0)%nat
    /\ times isDeleteMessage t = 1%nat.
Proof.
  intros He.
  destruct (FailEvent_run s err event abandon e He)
    as (s' & t & Hrun & Htrace & Hfailed & Hevents & Hpub & Habandon & Hdel & _).
  exists s', t. rewrite Hevents, lookup_insert_eq. auto 10.
Qed.

(** The fail path of server_test.go: an event with no referenced node,
    failed with [abandon = true] on a fresh manager. *)
Lemma FailEvent_finalises_event_witness :
  exists s' t,
    FailEvent (Some (PlainError "some error occured")) 1 true
      (Fixture.start (Fixture.New Fixture.auth Fixture.basicContext)
         {[1%nat := Fixture.event]}) = Done tt s'
    /\ trace s' = [] ++ t
    /\ failedEvents (mgr s') = GoInt.incr 0
    /\ eventCompleted <$> events s' !! 1%nat = Some true
    /\ times (isCreateEventFor EventReasonLifecycleHookFailed) t = 1%nat
    /\ times (isCompleteLifecycleAction AbandonAction) t = 1%nat
    /\ times isDeleteMessage t = 1%nat.
Proof.
  apply (FailEvent_finalises_event
           (Fixture.start (Fixture.New Fixture.auth Fixture.basicContext)
              {[1%nat := Fixture.event]})
           (Some (PlainError "some error occured")) 1%nat true Fixture.event).
  reflexivity.
Defined.

(** C9. The guard [reflect.DeepEqual(event, LifecycleEvent{})] compares a
    pointer with a struct and is false whatever the pointer holds; so
    FailEvent and RejectEvent both go on to delete the message of the event
    they are given. *)
Theorem emptiness_guard_never_true s event e :
  events s !! event = Some e ->
  (forall target, DeepEqual (VPtrLifecycleEvent target) (VLifecycleEvent zeroEvent) = false)
  /\ (forall err abandon, exists s' t,
        FailEvent err event abandon s = Done tt s'
        /\ trace s' = trace s ++ t
        /\ In (SQSDeleteMessage (queueURL e) (receiptHandle e)) t)
  /\ (forall err, exists s' t,
        RejectEvent err event s = Done tt s'
        /\ trace s' = trace s ++ t
        /\ In (SQSDeleteMessage (queueURL e) (receiptHandle e)) t).
Proof.
  intros He. split; [|split].
  - intros target. apply DeepEqual_pointer_struct.
  - intros err abandon.
    destruct (FailEvent_run s err event abandon e He) as (s' & t & Hrun & Htrace & H).
    exists s', t. intuition.
  - intros err.
    destruct (RejectEvent_run s err event e He) as (s' & t & Hrun & Htrace & H).
    exists s', t. intuition.
Qed.

(** The zero-valued event. *)
Lemma emptiness_guard_never_true_witness :
  let s := Fixture.start (Fixture.New Fixture.auth Fixture.basicContext)
             {[1%nat := zeroEvent]} in
  (forall target, DeepEqual (VPtrLifecycleEvent target) (VLifecycleEvent zeroEvent) = false)
  /\ (forall err abandon, exists s' t,
        FailEvent err 1 abandon s = Done tt s'
        /\ trace s' = trace s ++ t
        /\ In (SQSDeleteMessage "" "") t)
  /\ (forall err, exists s' t,
        RejectEvent err 1 s = Done tt s'
        /\ trace s' = trace s ++ t
        /\ In (SQSDeleteMessage "" "") t).
Proof.
  apply (emptiness_guard_never_true
           (Fixture.start (Fixture.New Fixture.auth Fixture.basicContext)
              {[1%nat := zeroEvent]}) 1%nat zeroEvent).
  reflexivity.
Defined.

(** ** Crash resume *)

(** C10. The resume loop of Start returns; for every node whose annotation
    is not empty it starts one worker, with whatever message
    [deserializeMessage] returned, whether or not it also returned an
    error: apart from starting workers the loop only logs. *)
Theorem Start_resume_spawns_despite_error
    (deserializeMessage : string -> option Message * option error)
    (inProgressEvents : list (string * string)) s :
  exists s' t,
    Start_resume deserializeMessage inProgressEvents s = Done tt s'
    /\ trace s' = trace s ++ t
    /\ List.filter isSpawnWorker t
       = map (fun entry => Go (GoWorker (deserializeMessage entry.2).1))
           (List.filter (fun entry => negb (bool_decide (entry.2 = ""))) inProgressEvents)
    /\ Forall (fun c => isLog c || isSpawnWorker c = true) t.
Proof.
  revert s. induction inProgressEvents as [|[node sqsMessage] rest IH]; intros s.
  - exists s, []. rewrite app_nil_r. repeat split; constructor.
  - cbn [Start_resume List.filter snd]. case_bool_decide as Hempty; cbn [negb].
    + destruct (IH s) as (s' & t & Hrun & Htrace & Hspawn & Hlog).
      exists s', t. auto.
    + destruct (deserializeMessage sqsMessage) as [message err] eqn:Hd.
      repeat step.
      destruct err as [err|]; repeat step.
      all: match goal with |- context [Start_resume _ _ ?s0] =>
             destruct (IH s0) as (s' & t & Hrun & Htrace & Hspawn & Hlog) end.
      all: exists s'; eexists; (split; [exact Hrun|]).
      all: rewrite Htrace; proj; rewrite <- ?app_assoc.
      all: (split; [reflexivity|]); rewrite ?filter_app; cbn [app List.filter isSpawnWorker isLog orb map snd fst]; rewrite Hd.
      all: split; [now rewrite Hspawn | repeat constructor; exact Hlog].
Qed.

(** ** Poller *)

Lemma run_yield {B} (k : unit -> M B) s :
  (yield ≫= k) s
  = k tt (mkState (mgr s)
            (map_imap (fun p e => Some (others s (sleeps s) p e)) (events s))
            (trace s) (wallClock s) (clockReads s) (others s) (S (sleeps s))).
Proof. reflexivity. Qed.

Lemma run_timeSleep {B} d (k : unit -> M B) s :
  (timeSleep d ≫= k) s
  = k tt (mkState (mgr s)
            (map_imap (fun p e => Some (others s (sleeps s) p e)) (events s))
            (trace s ++ [Sleep d]) (wallClock s) (clockReads s) (others s) (S (sleeps s))).
Proof. reflexivity. Qed.

Lemma run_waitJitter {B} max (k : unit -> M B) s :
  (waitJitter max ≫= k) s
  = k tt (mkState (mgr s)
            (map_imap (fun p e => Some (others s (sleeps s) p e)) (events s))
            (trace s ++ [Log LvlDebug "adding jitter of %v seconds to waiter"; WaitJitter max])
            (wallClock s) (clockReads s) (others s) (S (sleeps s))).
Proof. unfold waitJitter. repeat step. rewrite run_yield. proj. now rewrite <- app_assoc. Qed.

(** The other goroutines write to an event, they do not free it. *)
Lemma lookup_after_yield (others : nat -> LifecycleEvent -> LifecycleEvent)
    (evs : gmap nat LifecycleEvent) event e :
  evs !! event = Some e ->
  map_imap (fun p e => Some (others p e)) evs !! event = Some (others event e).
Proof. intros H. rewrite map_lookup_imap, H. reflexivity. Qed.

Lemma valid_after_yield (others : nat -> LifecycleEvent -> LifecycleEvent)
    (evs : gmap nat LifecycleEvent) event :
  is_Some (evs !! event) ->
  is_Some (map_imap (fun p e => Some (others p e)) evs !! event).
Proof. intros [e He]. rewrite (lookup_after_yield _ _ _ _ He). eauto. Qed.

(** C7. When ReceiveMessage answers an error together with a nil output, the
    turn of the poller logs the error and sleeps the polling interval, and
    then panics on [output.Messages]: the poller does not retry. *)
Theorem newPoller_panics_on_nil_output queue url interval numGoroutine n err s :
  ReceiveMessage queue n = (None, Some err) ->
  exists s',
    newPoller_body queue url interval numGoroutine n s = Panicked NilDereference s'
    /\ trace s'
       = trace s ++ [Log LvlDebug "polling for messages from queue";
                     SetGauge ActiveGoroutinesMetric (inject_Z (numGoroutine n));
                     Log LvlDebug "active goroutines: %v";
                     SQSReceiveMessage url interval;
                     Log LvlError "unable to receive message from queue %s, %v.";
                     Sleep (secondsDuration interval)].
Proof.
  intros Hrecv. unfold newPoller_body. repeat step. rewrite Hrecv.
  repeat step. rewrite run_timeSleep. proj.
  eexists. split; [reflexivity|]. proj. now rewrite <- !app_assoc.
Qed.

(** A queue client that fails the way Go functions usually do, with a nil
    result next to the error. *)
Lemma newPoller_panics_on_nil_output_witness :
  exists s',
    newPoller_body Fixture.failingSQS "" 1 (fun _ => 3) 0
      (Fixture.start (Fixture.New Fixture.auth Fixture.basicContext) ∅)
    = Panicked NilDereference s'
    /\ trace s'
       = [] ++ [Log LvlDebug "polling for messages from queue";
                SetGauge ActiveGoroutinesMetric (inject_Z 3);
                Log LvlDebug "active goroutines: %v";
                SQSReceiveMessage "" 1;
                Log LvlError "unable to receive message from queue %s, %v.";
                Sleep (secondsDuration 1)].
Proof.
  apply (newPoller_panics_on_nil_output Fixture.failingSQS "" 1 (fun _ => 3) 0%nat
           (PlainError "receive failed")
           (Fixture.start (Fixture.New Fixture.auth Fixture.basicContext) ∅)).
  reflexivity.
Defined.

(** With an output that is not nil the turn ends normally, error or not. *)
Lemma newPoller_body_returns queue url interval numGoroutine n out err s :
  ReceiveMessage queue n = (Some out, err) ->
  exists s', newPoller_body queue url interval numGoroutine n s = Done tt s'.
Proof.
  intros Hrecv. unfold newPoller_body. repeat step. rewrite Hrecv.
  assert (Hsend : forall ms s0, exists s', sendAll ms s0 = Done tt s').
  { induction ms as [|m ms IH]; intros s0; [now exists s0|].
    cbn [sendAll]. step. apply IH. }
  destruct err; repeat step; rewrite ?run_timeSleep; proj;
    case_bool_decide; repeat step; apply Hsend.
Qed.

(** ** Heartbeat driver *)

Lemma wrap_in_range x : GoInt.in_range x -> GoInt.wrap x = x.
Proof.
  unfold GoInt.in_range, GoInt.wrap, GoInt.min_int, GoInt.max_int.
  change (2 ^ 63) with 9223372036854775808. change (2 ^ 64) with 18446744073709551616.
  intros H. rewrite Z.mod_small; lia.
Qed.

Lemma incr_small x : 0 <= x <= 3600 -> GoInt.incr x = x + 1.
Proof.
  intros H. unfold GoInt.incr. apply wrap_in_range.
  unfold GoInt.in_range, GoInt.min_int, GoInt.max_int.
  change (2 ^ 63) with 9223372036854775808. lia.
Qed.






(** ** Deregistration loops *)

Lemma run_errChannelSend {B} capacity errChannel err (k : list error -> M B) s :
  Z.of_nat (length errChannel) < capacity ->
  (errChannelSend capacity errChannel err ≫= k) s
  = k (errChannel ++ [err])
      (mkState (mgr s) (events s) (trace s ++ [ErrChannelSend err]) (wallClock s)
         (clockReads s) (others s) (sleeps s)).
Proof.
  intros H. unfold errChannelSend.
  destruct (Z.ltb_spec (Z.of_nat (length errChannel)) capacity); [|lia].
  now repeat step.
Qed.

Ltac step'' := first [ step' | rewrite run_waitJitter | rewrite run_timeSleep ]; proj.

(** C8, amended. In both deregistration loops, for a pool whose deregister
    call fails: on a NotFound or an InvalidEndpoint / InvalidTarget code the
    loop logs a warning and goes on to the next pool, publishing no cluster
    event and sending nothing on the error channel; on any other error it
    sends the error on the error channel, publishes one failure cluster
    event and goes on to the next pool all the same. *)
Theorem deregister_error_is_skipped_or_reported
    event kubeClient instanceID capacity errChannel s ev e :
  events s !! event = Some ev ->
  eventCompleted ev = false ->
  Z.of_nat (length errChannel) < capacity ->
  (forall elbClient elbName rest deregistered,
     DeregisterInstancesFromLoadBalancer elbClient elbName instanceID = Some e ->
     exists s' t,
       trace s' = trace s ++ t
       /\ if hasCode e ErrCodeAccessPointNotFoundException
             || hasCode e ErrCodeInvalidEndPointException
          then
            deregisterLoadBalancers event elbClient kubeClient instanceID capacity
              (elbName :: rest) deregistered errChannel s
            = deregisterLoadBalancers event elbClient kubeClient instanceID capacity
                rest deregistered errChannel s'
            /\ times isWarning t = 1%nat
            /\ times isCreateEvent t = 0%nat
            /\ times isErrChannelSend t = 0%nat
          else
            deregisterLoadBalancers event elbClient kubeClient instanceID capacity
              (elbName :: rest) deregistered errChannel s
            = deregisterLoadBalancers event elbClient kubeClient instanceID capacity
                rest deregistered (errChannel ++ [e]) s'
            /\ List.filter isErrChannelSend t = [ErrChannelSend e]
            /\ times isCreateEvent t = 1%nat
            /\ times (isCreateEventFor EventReasonInstanceDeregisterFailed) t = 1%nat)
  /\ (forall elbv2Client arn port rest deregistered,
        DeregisterTargets elbv2Client arn instanceID port = Some e ->
        exists s' t,
          trace s' = trace s ++ t
          /\ if hasCode e ErrCodeTargetGroupNotFoundException
                || hasCode e ErrCodeInvalidTargetException
             then
               deregisterTargetGroups event elbv2Client kubeClient instanceID capacity
                 ((arn, port) :: rest) deregistered errChannel s
               = deregisterTargetGroups event elbv2Client kubeClient instanceID capacity
                   rest deregistered errChannel s'
               /\ times isWarning t = 1%nat
               /\ times isCreateEvent t = 0%nat
               /\ times isErrChannelSend t = 0%nat
             else
               deregisterTargetGroups event elbv2Client kubeClient instanceID capacity
                 ((arn, port) :: rest) deregistered errChannel s
               = deregisterTargetGroups event elbv2Client kubeClient instanceID capacity
                   rest deregistered (errChannel ++ [e]) s'
               /\ List.filter isErrChannelSend t = [ErrChannelSend e]
               /\ times isCreateEvent t = 1%nat
               /\ times (isCreateEventFor EventReasonTargetDeregisterFailed) t = 1%nat).
Proof.
  intros Hev Hcompleted Hroom.
  pose proof (lookup_after_yield (others s (sleeps s)) (events s) event ev Hev) as Hev'.
  split.
  - intros elbClient elbName rest deregistered Hcall.
    cbn [deregisterLoadBalancers]. step. rewrite Hcompleted.
    rewrite run_waitJitter. proj. unfold deregisterInstance. repeat step. rewrite Hcall.
    destruct (hasCode e ErrCodeAccessPointNotFoundException); cbn [orb].
    { step. eexists. eexists. refine (conj _ (conj eq_refl _)).
      - proj. rewrite <- !app_assoc. reflexivity.
      - repeat split. }
    destruct (hasCode e ErrCodeInvalidEndPointException).
    { step. eexists. eexists. refine (conj _ (conj eq_refl _)).
      - proj. rewrite <- !app_assoc. reflexivity.
      - repeat split. }
    step. rewrite run_errChannelSend by exact Hroom. proj.
    erewrite run_deref by exact Hev'. rewrite run_publish. proj.
    eexists. eexists. refine (conj _ (conj eq_refl _)).
    + proj. rewrite <- !app_assoc. reflexivity.
    + destruct (CreateEvent _ _ _); repeat split.
  - intros elbv2Client arn port rest deregistered Hcall.
    cbn [deregisterTargetGroups]. step. rewrite Hcompleted.
    rewrite run_waitJitter. proj. unfold deregisterTarget. repeat step. rewrite Hcall.
    destruct (hasCode e ErrCodeTargetGroupNotFoundException); cbn [orb].
    { step. eexists. eexists. refine (conj _ (conj eq_refl _)).
      - proj. rewrite <- !app_assoc. reflexivity.
      - repeat split. }
    destruct (hasCode e ErrCodeInvalidTargetException).
    { step. eexists. eexists. refine (conj _ (conj eq_refl _)).
      - proj. rewrite <- !app_assoc. reflexivity.
      - repeat split. }
    step. rewrite run_errChannelSend by exact Hroom. proj.
    erewrite run_deref by exact Hev'. rewrite run_publish. proj.
    eexists. eexists. refine (conj _ (conj eq_refl _)).
    + proj. rewrite <- !app_assoc. reflexivity.
    + destruct (CreateEvent _ _ _); repeat split.
Qed.

(** One active balancer that is gone when its deregistration is requested:
    the hypotheses hold and the loop goes on without a cluster event. *)
Lemma deregister_error_is_skipped_or_reported_witness :
  let s := Fixture.start (Fixture.New Fixture.auth Fixture.deregisterContext)
             {[1%nat := Fixture.event]} in
  let e := AwsError ErrCodeAccessPointNotFoundException "not found" in
  (events s !! 1%nat = Some Fixture.event
   /\ eventCompleted Fixture.event = false
   /\ Z.of_nat (length (@nil error)) < 2)
  /\ exists s' t,
       trace s' = trace s ++ t
       /\ deregisterLoadBalancers 1 Fixture.vanishingELB Fixture.fakeKube "i-123486890234" 2
            ["my-classic-elb"] [] [] s
          = deregisterLoadBalancers 1 Fixture.vanishingELB Fixture.fakeKube "i-123486890234" 2
              [] [] [] s'
       /\ times isWarning t = 1%nat
       /\ times isCreateEvent t = 0%nat
       /\ times isErrChannelSend t = 0%nat.
Proof.
  cbv zeta. split; [repeat split; lia|].
  exact (proj1 (deregister_error_is_skipped_or_reported 1%nat Fixture.fakeKube
                  "i-123486890234" 2 []
                  (Fixture.start (Fixture.New Fixture.auth Fixture.deregisterContext)
                     {[1%nat := Fixture.event]})
                  Fixture.event
                  (AwsError ErrCodeAccessPointNotFoundException "not found")
                  eq_refl eq_refl eq_refl)
           Fixture.vanishingELB "my-classic-elb" [] [] eq_refl).
Defined.

(** C8, as stated, fails: for a balancer whose deregistration answers
    NotFound the loop ends normally with nothing deregistered and nothing on
    the error channel, and has published no cluster event. *)
Lemma deregister_not_found_publishes_no_event :
  exists s',
    deregisterLoadBalancers 1 Fixture.vanishingELB Fixture.fakeKube "i-123486890234" 2
      ["my-classic-elb"] [] []
      (Fixture.start (Fixture.New Fixture.auth Fixture.deregisterContext)
         {[1%nat := Fixture.event]})
    = Done (inr ([], [])) s'
    /\ times isCreateEvent (trace s') = 0%nat
    /\ times isWarning (trace s') = 1%nat.
Proof. eexists. split; [vm_compute; reflexivity|]. split; vm_compute; reflexivity. Qed.

(** ** Latency smoothing *)

Lemma sameFrame_refl s : sameFrame s s.
Proof. repeat split; auto. Qed.

Lemma sameFrame_trans s1 s2 s3 : sameFrame s1 s2 -> sameFrame s2 s3 -> sameFrame s1 s3.
Proof.
  intros (Hm & Hw & Hc & He) (Hm' & Hw' & Hc' & He').
  repeat split; try congruence. auto.
Qed.

Lemma CompleteEvent_loop_returns event url queue :
  forall newQueue s ev,
    events s !! event = Some ev ->
    exists q s',
      CompleteEvent_loop event url queue newQueue s = Done q s' /\ sameFrame s s'.
Proof.
  induction queue as [|e rest IH]; intros newQueue s ev Hev.
  - exists newQueue, s. split; [reflexivity | apply sameFrame_refl].
  - cbn [CompleteEvent_loop]. repeat step.
    destruct (DeepEqual _ _).
    + repeat first [step' | case_stub].
      all: match goal with |- context [CompleteEvent_loop _ _ _ ?q ?s0] =>
             destruct (IH q s0 (withEventCompleted true ev)) as (q' & s' & Hrun & Hframe);
               [proj; apply lookup_insert_eq|] end.
      all: exists q', s'; split; [exact Hrun|].
      all: eapply sameFrame_trans; [|exact Hframe].
      all: repeat split; proj; intros p Hp.
      all: rewrite lookup_insert; case_decide; [eauto | exact Hp].
    + apply (IH _ s ev Hev).
Qed.

Lemma CompleteEvent_returns event s ev :
  events s !! event = Some ev ->
  exists s',
    CompleteEvent event s = Done tt s'
    /\ avarageLatency (mgr s')
       = updateLatency (avarageLatency (mgr s))
           (Seconds (wallClock s (clockReads s) - startTime ev))
    /\ completedEvents (mgr s') = GoInt.incr (completedEvents (mgr s))
    /\ (forall p, is_Some (events s !! p) -> is_Some (events s' !! p)).
Proof.
  intros Hev. unfold CompleteEvent. repeat step.
  match goal with |- context [(CompleteEvent_loop _ ?u ?q ?nq ≫= _) ?s0] =>
    destruct (CompleteEvent_loop_returns event u q nq s0 ev Hev)
      as (q' & s1 & Hrun & Hm & Hw & Hc & He) end.
  erewrite run_bind by exact Hrun. repeat step.
  eexists. split; [reflexivity|]. proj. rewrite Hm. proj.
  repeat split. exact He.
Qed.









(** ** Waiters and coordinator *)

Lemma spawnClassicWaiters_returns instanceID names :
  forall spawned s,
    exists s' t,
      spawnClassicWaiters instanceID names spawned s
      = Done (spawned ++ map (fun elbName => ClassicWaiter elbName instanceID) names) s'
      /\ trace s' = trace s ++ t
      /\ List.filter isSpawnWaiter t
         = map (fun elbName => Go (GoClassicWaiter elbName instanceID)) names
      /\ dones t = 0%nat
      /\ (forall event, is_Some (events s !! event) -> is_Some (events s' !! event)).
Proof.
  induction names as [|elbName rest IH]; intros spawned s.
  - exists s, []. cbn. rewrite !app_nil_r. auto.
  - cbn [spawnClassicWaiters]. rewrite run_waitJitter. proj. step.
    match goal with |- context [spawnClassicWaiters _ _ ?sp ?s0] =>
      destruct (IH sp s0) as (s' & t & Hrun & Htrace & Hspawn & Hdone & Hvalid) end.
    exists s'. eexists. rewrite Hrun, Htrace. proj. rewrite <- !app_assoc.
    split; [reflexivity|]. split; [reflexivity|].
    cbn [app List.filter isSpawnWaiter map]. rewrite Hspawn. split; [reflexivity|].
    split; [exact Hdone|].
    intros event Hv. apply Hvalid. proj. now apply valid_after_yield.
Qed.

Lemma spawnTargetWaiters_returns instanceID groups :
  forall spawned s,
    exists s' t,
      spawnTargetWaiters instanceID groups spawned s
      = Done (spawned ++ map (fun g => TargetWaiter g.1 instanceID g.2) groups) s'
      /\ trace s' = trace s ++ t
      /\ List.filter isSpawnWaiter t
         = map (fun g => Go (GoTargetWaiter g.1 instanceID g.2)) groups
      /\ dones t = 0%nat
      /\ (forall event, is_Some (events s !! event) -> is_Some (events s' !! event)).
Proof.
  induction groups as [|[arn port] rest IH]; intros spawned s.
  - exists s, []. cbn. rewrite !app_nil_r. auto.
  - cbn [spawnTargetWaiters]. rewrite run_waitJitter. proj. step.
    match goal with |- context [spawnTargetWaiters _ _ ?sp ?s0] =>
      destruct (IH sp s0) as (s' & t & Hrun & Htrace & Hspawn & Hdone & Hvalid) end.
    exists s'. eexists. rewrite Hrun, Htrace. proj. rewrite <- !app_assoc.
    split; [reflexivity|]. split; [reflexivity|].
    cbn [app List.filter isSpawnWaiter map fst snd]. rewrite Hspawn. split; [reflexivity|].
    split; [exact Hdone|].
    intros event Hv. apply Hvalid. proj. now apply valid_after_yield.
Qed.

Lemma times_app kind t1 t2 : times kind (t1 ++ t2) = (times kind t1 + times kind t2)%nat.
Proof. unfold times. now rewrite List.filter_app, length_app. Qed.

Lemma extends_refl s : extends s s 0 0.
Proof. exists []. now rewrite app_nil_r. Qed.

Lemma extends_trans s1 s2 s3 n1 d1 n2 d2 :
  extends s1 s2 n1 d1 -> extends s2 s3 n2 d2 -> extends s1 s3 (n1 + n2) (d1 + d2).
Proof.
  intros (t1 & H1 & Hn1 & Hd1) (t2 & H2 & Hn2 & Hd2).
  exists (t1 ++ t2). rewrite H2, H1, <- app_assoc. unfold spawns, dones in *.
  rewrite !times_app. auto.
Qed.

Ltac solve_extends :=
  eexists; split; [proj; rewrite <- ?app_assoc; reflexivity | split; reflexivity].

(** A waiter that runs to its end while the wait group still counts it
    either returns, taking one off the counter, or gets stuck in its send. *)
Lemma waiterBody_returns event w st s ev :
  events s !! event = Some ev ->
  1 <= wgCounter st ->
  exists st' s',
    waiterBody event w st s = Done st' s'
    /\ events s' = events s
    /\ running st' = running st
    /\ finished st' = finished st
    /\ ((wgCounter st' = wgCounter st - 1 /\ stuck st' = stuck st /\ extends s s' 0 1)
        \/ (wgCounter st' = wgCounter st /\ stuck st' = stuck st ++ [w]
            /\ extends s s' 0 0)).
Proof.
  intros Hev Hwg.
  assert (Hdone : forall st0 s0, wgCounter st0 = wgCounter st ->
            exists st' s',
              wgDone st0 s0 = Done st' s' /\ events s' = events s0
              /\ running st' = running st0 /\ finished st' = finished st0
              /\ wgCounter st' = wgCounter st - 1 /\ stuck st' = stuck st0
              /\ errChannel st' = errChannel st0 /\ extends s0 s' 0 1).
  { intros st0 s0 Hst0. unfold wgDone. rewrite Hst0.
    destruct (Z.ltb_spec (wgCounter st - 1) 0); [lia|].
    repeat step. eexists. eexists. split; [reflexivity|]. cbn.
    repeat split. solve_extends. }
  assert (Hfail : forall e s0, extends s s0 0 0 -> events s0 = events s ->
            exists st' s',
              waiterFail w st e s0 = Done st' s' /\ events s' = events s
              /\ running st' = running st /\ finished st' = finished st
              /\ ((wgCounter st' = wgCounter st - 1 /\ stuck st' = stuck st
                   /\ extends s s' 0 1)
                  \/ (wgCounter st' = wgCounter st /\ stuck st' = stuck st ++ [w]
                      /\ extends s s' 0 0))).
  { intros e s0 Hext He0. unfold waiterFail. destruct (_ <? _).
    - step.
      match goal with |- context [wgDone ?st0 ?s1] =>
        destruct (Hdone st0 s1 eq_refl) as (st' & s' & Hrun & He & Hr & Hf & Hw & Hs & _ & Hx)
      end.
      exists st', s'. rewrite Hrun, He. proj. repeat split; auto.
      left. repeat split; auto.
      apply (extends_trans s s0 s' 0 0 0 1 Hext).
      refine (extends_trans s0 _ s' 0 0 0 1 _ Hx). solve_extends.
    - eexists. eexists. split; [reflexivity|]. cbn. auto 10. }
  assert (Hok : forall s0, extends s s0 0 0 -> events s0 = events s ->
            exists st' s',
              wgDone st s0 = Done st' s' /\ events s' = events s
              /\ running st' = running st /\ finished st' = finished st
              /\ ((wgCounter st' = wgCounter st - 1 /\ stuck st' = stuck st
                   /\ extends s s' 0 1)
                  \/ (wgCounter st' = wgCounter st /\ stuck st' = stuck st ++ [w]
                      /\ extends s s' 0 0))).
  { intros s0 Hext He0.
    destruct (Hdone st s0 eq_refl) as (st' & s' & Hrun & He & Hr & Hf & Hw & Hs & _ & Hx).
    exists st', s'. rewrite He. repeat split; auto.
    left. repeat split; auto. apply (extends_trans s s0 s' 0 0 0 1 Hext Hx). }
  unfold waiterBody. step.
  destruct w as [elbName instance | arn instance port]; step.
  - unfold waitForDeregisterInstance. step.
    destruct (WaitUntilInstanceDeregistered _ _ _) as [e|].
    + destruct (hasCode e _).
      * step. apply Hok; [solve_extends | reflexivity].
      * apply Hfail; [solve_extends | reflexivity].
    + step. rewrite run_publish. proj.
      apply Hok; [|reflexivity]. destruct (CreateEvent _ _ _); solve_extends.
  - unfold waitForDeregisterTarget. step.
    destruct (WaitUntilTargetDeregistered _ _ _ _) as [e|].
    + destruct (hasCode e _).
      * step. apply Hok; [solve_extends | reflexivity].
      * apply Hfail; [solve_extends | reflexivity].
    + step. rewrite run_publish. proj.
      apply Hok; [|reflexivity]. destruct (CreateEvent _ _ _); solve_extends.
Qed.

Lemma runWaiters_returns event ws :
  forall st s ev,
    events s !! event = Some ev ->
    Z.of_nat (length ws) <= wgCounter st ->
    exists st' s' d,
      runWaiters event ws st s = Done st' s'
      /\ events s' = events s
      /\ running st' = running st
      /\ finished st' = finished st
      /\ extends s s' 0 d
      /\ wgCounter st' = wgCounter st - Z.of_nat d
      /\ Z.of_nat (length (stuck st'))
         = Z.of_nat (length (stuck st)) + Z.of_nat (length ws) - Z.of_nat d.
Proof.
  induction ws as [|w rest IH]; intros st s ev Hev Hcount.
  - exists st, s, 0%nat. cbn. repeat split; auto using extends_refl; lia.
  - cbn [runWaiters]. cbn [length] in Hcount.
    destruct (waiterBody_returns event w st s ev Hev ltac:(lia))
      as (st1 & s1 & Hrun & He & Hr & Hf & Hcases).
    erewrite run_bind by exact Hrun.
    destruct (IH st1 s1 ev) as (st' & s' & d & Hrun' & He' & Hr' & Hf' & Hx & Hw' & Hs').
    { now rewrite He. }
    { destruct Hcases as [(Hw & _)|(Hw & _)]; rewrite Hw; lia. }
    destruct Hcases as [(Hw & Hs & Hx1)|(Hw & Hs & Hx1)].
    + exists st', s', (1 + d)%nat. rewrite Hrun'. repeat split; try congruence;
        first [ exact (extends_trans s s1 s' 0 1 0 d Hx1 Hx)
              | rewrite ?Hs', ?Hs; cbn [length]; lia ].
    + exists st', s', d. rewrite Hrun'. repeat split; try congruence;
        first [ exact (extends_trans s s1 s' 0 0 0 d Hx1 Hx)
              | rewrite ?Hs', ?Hs, ?length_app; cbn [length]; lia ].
Qed.

Lemma closerStep_accounted st :
  waitersAccounted st ->
  waitersAccounted (closerStep st)
  /\ unaccounted (closerStep st) = unaccounted st
  /\ wgCounter (closerStep st) = wgCounter st.
Proof.
  intros [Hcount Hfin]. unfold closerStep.
  destruct (Z.eqb_spec (wgCounter st) 0) as [Hz|]; [|now repeat split].
  repeat split; auto.
Qed.

Lemma trySelect_result preferFinished st r :
  trySelect preferFinished st = Some r ->
  match r with
  | None => finished st = true
  | Some err => exists rest, errChannel st = err :: rest
  end.
Proof.
  unfold trySelect.
  destruct (finished st), (errChannel st) as [|err rest], preferFinished;
    intros [= <-]; eauto.
Qed.

(** What the coordinator returns, under any schedule: nil only with
    [finished] closed, else the first error of the channel. Meanwhile the
    counter of the wait group went down by one per waiter that returned. *)
Lemma coordinate_returns event sched :
  forall st s ev,
    events s !! event = Some ev ->
    waitersAccounted st ->
    match coordinate event sched st s with
    | Done (r, st') s' =>
        events s' = events s
        /\ waitersAccounted st'
        /\ unaccounted st' = unaccounted st
        /\ (exists d, extends s s' 0 d /\ Z.of_nat d = wgCounter st - wgCounter st')
        /\ match r with
           | None => finished st' = true
           | Some err => exists rest, errChannel st' = err :: rest
           end
    | Blocked _ => True
    | Panicked _ _ => False
    end.
Proof.
  induction sched as [|step rest IH]; intros st s ev Hev Hacc.
  - cbn [coordinate].
    destruct (runWaiters_returns event (running st) (setRunning [] st) s ev Hev)
      as (st1 & s1 & d & Hrun & He & Hr & Hf & Hx & Hw & Hs).
    { destruct Hacc as [Hcount _]. unfold unaccounted in Hcount. cbn. lia. }
    erewrite run_bind by exact Hrun. cbn in Hr, Hf, Hw, Hs.
    assert (Hun : unaccounted st1 = unaccounted st).
    { unfold unaccounted. rewrite Hr. cbn [length]. lia. }
    assert (Hacc1 : waitersAccounted st1).
    { destruct Hacc as [Hc Hfin]. split; [now rewrite Hun|].
      rewrite Hf. intros Hfin'. specialize (Hfin Hfin'). unfold unaccounted in *. lia. }
    destruct (closerStep_accounted st1 Hacc1) as (Hacc2 & Hun2 & Hw2).
    destruct (trySelect false (closerStep st1)) as [r|] eqn:Hsel; [|exact I].
    cbn. split; [exact He|]. split; [exact Hacc2|]. split; [congruence|].
    split; [exists d; split; [exact Hx | lia]|].
    exact (trySelect_result _ _ _ Hsel).
  - destruct step as [i| |preferFinished]; cbn [coordinate].
    + destruct (running st !! i) as [w|] eqn:Hw; [|now apply (IH st s ev)].
      assert (Hlen : (i < length (running st))%nat) by (eapply lookup_lt_Some; eauto).
      destruct Hacc as [Hcount Hfin]. unfold unaccounted in Hcount.
      destruct (waiterBody_returns event w (setRunning (delete i (running st)) st) s ev Hev)
        as (st1 & s1 & Hrun & He & Hr & Hf & Hcases).
      { cbn. lia. }
      erewrite run_bind by exact Hrun. cbn in Hr, Hf, Hcases.
      assert (Hun : unaccounted st1 = unaccounted st).
      { unfold unaccounted. rewrite Hr, length_delete by eauto.
        destruct Hcases as [(Hw' & Hs & _)|(Hw' & Hs & _)]; rewrite Hw', Hs, ?length_app;
          cbn [length]; lia. }
      assert (Hacc1 : waitersAccounted st1).
      { split; [unfold unaccounted in Hun |- *; lia|].
        rewrite Hf. intros Hfin'. specialize (Hfin Hfin'). lia. }
      assert (Hev1 : events s1 !! event = Some ev) by now rewrite He.
      specialize (IH st1 s1 ev Hev1 Hacc1).
      destruct (coordinate event rest st1 s1) as [[r st'] s'| |]; auto.
      destruct IH as (He' & Hacc' & Hun' & (d & Hx & Hd) & Hr').
      split; [congruence|].
      split; [exact Hacc'|]. split; [congruence|]. split; [|exact Hr'].
      destruct Hcases as [(Hw' & _ & Hx1)|(Hw' & _ & Hx1)].
      * exists (1 + d)%nat. split; [exact (extends_trans s s1 s' 0 1 0 d Hx1 Hx) | lia].
      * exists d. split; [exact (extends_trans s s1 s' 0 0 0 d Hx1 Hx) | lia].
    + destruct (closerStep_accounted st Hacc) as (Hacc2 & Hun2 & Hw2).
      specialize (IH (closerStep st) s ev Hev Hacc2).
      destruct (coordinate event rest (closerStep st) s) as [[r st'] s'| |]; auto.
      destruct IH as (He' & Hacc' & Hun' & (d & Hx & Hd) & Hr').
      split; [exact He'|].
      split; [exact Hacc'|]. split; [congruence|]. split; [|exact Hr'].
      exists d. split; [exact Hx | lia].
    + destruct (trySelect preferFinished st) as [r|] eqn:Hsel; [|now apply (IH st s ev)].
      cbn. split; [reflexivity|]. split; [exact Hacc|]. split; [reflexivity|].
      split; [exists 0%nat; split; [apply extends_refl | lia]|].
      exact (trySelect_result _ _ _ Hsel).
Qed.

(** ** The stage as a whole *)

Lemma stageOk_after {A} event s s1 (post : A -> Prop) o :
  extends s s1 0 0 -> stageOk event s1 post o -> stageOk event s post o.
Proof.
  intros Hx. destruct o as [a s'| |]; cbn; auto.
  intros (Hv & Hx' & Hp). repeat split; auto.
  exact (extends_trans s s1 s' 0 0 0 0 Hx Hx').
Qed.

Lemma stageOk_weaken {A} event s (post post' : A -> Prop) o :
  (forall a, post a -> post' a) -> stageOk event s post o -> stageOk event s post' o.
Proof. intros H. destruct o; cbn; intuition. Qed.

Lemma run_block {A B} (k : A -> M B) s : (block ≫= k) s = Blocked s.
Proof. reflexivity. Qed.

Lemma deregisterLoadBalancers_ok event elbClient kubeClient instanceID capacity active :
  forall deregistered errChannel s,
    is_Some (events s !! event) ->
    stageOk event s
      (fun r => forall d c, r = inr (d, c) ->
                 (length d <= length deregistered + length active)%nat)
      (deregisterLoadBalancers event elbClient kubeClient instanceID capacity active
         deregistered errChannel s).
Proof.
  induction active as [|elbName rest IH]; intros deregistered errChannel s [ev Hev].
  - cbn. split; [eauto|]. split; [apply extends_refl|]. intros d c [= <- <-]. lia.
  - cbn [deregisterLoadBalancers]. step.
    destruct (eventCompleted ev).
    { cbn. split; [eauto|]. split; [apply extends_refl|]. discriminate. }
    rewrite run_waitJitter. proj.
    pose proof (lookup_after_yield (others s (sleeps s)) (events s) event ev Hev) as Hev'.
    unfold deregisterInstance. repeat step.
    destruct (DeregisterInstancesFromLoadBalancer _ _ _) as [e|].
    + destruct (hasCode e ErrCodeAccessPointNotFoundException);
        [|destruct (hasCode e ErrCodeInvalidEndPointException)].
      * step. eapply stageOk_after; [|eapply stageOk_weaken; [|apply IH; proj; eauto]].
        { solve_extends. }
        cbn beta. intros r Hr d c ->. specialize (Hr d c eq_refl). cbn [length]. lia.
      * step. eapply stageOk_after; [|eapply stageOk_weaken; [|apply IH; proj; eauto]].
        { solve_extends. }
        cbn beta. intros r Hr d c ->. specialize (Hr d c eq_refl). cbn [length]. lia.
      * step. unfold errChannelSend. destruct (_ <? _); [|exact I].
        repeat step. rewrite run_publish. proj.
        eapply stageOk_after; [|eapply stageOk_weaken; [|apply IH; proj; eauto]].
        { destruct (CreateEvent _ _ _); solve_extends. }
        cbn beta. intros r Hr d c ->. specialize (Hr d c eq_refl). cbn [length]. lia.
    + eapply stageOk_after; [|eapply stageOk_weaken; [|apply IH; proj; eauto]].
      { solve_extends. }
      cbn beta. intros r Hr d c ->. specialize (Hr d c eq_refl).
      rewrite length_app in Hr. cbn [length] in *. lia.
Qed.

Lemma size_insert_le (arn : string) (port : Z) (m : gmap string Z) :
  (size (<[arn := port]> m) <= S (size m))%nat.
Proof. rewrite map_size_insert. destruct (m !! arn); unfold id; lia. Qed.

Lemma deregisterTargetGroups_ok event elbv2Client kubeClient instanceID capacity active :
  forall deregistered errChannel s,
    is_Some (events s !! event) ->
    stageOk event s
      (fun r => forall (d : gmap string Z) c, r = inr (d, c) ->
                 (size d <= size deregistered + length active)%nat)
      (deregisterTargetGroups event elbv2Client kubeClient instanceID capacity active
         deregistered errChannel s).
Proof.
  induction active as [|[arn port] rest IH]; intros deregistered errChannel s [ev Hev].
  - cbn. split; [eauto|]. split; [apply extends_refl|]. intros d c [= <- <-]. lia.
  - cbn [deregisterTargetGroups]. step.
    destruct (eventCompleted ev).
    { cbn. split; [eauto|]. split; [apply extends_refl|]. discriminate. }
    rewrite run_waitJitter. proj.
    pose proof (lookup_after_yield (others s (sleeps s)) (events s) event ev Hev) as Hev'.
    unfold deregisterTarget. repeat step.
    destruct (DeregisterTargets _ _ _ _) as [e|].
    + destruct (hasCode e ErrCodeTargetGroupNotFoundException);
        [|destruct (hasCode e ErrCodeInvalidTargetException)].
      * step. eapply stageOk_after; [|eapply stageOk_weaken; [|apply IH; proj; eauto]].
        { solve_extends. }
        cbn beta. intros r Hr d c ->. specialize (Hr d c eq_refl). cbn [length]. lia.
      * step. eapply stageOk_after; [|eapply stageOk_weaken; [|apply IH; proj; eauto]].
        { solve_extends. }
        cbn beta. intros r Hr d c ->. specialize (Hr d c eq_refl). cbn [length]. lia.
      * step. unfold errChannelSend. destruct (_ <? _); [|exact I].
        repeat step. rewrite run_publish. proj.
        eapply stageOk_after; [|eapply stageOk_weaken; [|apply IH; proj; eauto]].
        { destruct (CreateEvent _ _ _); solve_extends. }
        cbn beta. intros r Hr d c ->. specialize (Hr d c eq_refl). cbn [length]. lia.
    + eapply stageOk_after; [|eapply stageOk_weaken; [|apply IH; proj; eauto]].
      { solve_extends. }
      cbn beta. intros r Hr d c ->. specialize (Hr d c eq_refl).
      pose proof (size_insert_le arn port deregistered). cbn [length]. lia.
Qed.

Lemma findTargetGroups_ok event elbv2Client instanceID targetGroups :
  forall active s,
    is_Some (events s !! event) ->
    stageOk event s (fun _ => True)
      (findTargetGroups elbv2Client instanceID targetGroups active s).
Proof.
  induction targetGroups as [|arn rest IH]; intros active s Hv.
  - cbn. auto using extends_refl.
  - cbn [findTargetGroups]. rewrite run_waitJitter. proj.
    apply (valid_after_yield (others s (sleeps s))) in Hv.
    unfold findInstanceInTargetGroup. repeat step.
    destruct (DescribeTargetHealth _ _) as [descs [err|]].
    + repeat step. destruct (hasCode err _).
      * step. eapply stageOk_after; [|apply IH; proj; exact Hv]. solve_extends.
      * cbn. split; [exact Hv|]. split; [solve_extends | exact I].
    + destruct (find _ descs) as [desc|]; repeat step.
      * eapply stageOk_after; [|apply IH; proj; exact Hv]. solve_extends.
      * eapply stageOk_after; [|apply IH; proj; exact Hv]. solve_extends.
Qed.

Lemma findLoadBalancers_ok event elbClient instanceID elbDescriptions :
  forall active s,
    is_Some (events s !! event) ->
    stageOk event s (fun _ => True)
      (findLoadBalancers elbClient instanceID elbDescriptions active s).
Proof.
  induction elbDescriptions as [|elbName rest IH]; intros active s Hv.
  - cbn. auto using extends_refl.
  - cbn [findLoadBalancers]. rewrite run_waitJitter. proj.
    apply (valid_after_yield (others s (sleeps s))) in Hv.
    unfold findInstanceInClassicBalancer. repeat step.
    destruct (DescribeInstanceHealth _ _) as [instances [err|]].
    + repeat step. destruct (hasCode err _).
      * step. eapply stageOk_after; [|apply IH; proj; exact Hv]. solve_extends.
      * cbn. split; [exact Hv|]. split; [solve_extends | exact I].
    + repeat step. case_bool_decide.
      * eapply stageOk_after; [|apply IH; proj; exact Hv]. solve_extends.
      * eapply stageOk_after; [|apply IH; proj; exact Hv]. solve_extends.
Qed.

Lemma spawn_extends s s' t names (f : string -> Call) :
  trace s' = trace s ++ t ->
  List.filter isSpawnWaiter t = map f names ->
  dones t = 0%nat ->
  extends s s' (length names) 0.
Proof.
  intros Ht Hf Hd. exists t. repeat split; auto.
  unfold spawns, times. now rewrite Hf, length_map.
Qed.

Lemma spawn_extends_groups s s' t (groups : list (string * Z)) (f : string * Z -> Call) :
  trace s' = trace s ++ t ->
  List.filter isSpawnWaiter t = map f groups ->
  dones t = 0%nat ->
  extends s s' (length groups) 0.
Proof.
  intros Ht Hf Hd. exists t. repeat split; auto.
  unfold spawns, times. now rewrite Hf, length_map.
Qed.

(** From [wg.Add] on: the stage does not panic; if it returns, no more
    waiters have returned than were spawned, and if it returns nil every
    waiter that was spawned has returned. *)
Lemma deregisterAndWait_returns event instanceID activeTargetGroups activeLoadBalancers
    sched s :
  is_Some (events s !! event) ->
  match deregisterAndWait event instanceID activeTargetGroups activeLoadBalancers sched s
  with
  | Done err s' =>
      exists n d, extends s s' n d /\ (d <= n)%nat /\ (err = None -> d = n)
  | Blocked _ => True
  | Panicked _ _ => False
  end.
Proof.
  intros Hv. unfold deregisterAndWait. repeat step.
  match goal with |- context [(deregisterLoadBalancers ?a ?b ?c ?d ?e ?f ?g ?h ≫= _) ?s0] =>
    pose proof (deregisterLoadBalancers_ok a b c d e f g h s0 Hv) as H1;
    assert (Hx0 : extends s s0 0 0) by solve_extends;
    destruct (deregisterLoadBalancers a b c d e f g h s0) as [r1 s1| |] eqn:Hrun1;
    [erewrite run_bind by exact Hrun1 | destruct H1
     | erewrite run_bind_block by exact Hrun1; exact I]
  end.
  destruct H1 as (Hv1 & Hx1 & Hlen1).
  pose proof (extends_trans _ _ _ _ _ _ _ Hx0 Hx1) as Hx01. cbn in Hx01.
  destruct r1 as [err|[deregisteredLoadBalancers errChannel1]].
  { exists 0%nat, 0%nat. repeat split; auto. }
  specialize (Hlen1 _ _ eq_refl). cbn [length] in Hlen1.
  match goal with |- context [(deregisterTargetGroups ?a ?b ?c ?d ?e ?f ?g ?h ≫= _) ?s0] =>
    pose proof (deregisterTargetGroups_ok a b c d e f g h s0 Hv1) as H2;
    destruct (deregisterTargetGroups a b c d e f g h s0) as [r2 s2| |] eqn:Hrun2;
    [erewrite run_bind by exact Hrun2 | destruct H2
     | erewrite run_bind_block by exact Hrun2; exact I]
  end.
  destruct H2 as (Hv2 & Hx2 & Hlen2).
  pose proof (extends_trans _ _ _ _ _ _ _ Hx01 Hx2) as Hx02. cbn in Hx02.
  destruct r2 as [err|[deregisteredTargetGroups errChannel2]].
  { exists 0%nat, 0%nat. repeat split; auto. }
  specialize (Hlen2 _ _ eq_refl).
  rewrite map_size_empty, length_map_to_list in Hlen2. cbn in Hlen2.
  step.
  match goal with |- context [(spawnClassicWaiters ?i ?names ?sp ≫= _) ?s0] =>
    destruct (spawnClassicWaiters_returns i names sp s0)
      as (s3 & t3 & Hrun3 & Ht3 & Hs3 & Hd3 & Hvalid3);
    assert (Hx3 : extends s s0 0 0)
      by (refine (extends_trans _ _ _ 0 0 0 0 Hx02 _); solve_extends);
    pose proof (spawn_extends _ _ _ _ _ Ht3 Hs3 Hd3) as Hx3';
    pose proof (Hvalid3 event Hv2) as Hv3
  end.
  erewrite run_bind by exact Hrun3.
  pose proof (extends_trans _ _ _ _ _ _ _ Hx3 Hx3') as Hx03. cbn in Hx03.
  match goal with |- context [(spawnTargetWaiters ?i ?groups ?sp ≫= _) ?s0] =>
    destruct (spawnTargetWaiters_returns i groups sp s0)
      as (s4 & t4 & Hrun4 & Ht4 & Hs4 & Hd4 & Hvalid4);
    pose proof (spawn_extends_groups _ _ _ _ _ Ht4 Hs4 Hd4) as Hx4;
    pose proof (Hvalid4 event Hv3) as Hv4
  end.
  erewrite run_bind by exact Hrun4.
  pose proof (extends_trans _ _ _ _ _ _ _ Hx03 Hx4) as Hx04.
  rewrite length_map_to_list, Nat.add_0_r in Hx04.
  step. destruct Hv4 as [ev Hev4].
  match goal with |- context [(coordinate ?e ?sc ?st0 ≫= _) ?s0] =>
    assert (Hacc0 : waitersAccounted st0)
      by (split; [|discriminate]; unfold unaccounted; cbn;
          rewrite !length_app, !length_map, length_map_to_list; lia);
    pose proof (coordinate_returns e sc st0 s0 ev Hev4 Hacc0) as Hco;
    assert (Hx5 : extends s s0 (length deregisteredLoadBalancers
                                + size deregisteredTargetGroups) 0)
      by (rewrite <- (Nat.add_0_r (_ + _));
          refine (extends_trans _ _ _ _ 0 0 0 Hx04 _); solve_extends);
    destruct (coordinate e sc st0 s0) as [[r st'] s5| |] eqn:Hrun5;
    [erewrite run_bind by exact Hrun5
    | destruct Hco | erewrite run_bind_block by exact Hrun5; exact I]
  end.
  destruct Hco as (He5 & [Hun5 Hfin5] & Hconst & (d & Hxd & Hd) & Hr).
  pose proof (extends_trans _ _ _ _ _ _ _ Hx5 Hxd) as Hx6.
  rewrite Nat.add_0_r in Hx6. cbn [plus] in Hx6.
  unfold unaccounted in Hun5, Hconst. cbn in Hconst, Hd.
  rewrite !length_app, !length_map, length_map_to_list in Hconst. cbn [length] in Hconst.
  cbn [fst]. destruct r as [err|]; cbn [Wrap].
  - cbn. eexists. exists d. split; [exact Hx6|]. split; [lia | congruence].
  - repeat step. specialize (Hfin5 Hr).
    assert (Hev5 : events s5 !! event = Some ev) by now rewrite He5.
    erewrite run_update by (proj; exact Hev5). proj. cbn.
    eexists. exists (d + 0)%nat. split.
    + refine (extends_trans _ _ _ _ _ 0 0 Hx6 _). solve_extends.
    + rewrite !Nat.add_0_r. split; [lia|]. intros _. lia.
Qed.

Lemma drainLoadbalancerTarget_returns event sched s :
  is_Some (events s !! event) ->
  match drainLoadbalancerTarget event sched s with
  | Done err s' =>
      exists n d, extends s s' n d /\ (d <= n)%nat /\ (err = None -> d = n)
  | Blocked _ => True
  | Panicked _ _ => False
  end.
Proof.
  intros [ev Hev]. unfold drainLoadbalancerTarget. repeat step.
  destruct (WithDeregister _); cbn [negb].
  2:{ cbn. exists 0%nat, 0%nat. auto using extends_refl. }
  rewrite run_waitJitter. proj. unfold labelNode. repeat step.
  destruct (KubectlLabelNode _ _ _ _) as [e|].
  { cbn. exists 0%nat, 0%nat. repeat split; auto. solve_extends. }
  step.
  match goal with |- context [(?c ≫= _) ?s0] =>
    assert (Hflush : exists s1, c s0 = Done tt s1 /\ extends s s1 0 0
                                /\ events s1 = events s0) end.
  { destruct (_ <=? _); repeat step.
    - eexists. split; [reflexivity|]. split; [solve_extends | reflexivity].
    - eexists. split; [reflexivity|]. split; [solve_extends | reflexivity]. }
  destruct Hflush as (s1 & Hrun1 & Hx1 & He1). cbn [events] in He1.
  erewrite run_bind by exact Hrun1. step.
  assert (Hv1 : is_Some (events s1 !! event)).
  { rewrite He1. apply valid_after_yield. eauto. }
  destruct (DescribeTargetGroupsPages _) as [pages [e|]].
  { cbn. exists 0%nat, 0%nat. repeat split; auto.
    refine (extends_trans _ _ _ 0 0 0 0 Hx1 _). solve_extends. }
  step.
  destruct (DescribeLoadBalancersPages _) as [pages' [e|]].
  { cbn. exists 0%nat, 0%nat. repeat split; auto.
    refine (extends_trans _ _ _ 0 0 0 0 Hx1 _). solve_extends. }
  step.
  match goal with |- context [(findTargetGroups ?a ?b ?c ?d ≫= _) ?s0] =>
    pose proof (findTargetGroups_ok event a b c d s0 Hv1) as H2;
    assert (Hx2 : extends s s0 0 0)
      by (refine (extends_trans _ _ _ 0 0 0 0 Hx1 _); solve_extends);
    destruct (findTargetGroups a b c d s0) as [r2 s2| |] eqn:Hrun2;
    [erewrite run_bind by exact Hrun2 | destruct H2
     | erewrite run_bind_block by exact Hrun2; exact I]
  end.
  destruct H2 as (Hv2 & Hx2' & _).
  pose proof (extends_trans _ _ _ _ _ _ _ Hx2 Hx2') as Hx02. cbn in Hx02.
  destruct r2 as [e|activeTargetGroups].
  { cbn. exists 0%nat, 0%nat. auto. }
  match goal with |- context [(findLoadBalancers ?a ?b ?c ?d ≫= _) ?s0] =>
    pose proof (findLoadBalancers_ok event a b c d s0 Hv2) as H3;
    destruct (findLoadBalancers a b c d s0) as [r3 s3| |] eqn:Hrun3;
    [erewrite run_bind by exact Hrun3 | destruct H3
     | erewrite run_bind_block by exact Hrun3; exact I]
  end.
  destruct H3 as (Hv3 & Hx3 & _).
  pose proof (extends_trans _ _ _ _ _ _ _ Hx02 Hx3) as Hx03. cbn in Hx03.
  destruct r3 as [e|activeLoadBalancers].
  { cbn. exists 0%nat, 0%nat. auto. }
  pose proof (deregisterAndWait_returns event (EC2InstanceID ev) activeTargetGroups
                activeLoadBalancers sched s3 Hv3) as H4.
  destruct (deregisterAndWait _ _ _ _ _ s3) as [err s4| |]; auto.
  destruct H4 as (n & d & Hx4 & Hle & Hnil).
  exists n, d. split; [|auto].
  exact (extends_trans _ _ _ 0 0 n d Hx03 Hx4).
Qed.




(** The wait group is sized by the active pools, the waiters are spawned
    for the deregistered ones. With an empty error channel and a counter
    that no waiter is left to bring to zero, the coordinator blocks under
    every schedule. *)
Lemma coordinate_blocks event sched :
  forall st s,
    running st = [] -> errChannel st = [] -> finished st = false -> wgCounter st <> 0 ->
    coordinate event sched st s = Blocked s.
Proof.
  induction sched as [|step rest IH]; intros st s Hrun Herr Hfin Hwg.
  - cbn [coordinate]. rewrite Hrun. cbn [runWaiters]. rewrite run_ret.
    unfold closerStep. destruct (Z.eqb_spec (wgCounter (setRunning [] st)) 0) as [Hz|_].
    { cbn in Hz. contradiction. }
    unfold trySelect. cbn. now rewrite Hfin, Herr.
  - destruct step as [i| |preferFinished]; cbn [coordinate].
    + rewrite Hrun. cbn. now apply IH.
    + unfold closerStep. destruct (Z.eqb_spec (wgCounter st) 0); [contradiction|].
      now apply IH.
    + unfold trySelect. rewrite Hfin, Herr. now apply IH.
Qed.

(** One active balancer whose deregistration is skipped: the wait group is
    sized 1, no waiter is spawned, and the stage never returns. *)
Lemma skipped_deregistration_blocks_stage event instanceID elbName sched s ev e :
  events s !! event = Some ev ->
  eventCompleted ev = false ->
  DeregisterInstancesFromLoadBalancer (ELBClient (authenticator (mgr s))) elbName instanceID
  = Some e ->
  hasCode e ErrCodeAccessPointNotFoundException = true ->
  exists s',
    deregisterAndWait event instanceID ∅ [elbName] sched s = Blocked s'
    /\ extends s s' 0 0.
Proof.
  intros Hev Hcompleted Hcall Hcode. unfold deregisterAndWait. repeat step.
  cbn [deregisterLoadBalancers]. repeat step. rewrite Hcompleted. proj. repeat step.
  rewrite run_waitJitter. proj. unfold deregisterInstance. repeat step.
  rewrite Hcall, Hcode. proj. repeat step.
  rewrite map_to_list_empty. cbn [deregisterTargetGroups]. repeat step.
  cbn [spawnClassicWaiters]. repeat step.
  rewrite map_to_list_empty. cbn [spawnTargetWaiters]. repeat step.
  erewrite run_bind_block.
  2:{ apply coordinate_blocks; cbn; try reflexivity. rewrite map_size_empty. lia. }
  eexists. split; [reflexivity|]. solve_extends.
Qed.

(** ** handleEvent *)

(** C1. With the deregistration stage disabled (or returning nil), an error
    of the drain stage is counted and then lost: handleEvent clears the
    in-progress annotation and returns nil, although drainNodeTarget
    returned the error. *)
Theorem handleEvent_drops_drain_error serializeMessage event sched s ev e :
  events s !! event = Some ev ->
  WithDeregister (context (mgr s)) = false ->
  KubectlDrainNode (KubernetesClient (authenticator (mgr s))) (Name (referencedNode ev))
    (DrainTimeoutSeconds (context (mgr s))) (DrainRetryIntervalSeconds (context (mgr s)))
  = Some e ->
  (exists s1, drainNodeTarget event s = Done (Some e) s1)
  /\ exists s' t,
       handleEvent serializeMessage event sched s = Done None s'
       /\ trace s' = trace s ++ t
       /\ events s' = events s
       /\ times (isCreateEventFor EventReasonNodeDrainFailed) t = 1%nat
       /\ In (AddCounter FailedNodeDrainTotalMetric 1) t
       /\ In (KubectlAnnotate (Name (referencedNode ev)) InProgressAnnotationKey "") t.
Proof.
  intros Hev Hwith Hdrain. split.
  - unfold drainNodeTarget, drainNode. repeat step. rewrite Hdrain.
    repeat step'. eexists. reflexivity.
  - unfold handleEvent, annotateNode. repeat step.
    destruct (serializeMessage (message ev)) as [storeMessage [err|]]; repeat step.
    all: unfold drainNodeTarget, drainNode; repeat step; rewrite Hdrain; repeat step'.
    all: unfold drainLoadbalancerTarget; repeat step; rewrite Hwith; cbn [negb]; repeat step.
    all: destruct (CreateEvent _ _ _).
    all: eexists; eexists; (split; [reflexivity|]); proj.
    all: rewrite <- ?app_assoc; (split; [reflexivity|]).
    all: split; [reflexivity|]; split; [reflexivity|].
    all: cbn; tauto.
Qed.

(** The event of server_test.go on a manager whose drain tool fails and
    whose deregistration stage is disabled. *)
Lemma handleEvent_drops_drain_error_witness :
  let s := Fixture.start (Fixture.New Fixture.failingDrainAuth Fixture.basicContext)
             {[1%nat := Fixture.event]} in
  (events s !! 1%nat = Some Fixture.event
   /\ WithDeregister (context (mgr s)) = false
   /\ KubectlDrainNode (KubernetesClient (authenticator (mgr s))) "" 1 30
      = Some (PlainError "failed to drain node"))
  /\ (exists s1, drainNodeTarget 1 s = Done (Some (PlainError "failed to drain node")) s1)
  /\ exists s' t,
       handleEvent Fixture.serializeMessage 1 [] s = Done None s'
       /\ trace s' = trace s ++ t
       /\ events s' = events s
       /\ times (isCreateEventFor EventReasonNodeDrainFailed) t = 1%nat
       /\ In (AddCounter FailedNodeDrainTotalMetric 1) t
       /\ In (KubectlAnnotate "" InProgressAnnotationKey "") t.
Proof.
  intros s. split; [repeat split|].
  destruct (handleEvent_drops_drain_error Fixture.serializeMessage 1%nat [] s Fixture.event
              (PlainError "failed to drain node") eq_refl eq_refl eq_refl) as [Hdrain Hhandle].
  split; [exact Hdrain | exact Hhandle].
Defined.

(** After the failed drain Process goes on to CompleteEvent, which reports
    CONTINUE to the scaling group. *)
Lemma Process_continues_after_failed_drain :
  exists s',
    Process Fixture.serializeMessage 1 []
      (Fixture.start (Fixture.New Fixture.failingDrainAuth Fixture.basicContext)
         {[1%nat := Fixture.event]})
    = Done None s'
    /\ times (isCompleteLifecycleAction ContinueAction) (trace s') = 1%nat
    /\ times (isCompleteLifecycleAction AbandonAction) (trace s') = 0%nat
    /\ (drainCompleted <$> events s' !! 1%nat) = Some false.
Proof.
  eexists. split; [vm_compute; reflexivity|]. repeat split; vm_compute; reflexivity.
Qed.

(** The error of the deregistration stage does reach the caller: the
    deregister-error scenario of server_test.go. *)
Lemma handleEvent_returns_deregister_error :
  exists err s',
    handleEvent Fixture.serializeMessage 1 []
      (Fixture.start (Fixture.New Fixture.halfFailingAuth Fixture.deregisterContext)
         {[1%nat := Fixture.event]})
    = Done (Some err) s'
    /\ (drainCompleted <$> events s' !! 1%nat) = Some true
    /\ (deregisterCompleted <$> events s' !! 1%nat) = Some false.
Proof.
  eexists. eexists. split; [vm_compute; reflexivity|]. split; vm_compute; reflexivity.
Qed.

(** ** Work queue *)

(** C4. Two workers that hold the same notification (the same requestId and
    instanceId) both pass the duplicate check before either has called
    AddEvent; both then add their event, and the work queue holds the pair
    twice. *)
Theorem workQueue_duplicate_after_interleaved_checks :
  match workerSteps [StepDedup 1; StepDedup 2; StepAddEvent 1; StepAddEvent 2]
          (Fixture.start (Fixture.New Fixture.auth Fixture.basicContext)
             {[1%nat := Fixture.event; 2%nat := Fixture.event]},
           {[1%nat := Parsed; 2%nat := Parsed]}) with
  | Some (s', _) =>
      workQueue (mgr s') = [1%nat; 2%nat]
      /\ queueKeys s' = [("63f5b5c2-58b3-0574-b7d5-b3162d0268f0", "i-123486890234");
                         ("63f5b5c2-58b3-0574-b7d5-b3162d0268f0", "i-123486890234")]
      /\ ~ distinctQueue s'
      /\ times isDeleteMessage (trace s') = 0%nat
  | None => False
  end.
Proof.
  vm_compute. repeat split; try reflexivity.
  intros Hnodup. apply NoDup_cons in Hnodup as [Hin _]. apply Hin. left.
Qed.

Lemma derefAll_returns queue s :
  Forall (fun p => is_Some (events s !! p)) queue ->
  exists es,
    derefAll queue s = Done es s
    /\ omap (fun p => eventKey <$> events s !! p) queue = map eventKey es.
Proof.
  induction 1 as [|p rest [e He] _ (es & Hrun & Hkeys)].
  - exists []. split; reflexivity.
  - exists (e :: es). cbn [derefAll]. erewrite run_deref by exact He.
    erewrite run_bind by exact Hrun. split; [reflexivity|].
    cbn [omap list_omap map]. rewrite He. cbn. now rewrite <- Hkeys.
Qed.

Lemma IsAlreadyExist_spec e queue :
  IsAlreadyExist e queue = true <-> eventKey e ∈ map eventKey queue.
Proof.
  unfold IsAlreadyExist. rewrite existsb_exists, list_elem_of_fmap.
  split.
  - intros (q & Hin & Hq). apply andb_true_iff in Hq as [H1 H2].
    apply bool_decide_eq_true in H1, H2. exists q. split.
    + unfold eventKey. congruence.
    + now apply list_elem_of_In.
  - intros (q & Hkey & Hin). exists q. split; [now apply list_elem_of_In|].
    injection Hkey as H1 H2. apply andb_true_iff.
    split; apply bool_decide_eq_true; congruence.
Qed.

(** A worker whose duplicate check and AddEvent are not interleaved with
    another worker's keeps the pairs of the work queue distinct. *)
Lemma dedup_then_AddEvent_keeps_distinct event s ev :
  events s !! event = Some ev ->
  Forall (fun p => is_Some (events s !! p)) (workQueue (mgr s)) ->
  distinctQueue s ->
  exists rejected s1,
    newWorker_dedup event s = Done rejected s1
    /\ workQueue (mgr s1) = workQueue (mgr s)
    /\ distinctQueue s1
    /\ (rejected = false ->
        exists s2, AddEvent event s1 = Done tt s2
                   /\ workQueue (mgr s2) = workQueue (mgr s) ++ [event]
                   /\ distinctQueue s2).
Proof.
  intros Hev Hvalid Hdistinct.
  destruct (derefAll_returns _ _ Hvalid) as (es & Hderef & Hkeys).
  unfold newWorker_dedup. repeat step. erewrite run_bind by exact Hderef.
  destruct (IsAlreadyExist ev es) eqn:Hexist.
  - destruct (RejectEvent_run s (Some (PlainError "event already exists")) event ev Hev)
      as (s1 & t & Hrun & Htrace & Hrej & Hevents & _).
    erewrite run_bind by exact Hrun. exists true, s1.
    assert (Hq : workQueue (mgr s1) = workQueue (mgr s)).
    { revert Hrun. unfold RejectEvent.
      repeat first [step' | rewrite DeepEqual_pointer_struct | case_stub];
        intros [= <-]; reflexivity. }
    split; [reflexivity|]. split; [exact Hq|]. split; [|discriminate].
    unfold distinctQueue, queueKeys. now rewrite Hq, Hevents.
  - exists false, s. split; [reflexivity|]. split; [reflexivity|].
    split; [exact Hdistinct|]. intros _.
    unfold AddEvent. repeat step. eexists. split; [reflexivity|]. proj.
    split; [reflexivity|].
    unfold distinctQueue, queueKeys in *. proj. cbn [workQueue setWorkQueue].
    assert (Hsame : forall q : list nat,
              omap (fun p => eventKey <$>
                       <[event := withEventTimeStarted (wallClock s (clockReads s)) ev]>
                         (events s) !! p) q
              = omap (fun p => eventKey <$> events s !! p) q).
    { induction q as [|p q IH]; [reflexivity|]. cbn [omap list_omap].
      rewrite IH. destruct (decide (event = p)) as [<-|Hne].
      - now rewrite lookup_insert_eq, Hev.
      - now rewrite lookup_insert_ne. }
    rewrite Hsame, omap_app. cbn [omap list_omap]. rewrite Hev. cbn.
    apply NoDup_app. split; [exact Hdistinct|]. split; [|apply NoDup_singleton].
    intros k Hk Hk'. apply list_elem_of_singleton in Hk' as ->.
    rewrite Hkeys in Hk. apply IsAlreadyExist_spec in Hk. congruence.
Qed.

(** ** Completing an event *)

Lemma DeepEqual_other_entry ev target :
  (forall e, target = Some e -> eventKey e <> eventKey ev) ->
  DeepEqual (VPtrLifecycleEvent (Some ev)) (VPtrLifecycleEvent target) = false.
Proof.
  intros H. destruct target as [e|]; [|reflexivity].
  unfold DeepEqual. cbn. apply bool_decide_eq_false. intros ->.
  now apply (H e).
Qed.

(** The loop of CompleteEvent keeps the entries that hold another
    notification, in their order, and does nothing else. *)
Lemma CompleteEvent_loop_skips event url queue :
  forall newQueue s ev,
    events s !! event = Some ev ->
    otherEntries s ev queue ->
    CompleteEvent_loop event url queue newQueue s = Done (newQueue ++ queue) s.
Proof.
  induction queue as [|q rest IH]; intros newQueue s ev Hev Hother.
  - cbn. now rewrite app_nil_r.
  - inversion Hother as [|? ? Hq Hrest]; subst.
    cbn [CompleteEvent_loop]. repeat step. rewrite Hev.
    rewrite (DeepEqual_other_entry ev _ Hq).
    rewrite (IH _ s ev Hev Hrest). now rewrite <- app_assoc.
Qed.

Lemma otherEntries_update s s0 ev ev' event queue :
  events s !! event = Some ev ->
  eventKey ev' = eventKey ev ->
  events s0 = <[event := ev']> (events s) ->
  otherEntries s ev queue ->
  otherEntries s0 ev' queue.
Proof.
  intros Hev Hkey Hs0 Hother. unfold otherEntries. eapply Forall_impl; [exact Hother|].
  intros q Hq e. rewrite Hs0, Hkey.
  destruct (decide (event = q)) as [<-|Hne].
  - intros _. exfalso. now apply (Hq ev).
  - rewrite lookup_insert_ne by exact Hne. exact (Hq e).
Qed.

Lemma CompleteEvent_loop_removes event url pre post :
  forall newQueue s ev,
    events s !! event = Some ev ->
    otherEntries s ev (pre ++ post) ->
    exists t,
      CompleteEvent_loop event url (pre ++ event :: post) newQueue s
      = Done (newQueue ++ pre ++ post)
          (mkState (mgr s) (<[event := withEventCompleted true ev]> (events s))
             (trace s ++ t) (wallClock s) (clockReads s) (others s) (sleeps s))
      /\ List.filter isDeleteMessage t = [SQSDeleteMessage url (receiptHandle ev)]
      /\ times (isCompleteLifecycleAction ContinueAction) t = 1%nat
      /\ times (isCompleteLifecycleAction AbandonAction) t = 0%nat
      /\ times (isCreateEventFor EventReasonLifecycleHookProcessed) t = 1%nat.
Proof.
  induction pre as [|q rest IH]; intros newQueue s ev Hev Hother.
  - cbn [app] in *. cbn [CompleteEvent_loop]. repeat step. rewrite Hev.
    assert (Hself : DeepEqual (VPtrLifecycleEvent (Some ev)) (VPtrLifecycleEvent (Some ev))
                    = true).
    { unfold DeepEqual. cbn. now apply bool_decide_eq_true. }
    rewrite Hself.
    repeat first [step' | case_stub].
    all: match goal with |- context [CompleteEvent_loop _ _ _ _ ?s0] =>
           erewrite (CompleteEvent_loop_skips event _ post newQueue s0)
             by (first [ proj; apply lookup_insert_eq
                       | eapply (otherEntries_update s s0); eauto; reflexivity ])
         end.
    all: eexists; split; [rewrite <- ?app_assoc; reflexivity|].
    all: repeat split.
  - cbn [app] in *. inversion Hother as [|? ? Hq Hrest]; subst.
    cbn [CompleteEvent_loop]. repeat step. rewrite Hev.
    rewrite (DeepEqual_other_entry ev _ Hq).
    destruct (IH (newQueue ++ [q]) s ev Hev Hrest) as (t & Hrun & H).
    exists t. rewrite Hrun, <- app_assoc. split; [reflexivity | exact H].
Qed.

(** X1. CompleteEvent of an event that is in the work queue, the other
    entries holding other notifications: it returns; the event is marked
    completed and taken out of the queue, the other entries stay in their
    order; the message of the event is deleted once, CONTINUE is reported
    once and ABANDON never, one Processed cluster event is published, and
    the completed counter goes up by one. *)
Theorem CompleteEvent_removes_event event s ev pre post :
  events s !! event = Some ev ->
  workQueue (mgr s) = pre ++ event :: post ->
  otherEntries s ev (pre ++ post) ->
  exists s' t,
    CompleteEvent event s = Done tt s'
    /\ trace s' = trace s ++ t
    /\ workQueue (mgr s') = pre ++ post
    /\ completedEvents (mgr s') = GoInt.incr (completedEvents (mgr s))
    /\ events s' = <[event := withEventCompleted true ev]> (events s)
    /\ List.filter isDeleteMessage t = [SQSDeleteMessage (queueURL ev) (receiptHandle ev)]
    /\ times (isCompleteLifecycleAction ContinueAction) t = 1%nat
    /\ times (isCompleteLifecycleAction AbandonAction) t = 0%nat
    /\ times (isCreateEventFor EventReasonLifecycleHookProcessed) t = 1%nat.
Proof.
  intros Hev Hqueue Hother.
  unfold CompleteEvent. repeat step. cbn [workQueue setAvarageLatency]. rewrite Hqueue.
  match goal with |- context [(CompleteEvent_loop _ _ _ ?nq ≫= _) ?s0] =>
    destruct (CompleteEvent_loop_removes event (queueURL ev) pre post nq s0 ev Hev Hother)
      as (t & Hrun & Hdel & Hcont & Haband & Hpub)
  end.
  erewrite run_bind by exact Hrun. repeat step.
  eexists. eexists. split; [reflexivity|]. proj. rewrite <- !app_assoc.
  split; [reflexivity|]. cbn [workQueue completedEvents setCompletedEvents setWorkQueue app].
  split; [reflexivity|]. split; [reflexivity|]. split; [reflexivity|].
  rewrite List.filter_app, !times_app, Hdel, Hcont, Haband, Hpub. cbn. auto.
Qed.

(** A queue of two notifications, the second of which completes. *)
Lemma CompleteEvent_removes_event_witness :
  let s := Fixture.start
             (setWorkQueue [2%nat; 1%nat] (Fixture.New Fixture.auth Fixture.basicContext))
             {[1%nat := Fixture.event; 2%nat := Fixture.otherEvent]} in
  otherEntries s Fixture.event ([2%nat] ++ [])
  /\ exists s' t,
       CompleteEvent 1 s = Done tt s'
       /\ trace s' = trace s ++ t
       /\ workQueue (mgr s') = [2%nat] ++ []
       /\ completedEvents (mgr s') = GoInt.incr (completedEvents (mgr s))
       /\ events s' = <[1%nat := withEventCompleted true Fixture.event]> (events s)
       /\ List.filter isDeleteMessage t
          = [SQSDeleteMessage (queueURL Fixture.event) (receiptHandle Fixture.event)]
       /\ times (isCompleteLifecycleAction ContinueAction) t = 1%nat
       /\ times (isCompleteLifecycleAction AbandonAction) t = 0%nat
       /\ times (isCreateEventFor EventReasonLifecycleHookProcessed) t = 1%nat.
Proof.
  intros s.
  assert (Hother : otherEntries s Fixture.event ([2%nat] ++ [])).
  { repeat constructor. intros e [= <-]. discriminate. }
  split; [exact Hother|].
  exact (CompleteEvent_removes_event 1%nat s Fixture.event [2%nat] [] eq_refl eq_refl Hother).
Defined.

(** X2. CompleteEvent of an event that is not in the work queue: nothing is
    deleted, reported or published and the queue and the events stay as
    they are, yet the completion is counted and the gauge of terminating
    instances is decremented. *)
Theorem CompleteEvent_unqueued_event event s ev :
  events s !! event = Some ev ->
  otherEntries s ev (workQueue (mgr s)) ->
  exists s',
    CompleteEvent event s = Done tt s'
    /\ trace s'
       = trace s ++ [DecGauge TerminatingInstancesCountMetric;
                     SetGauge AverageDurationSecondsMetric (avarageLatency (mgr s'));
                     Log LvlInfo "event %v for instance %v completed after %vs"]
    /\ workQueue (mgr s') = workQueue (mgr s)
    /\ events s' = events s
    /\ completedEvents (mgr s') = GoInt.incr (completedEvents (mgr s)).
Proof.
  intros Hev Hother.
  unfold CompleteEvent. repeat step. cbn [workQueue setAvarageLatency].
  match goal with |- context [(CompleteEvent_loop _ ?u ?q ?nq ≫= _) ?s0] =>
    rewrite (run_bind _ _ s0 _ _ (CompleteEvent_loop_skips event u q nq s0 ev Hev Hother))
  end.
  repeat step. eexists. split; [reflexivity|]. proj. rewrite <- !app_assoc.
  repeat split.
Qed.

(** The event of server_test.go completed on a manager with an empty queue. *)
Lemma CompleteEvent_unqueued_event_witness :
  let s := Fixture.start (Fixture.New Fixture.auth Fixture.basicContext)
             {[1%nat := Fixture.event]} in
  exists s',
    CompleteEvent 1 s = Done tt s'
    /\ trace s'
       = trace s ++ [DecGauge TerminatingInstancesCountMetric;
                     SetGauge AverageDurationSecondsMetric (avarageLatency (mgr s'));
                     Log LvlInfo "event %v for instance %v completed after %vs"]
    /\ workQueue (mgr s') = workQueue (mgr s)
    /\ events s' = events s
    /\ completedEvents (mgr s') = GoInt.incr (completedEvents (mgr s)).
Proof.
  intros s.
  exact (CompleteEvent_unqueued_event 1%nat s Fixture.event eq_refl (List.Forall_nil _)).
Defined.

(** ** What a stage leaves alone *)

Section Framed.
Context (kind : Call -> bool).

Lemma framed_ret {A} (a : A) : framed kind (mret a).
Proof. intros s. cbn. repeat split; auto. exists []. now rewrite app_nil_r. Qed.

Lemma framed_bind {A B} (c : M A) (k : A -> M B) :
  framed kind c -> (forall a, framed kind (k a)) -> framed kind (c ≫= k).
Proof.
  intros Hc Hk s. specialize (Hc s). unfold mbind, M_bind.
  destruct (c s) as [a s1|p s1|s1]; cbn [final] in *; try exact Hc.
  destruct Hc as (Hm & Hv & t & Ht & Hkind).
  destruct (Hk a s1) as (Hm' & Hv' & t' & Ht' & Hkind').
  split; [congruence|]. split; [auto|].
  exists (t ++ t'). rewrite Ht', Ht, <- app_assoc. split; [reflexivity|].
  now apply Forall_app.
Qed.

Lemma framed_call c : kind c = true -> framed kind (call c).
Proof. intros H s. cbn. repeat split; auto. exists [c]. split; [reflexivity|]. now constructor. Qed.

Lemma framed_getMgr : framed kind getMgr.
Proof. intros s. cbn. repeat split; auto. exists []. now rewrite app_nil_r. Qed.

Lemma framed_timeNow : framed kind timeNow.
Proof. intros s. cbn. repeat split; auto. exists []. now rewrite app_nil_r. Qed.

Lemma framed_yield : framed kind yield.
Proof.
  intros s. cbn. repeat split; [now apply valid_after_yield|].
  exists []. now rewrite app_nil_r.
Qed.

Lemma framed_deref event : framed kind (deref event).
Proof.
  intros s. unfold deref. destruct (events s !! event); cbn; repeat split; auto.
  all: exists []; now rewrite app_nil_r.
Qed.

Lemma framed_update event f : framed kind (update event f).
Proof.
  intros s. unfold update. destruct (events s !! event) eqn:He; cbn; repeat split; auto.
  - intros p Hp. rewrite lookup_insert. case_decide; eauto.
  - exists []. now rewrite app_nil_r.
  - exists []. now rewrite app_nil_r.
Qed.

Lemma framed_raise {A} p : framed kind (@raise A p).
Proof. intros s. cbn. repeat split; auto. exists []. now rewrite app_nil_r. Qed.

Lemma framed_block {A} : framed kind (@block A).
Proof. intros s. cbn. repeat split; auto. exists []. now rewrite app_nil_r. Qed.

End Framed.

Lemma framed_weaken {A} (kind kind' : Call -> bool) (c : M A) :
  (forall x, kind x = true -> kind' x = true) -> framed kind c -> framed kind' c.
Proof.
  intros Hw Hc s. destruct (Hc s) as (Hm & Hv & t & Ht & Hkind).
  repeat split; auto. exists t. split; [exact Ht|].
  eapply Forall_impl; [exact Hkind|]. exact Hw.
Qed.

Ltac framed_step :=
  first
    [ apply framed_ret
    | apply framed_getMgr
    | apply framed_timeNow
    | apply framed_yield
    | apply framed_deref
    | apply framed_update
    | apply framed_raise
    | apply framed_block
    | apply framed_call; reflexivity
    | assumption
    | apply framed_bind; [|intros]
    | match goal with
      | |- framed _ (match ?x with _ => _ end) => destruct x
      end ].

Lemma framed_publish kube reason node kind :
  kind (Log LvlDebug "publishing event: %v") = true ->
  kind (Log LvlError "failed to publish event: %v") = true ->
  kind (KubeCreateEvent reason node) = true ->
  framed kind (publishKubernetesEvent kube reason node).
Proof.
  intros H1 H2 H3. unfold publishKubernetesEvent.
  repeat first [apply framed_call; assumption | framed_step].
Qed.

Lemma framed_waitJitter max : framed isPoolCall (waitJitter max).
Proof. unfold waitJitter. repeat framed_step. Qed.

Lemma framed_findTargetGroups elbv2Client instanceID targetGroups :
  forall active,
    framed isPoolCall (findTargetGroups elbv2Client instanceID targetGroups active).
Proof.
  induction targetGroups as [|arn rest IH]; intros active; cbn [findTargetGroups].
  - framed_step.
  - unfold findInstanceInTargetGroup.
    repeat first [apply framed_waitJitter | apply IH | framed_step].
Qed.

Lemma framed_findLoadBalancers elbClient instanceID elbDescriptions :
  forall active,
    framed isPoolCall (findLoadBalancers elbClient instanceID elbDescriptions active).
Proof.
  induction elbDescriptions as [|elbName rest IH]; intros active; cbn [findLoadBalancers].
  - framed_step.
  - unfold findInstanceInClassicBalancer.
    repeat first [apply framed_waitJitter | apply IH | framed_step].
Qed.

Lemma framed_deregisterLoadBalancers event elbClient kubeClient instanceID capacity active :
  forall deregistered errChannel,
    framed isPoolCall
      (deregisterLoadBalancers event elbClient kubeClient instanceID capacity active
         deregistered errChannel).
Proof.
  induction active as [|elbName rest IH]; intros deregistered errChannel;
    cbn [deregisterLoadBalancers].
  - framed_step.
  - unfold deregisterInstance, errChannelSend.
    repeat first [apply framed_waitJitter | apply IH | apply framed_publish; reflexivity
                 | framed_step].
Qed.

Lemma framed_deregisterTargetGroups event elbv2Client kubeClient instanceID capacity active :
  forall deregistered errChannel,
    framed isPoolCall
      (deregisterTargetGroups event elbv2Client kubeClient instanceID capacity active
         deregistered errChannel).
Proof.
  induction active as [|[arn port] rest IH]; intros deregistered errChannel;
    cbn [deregisterTargetGroups].
  - framed_step.
  - unfold deregisterTarget, errChannelSend.
    repeat first [apply framed_waitJitter | apply IH | apply framed_publish; reflexivity
                 | framed_step].
Qed.

Lemma framed_wgDone st : framed isPoolCall (wgDone st).
Proof. unfold wgDone. repeat framed_step. Qed.

Lemma framed_waiterBody event w st : framed isPoolCall (waiterBody event w st).
Proof.
  unfold waiterBody, waiterFail, waitForDeregisterInstance, waitForDeregisterTarget.
  repeat first [apply framed_wgDone | apply framed_publish; reflexivity | framed_step].
Qed.

Lemma framed_runWaiters event ws :
  forall st, framed isPoolCall (runWaiters event ws st).
Proof.
  induction ws as [|w rest IH]; intros st; cbn [runWaiters].
  - framed_step.
  - repeat first [apply framed_waiterBody | apply IH | framed_step].
Qed.

Lemma framed_coordinate event sched :
  forall st, framed isPoolCall (coordinate event sched st).
Proof.
  induction sched as [|step rest IH]; intros st; cbn [coordinate].
  - repeat first [apply framed_runWaiters | framed_step].
  - destruct step as [i| |preferFinished].
    + repeat first [apply framed_waiterBody | apply IH | framed_step].
    + apply IH.
    + repeat first [apply IH | framed_step].
Qed.

Lemma framed_spawnClassicWaiters instanceID names :
  forall spawned, framed isPoolCall (spawnClassicWaiters instanceID names spawned).
Proof.
  induction names as [|elbName rest IH]; intros spawned; cbn [spawnClassicWaiters].
  - framed_step.
  - repeat first [apply framed_waitJitter | apply IH | framed_step].
Qed.

Lemma framed_spawnTargetWaiters instanceID groups :
  forall spawned, framed isPoolCall (spawnTargetWaiters instanceID groups spawned).
Proof.
  induction groups as [|[arn port] rest IH]; intros spawned; cbn [spawnTargetWaiters].
  - framed_step.
  - repeat first [apply framed_waitJitter | apply IH | framed_step].
Qed.

Lemma framed_deregisterAndWait event instanceID activeTargetGroups activeLoadBalancers sched :
  framed isPoolCall
    (deregisterAndWait event instanceID activeTargetGroups activeLoadBalancers sched).
Proof.
  unfold deregisterAndWait.
  repeat first [ apply framed_deregisterLoadBalancers | apply framed_deregisterTargetGroups
               | apply framed_spawnClassicWaiters | apply framed_spawnTargetWaiters
               | apply framed_coordinate | framed_step ].
Qed.

Lemma deregistration_is_pool c : isPoolCall c = true -> isDeregistrationCall c = true.
Proof. intros H. unfold isDeregistrationCall. now rewrite H. Qed.

Lemma framed_drainLoadbalancerTarget event sched :
  framed isDeregistrationCall (drainLoadbalancerTarget event sched).
Proof.
  unfold drainLoadbalancerTarget, labelNode.
  repeat first
    [ apply (framed_weaken _ _ _ deregistration_is_pool), framed_waitJitter
    | apply (framed_weaken _ _ _ deregistration_is_pool), framed_findTargetGroups
    | apply (framed_weaken _ _ _ deregistration_is_pool), framed_findLoadBalancers
    | apply (framed_weaken _ _ _ deregistration_is_pool), framed_deregisterAndWait
    | framed_step ].
Qed.

Lemma framed_drainNodeTarget event : framed isDrainCall (drainNodeTarget event).
Proof.
  unfold drainNodeTarget, drainNode.
  repeat first [apply framed_publish; reflexivity | framed_step].
Qed.

(** X3. Whatever the outcome of drainLoadbalancerTarget (it returns, blocks
    or panics) and whatever the schedule: the manager is as before (work
    queue, counters, average), no event was freed, and the stage has only
    made calls of its own kind: it never talks to the queue or the scaling
    group, drains or annotates no node and moves no gauge. *)
Theorem drainLoadbalancerTarget_frame event sched s :
  mgr (final (drainLoadbalancerTarget event sched s)) = mgr s
  /\ (forall p, is_Some (events s !! p) ->
        is_Some (events (final (drainLoadbalancerTarget event sched s)) !! p))
  /\ exists t,
       trace (final (drainLoadbalancerTarget event sched s)) = trace s ++ t
       /\ Forall (fun c => isDeregistrationCall c = true) t.
Proof. exact (framed_drainLoadbalancerTarget event sched s). Qed.

Lemma times_none (kind other : Call -> bool) t :
  (forall c, kind c = true -> other c = false) ->
  Forall (fun c => kind c = true) t -> times other t = 0%nat.
Proof.
  intros Hk. induction 1 as [|c t Hc _ IH]; [reflexivity|].
  unfold times in *. cbn [List.filter]. now rewrite (Hk c Hc).
Qed.

Lemma deregistration_not_gauge m c :
  isDeregistrationCall c = true -> isIncGauge m c = false /\ isDecGauge m c = false.
Proof. destruct c; try discriminate; auto. Qed.

Lemma handling_is_deregistration c : isDeregistrationCall c = true -> isHandlingCall c = true.
Proof. intros H. unfold isHandlingCall. now rewrite H. Qed.

Lemma handling_is_drain c : isDrainCall c = true -> isHandlingCall c = true.
Proof. intros H. unfold isHandlingCall. rewrite H. apply orb_true_iff. left. apply orb_true_r. Qed.

Section HandleEvent.
Variable serializeMessage : option Message -> string * option error.

Lemma framed_handleEvent event sched :
  framed isHandlingCall (handleEvent serializeMessage event sched).
Proof.
  unfold handleEvent, annotateNode.
  repeat first
    [ apply (framed_weaken _ _ _ handling_is_drain), framed_drainNodeTarget
    | apply (framed_weaken _ _ _ handling_is_deregistration), framed_drainLoadbalancerTarget
    | framed_step ].
Qed.

Lemma handleEvent_outcome event sched s ev :
  events s !! event = Some ev ->
  match handleEvent serializeMessage event sched s with
  | Done r s' =>
      exists t,
        trace s' = trace s ++ t
        /\ times (isIncGauge DrainingInstancesCountMetric) t = 1%nat
        /\ times (isDecGauge DrainingInstancesCountMetric) t
           = (if drainResult s ev is Some _ then 2 else 1)%nat
        /\ times (isIncGauge DeregisteringInstancesCountMetric) t = 1%nat
        /\ times (isDecGauge DeregisteringInstancesCountMetric) t
           = (if r is Some _ then 2 else 1)%nat
  | Blocked _ => True
  | Panicked _ _ => False
  end.
Proof.
  intros Hev. unfold handleEvent, annotateNode. repeat step.
  destruct (serializeMessage (message ev)) as [storeMessage [err|]]; repeat step.
  all: unfold drainNodeTarget, drainNode; repeat step; fold (drainResult s ev).
  all: destruct (drainResult s ev) as [e|]; repeat step'.
  all: match goal with |- context [(drainLoadbalancerTarget ?e ?sc ≫= _) ?s0] =>
         pose proof (framed_drainLoadbalancerTarget e sc s0) as (_ & Hval & t & Ht & Hkind);
         assert (Hv : is_Some (events s0 !! e))
           by (proj; first [rewrite lookup_insert_eq; eauto | eauto]);
         pose proof (drainLoadbalancerTarget_returns e sc s0 Hv) as Hret;
         destruct (drainLoadbalancerTarget e sc s0) as [r s1|p s1|s1] eqn:Hrun;
         [ erewrite run_bind by exact Hrun
         | destruct Hret
         | erewrite run_bind_block by exact Hrun; exact I ]
       end.
  all: destruct Hret as (n & d & (t' & Ht' & _) & _).
  all: cbn [final] in Ht; proj.
  all: assert (Hinc : times (isIncGauge DrainingInstancesCountMetric) t = 0%nat
                      /\ times (isDecGauge DrainingInstancesCountMetric) t = 0%nat
                      /\ times (isIncGauge DeregisteringInstancesCountMetric) t = 0%nat
                      /\ times (isDecGauge DeregisteringInstancesCountMetric) t = 0%nat)
         by (repeat split; eapply times_none; try exact Hkind; intros c Hc;
             apply (deregistration_not_gauge _ c Hc)).
  all: destruct Hinc as (Hi1 & Hd1 & Hi2 & Hd2).
  all: cbn [final] in Hval; destruct (Hval event Hv) as [evx Hevx].
  all: destruct r as [e'|]; repeat step.
  all: try (erewrite run_deref by (proj; exact Hevx); repeat step).
  all: cbn; eexists; (split; [rewrite Ht; proj; rewrite <- ?app_assoc; reflexivity|]).
  all: destruct (CreateEvent _ _ _).
  all: rewrite ?times_app, ?Hi1, ?Hd1, ?Hi2, ?Hd2; cbn; auto.
Qed.

End HandleEvent.

(** X4. A run of handleEvent on an allocated event does not panic; when it
    returns, each of the two stage gauges was incremented once, and
    decremented once when its stage succeeded but twice when its stage
    failed: the gauge of draining instances twice when the drain tool
    failed, the gauge of deregistering instances twice when handleEvent
    returns an error. *)
Theorem handleEvent_gauge_accounting serializeMessage event sched s ev :
  events s !! event = Some ev ->
  match handleEvent serializeMessage event sched s with
  | Done r s' =>
      exists t,
        trace s' = trace s ++ t
        /\ times (isIncGauge DrainingInstancesCountMetric) t = 1%nat
        /\ times (isDecGauge DrainingInstancesCountMetric) t
           = (if drainResult s ev is Some _ then 2 else 1)%nat
        /\ times (isIncGauge DeregisteringInstancesCountMetric) t = 1%nat
        /\ times (isDecGauge DeregisteringInstancesCountMetric) t
           = (if r is Some _ then 2 else 1)%nat
  | Blocked _ => True
  | Panicked _ _ => False
  end.
Proof. exact (handleEvent_outcome serializeMessage event sched s ev). Qed.

(** A failing drain with the deregistration stage disabled. *)
Lemma handleEvent_gauge_accounting_witness :
  let s := Fixture.start (Fixture.New Fixture.failingDrainAuth Fixture.basicContext)
             {[1%nat := Fixture.event]} in
  drainResult s Fixture.event = Some (PlainError "failed to drain node")
  /\ match handleEvent Fixture.serializeMessage 1 [] s with
     | Done r s' =>
         exists t,
           trace s' = trace s ++ t
           /\ times (isIncGauge DrainingInstancesCountMetric) t = 1%nat
           /\ times (isDecGauge DrainingInstancesCountMetric) t
              = (if drainResult s Fixture.event is Some _ then 2 else 1)%nat
           /\ times (isIncGauge DeregisteringInstancesCountMetric) t = 1%nat
           /\ times (isDecGauge DeregisteringInstancesCountMetric) t
              = (if r is Some _ then 2 else 1)%nat
     | Blocked _ => True
     | Panicked _ _ => False
     end.
Proof.
  intros s. split; [reflexivity|].
  exact (handleEvent_gauge_accounting Fixture.serializeMessage 1%nat [] s Fixture.event eq_refl).
Defined.

(** ** Process and the failure path of the worker *)

Lemma handling_keeps_bookkeeping c :
  isHandlingCall c = true ->
  isIncGauge TerminatingInstancesCountMetric c = false
  /\ isDecGauge TerminatingInstancesCountMetric c = false
  /\ isCompleteLifecycleAction ContinueAction c = false
  /\ isCompleteLifecycleAction AbandonAction c = false
  /\ isDeleteMessage c = false.
Proof. destruct c as [| | | | | | | |m|m| | | | | | | | | | | | | | | | |]; try destruct m; try discriminate; auto. Qed.

Lemma FailEvent_frame s err event abandon e :
  events s !! event = Some e ->
  exists s' t,
    FailEvent err event abandon s = Done tt s'
    /\ trace s' = trace s ++ t
    /\ mgr s' = setFailedEvents (GoInt.incr (failedEvents (mgr s))) (mgr s)
    /\ times (isIncGauge TerminatingInstancesCountMetric) t = 0%nat
    /\ times (isDecGauge TerminatingInstancesCountMetric) t = 0%nat
    /\ times (isCompleteLifecycleAction ContinueAction) t = 0%nat
    /\ times (isCompleteLifecycleAction AbandonAction) t = (if abandon then 1 else 0)%nat
    /\ times isDeleteMessage t = 1%nat.
Proof.
  intros He. unfold FailEvent.
  repeat step'. destruct abandon.
  all: repeat first [step' | rewrite DeepEqual_pointer_struct | case_stub].
  all: eexists; eexists; (split; [reflexivity|]); proj.
  all: rewrite <- ?app_assoc; (split; [reflexivity|]).
  all: repeat split; try reflexivity.
Qed.


Section ProcessProps.
Variable serializeMessage : option Message -> string * option error.

(** X5. When Process returns an error (the worker then calls FailEvent with
    abandon set): FailEvent returns, and after it the event is still the
    last entry of the work queue, the gauge of terminating instances was
    incremented and never decremented, ABANDON was reported once, CONTINUE
    never, the message was deleted once, and the failed counter went up by
    one while the completed counter did not move. Process itself does not
    panic on an allocated event. *)
Theorem failed_event_stays_queued event sched s ev :
  events s !! event = Some ev ->
  match Process serializeMessage event sched s with
  | Done (Some e) s1 =>
      exists s' t,
        FailEvent (Some e) event true s1 = Done tt s'
        /\ trace s' = trace s ++ t
        /\ workQueue (mgr s') = workQueue (mgr s) ++ [event]
        /\ completedEvents (mgr s') = completedEvents (mgr s)
        /\ failedEvents (mgr s') = GoInt.incr (failedEvents (mgr s))
        /\ times (isIncGauge TerminatingInstancesCountMetric) t = 1%nat
        /\ times (isDecGauge TerminatingInstancesCountMetric) t = 0%nat
        /\ times (isCompleteLifecycleAction ContinueAction) t = 0%nat
        /\ times (isCompleteLifecycleAction AbandonAction) t = 1%nat
        /\ times isDeleteMessage t = 1%nat
  | Done None _ | Blocked _ => True
  | Panicked _ _ => False
  end.
Proof.
  intros Hev. unfold Process, AddEvent. repeat step.
  match goal with |- context [(handleEvent _ ?e ?sc ≫= _) ?s0] =>
    pose proof (framed_handleEvent serializeMessage e sc s0) as (Hm & Hval & t & Ht & Hkind);
    assert (Hev0 : events s0 !! e = Some (withEventTimeStarted (wallClock s (clockReads s)) ev))
      by (proj; apply lookup_insert_eq);
    pose proof (handleEvent_outcome serializeMessage e sc s0 _ Hev0) as Hout;
    destruct (handleEvent serializeMessage e sc s0) as [r s1|p s1|s1] eqn:Hrun;
    [ erewrite run_bind by exact Hrun
    | destruct Hout
    | erewrite run_bind_block by exact Hrun; exact I ]
  end.
  cbn [final] in Hm, Hval, Ht. proj.
  destruct (Hval event) as [ev1 Hev1]; [proj; rewrite lookup_insert_eq; eauto|].
  destruct r as [e|].
  - cbn.
    destruct (FailEvent_frame s1 (Some e) event true ev1 Hev1)
      as (s' & t' & Hfail & Ht' & Hm' & Hi & Hd & Hc & Ha & Hdel).
    exists s'. eexists. split; [exact Hfail|].
    rewrite Ht', Ht, Hm', Hm. proj. rewrite <- !app_assoc.
    split; [reflexivity|]. cbn [workQueue completedEvents failedEvents setFailedEvents setWorkQueue].
    repeat (split; [reflexivity|]).
    rewrite !times_app, Hi, Hd, Hc, Ha, Hdel.
    assert (H0 : times (isIncGauge TerminatingInstancesCountMetric) t = 0%nat
                 /\ times (isDecGauge TerminatingInstancesCountMetric) t = 0%nat
                 /\ times (isCompleteLifecycleAction ContinueAction) t = 0%nat
                 /\ times (isCompleteLifecycleAction AbandonAction) t = 0%nat
                 /\ times isDeleteMessage t = 0%nat)
      by (repeat split; eapply times_none; try exact Hkind; intros c Hc';
          apply (handling_keeps_bookkeeping c Hc')).
    destruct H0 as (-> & -> & -> & -> & ->). cbn. auto.
  - destruct (CompleteEvent_returns event s1 ev1 Hev1) as (s2 & Hrun2 & _).
    erewrite run_bind by exact Hrun2. exact I.
Qed.


End ProcessProps.

(** The second of two classic balancers refuses the deregistration. *)
Lemma failed_event_stays_queued_witness :
  let s := Fixture.start (Fixture.New Fixture.halfFailingAuth Fixture.deregisterContext)
             {[1%nat := Fixture.event]} in
  (exists e s1, Process Fixture.serializeMessage 1 [] s = Done (Some e) s1)
  /\ match Process Fixture.serializeMessage 1 [] s with
     | Done (Some e) s1 =>
         exists s' t,
           FailEvent (Some e) 1 true s1 = Done tt s'
           /\ trace s' = trace s ++ t
           /\ workQueue (mgr s') = workQueue (mgr s) ++ [1%nat]
           /\ completedEvents (mgr s') = completedEvents (mgr s)
           /\ failedEvents (mgr s') = GoInt.incr (failedEvents (mgr s))
           /\ times (isIncGauge TerminatingInstancesCountMetric) t = 1%nat
           /\ times (isDecGauge TerminatingInstancesCountMetric) t = 0%nat
           /\ times (isCompleteLifecycleAction ContinueAction) t = 0%nat
           /\ times (isCompleteLifecycleAction AbandonAction) t = 1%nat
           /\ times isDeleteMessage t = 1%nat
     | Done None _ | Blocked _ => True
     | Panicked _ _ => False
     end.
Proof.
  intros s. split; [eexists; eexists; vm_compute; reflexivity|].
  exact (failed_event_stays_queued Fixture.serializeMessage 1%nat [] s Fixture.event eq_refl).
Defined.


(** ** The two stages *)

(** X7. drainNodeTarget on an allocated event returns what the drain tool
    answered for the node of the event, after one attempt; the manager is
    untouched; on success the event is marked drained, the success counter
    is incremented and one NodeDrainSucceeded cluster event is published; on
    failure the event is left as it is and the one cluster event published
    is NodeDrainFailed. *)
Theorem drainNodeTarget_reports_drain event s ev :
  events s !! event = Some ev ->
  exists s' t,
    drainNodeTarget event s = Done (drainResult s ev) s'
    /\ trace s' = trace s ++ t
    /\ mgr s' = mgr s
    /\ events s'
       = (if drainResult s ev is Some _ then events s
          else <[event := withDrainCompleted true ev]> (events s))
    /\ List.filter isKubectlDrain t
       = [KubectlDrain (Name (referencedNode ev)) (DrainTimeoutSeconds (context (mgr s)))
            (DrainRetryIntervalSeconds (context (mgr s)))]
    /\ List.filter isCreateEvent t
       = [KubeCreateEvent
            (if drainResult s ev is Some _ then EventReasonNodeDrainFailed
             else EventReasonNodeDrainSucceeded)
            (Name (referencedNode ev))]
    /\ times (isAddCounter SuccessfulNodeDrainTotalMetric) t
       = (if drainResult s ev is Some _ then 0 else 1)%nat.
Proof.
  intros Hev. unfold drainNodeTarget, drainNode. repeat step.
  fold (drainResult s ev). destruct (drainResult s ev) as [e|]; repeat step'.
  all: eexists; eexists; (split; [reflexivity|]); proj; rewrite <- ?app_assoc.
  all: (split; [reflexivity|]); (split; [reflexivity|]); (split; [reflexivity|]).
  all: destruct (CreateEvent _ _ _); repeat split.
Qed.

(** A drain tool that fails. *)
Lemma drainNodeTarget_reports_drain_witness :
  let s := Fixture.start (Fixture.New Fixture.failingDrainAuth Fixture.basicContext)
             {[1%nat := Fixture.event]} in
  exists s' t,
    drainNodeTarget 1 s = Done (drainResult s Fixture.event) s'
    /\ trace s' = trace s ++ t
    /\ mgr s' = mgr s
    /\ events s'
       = (if drainResult s Fixture.event is Some _ then events s
          else <[1%nat := withDrainCompleted true Fixture.event]> (events s))
    /\ List.filter isKubectlDrain t
       = [KubectlDrain (Name (referencedNode Fixture.event))
            (DrainTimeoutSeconds (context (mgr s)))
            (DrainRetryIntervalSeconds (context (mgr s)))]
    /\ List.filter isCreateEvent t
       = [KubeCreateEvent
            (if drainResult s Fixture.event is Some _ then EventReasonNodeDrainFailed
             else EventReasonNodeDrainSucceeded)
            (Name (referencedNode Fixture.event))]
    /\ times (isAddCounter SuccessfulNodeDrainTotalMetric) t
       = (if drainResult s Fixture.event is Some _ then 0 else 1)%nat.
Proof.
  intros s. exact (drainNodeTarget_reports_drain 1%nat s Fixture.event eq_refl).
Defined.

(** X8. With deregistration enabled, an error of the exclusion label, of the
    listing of the target groups or of the listing of the classic balancers
    ends the stage: it is returned as it is (not wrapped), no pool has been
    asked about or deregistered from, no waiter was started and no success
    is counted. *)
Theorem listing_error_ends_deregistration event sched s ev e :
  events s !! event = Some ev ->
  WithDeregister (context (mgr s)) = true ->
  (let auth := authenticator (mgr s) in
   let label := KubectlLabelNode (KubernetesClient auth) (Name (referencedNode ev))
                  ExcludeLabelKey ExcludeLabelValue in
   label = Some e
   \/ (label = None /\ (DescribeTargetGroupsPages (ELBv2Client auth)).2 = Some e)
   \/ (label = None /\ (DescribeTargetGroupsPages (ELBv2Client auth)).2 = None
       /\ (DescribeLoadBalancersPages (ELBClient auth)).2 = Some e)) ->
  exists s' t,
    drainLoadbalancerTarget event sched s = Done (Some e) s'
    /\ trace s' = trace s ++ t
    /\ mgr s' = mgr s
    /\ times isPoolRequest t = 0%nat
    /\ spawns t = 0%nat
    /\ times (isAddCounter SuccessfulLBDeregisterTotalMetric) t = 0%nat.
Proof.
  intros Hev Hwith Hcases. cbv zeta in Hcases.
  unfold drainLoadbalancerTarget. repeat step. rewrite Hwith. cbn [negb].
  rewrite run_waitJitter. proj. unfold labelNode. repeat step.
  destruct Hcases as [Hlabel|[(Hlabel & Htg)|(Hlabel & Htg & Helb)]]; rewrite Hlabel.
  - eexists. eexists. split; [reflexivity|]. proj. rewrite <- !app_assoc.
    split; [reflexivity|]. repeat split.
  - step. destruct (_ <=? _); repeat step.
    all: destruct (DescribeTargetGroupsPages _) as [pages err]; cbn [snd] in Htg; subst err.
    all: eexists; eexists; (split; [reflexivity|]); proj; rewrite <- !app_assoc.
    all: (split; [reflexivity|]); repeat split.
  - step. destruct (_ <=? _); repeat step.
    all: destruct (DescribeTargetGroupsPages _) as [pages err]; cbn [snd] in Htg; subst err.
    all: repeat step.
    all: destruct (DescribeLoadBalancersPages _) as [pages' err]; cbn [snd] in Helb; subst err.
    all: eexists; eexists; (split; [reflexivity|]); proj; rewrite <- !app_assoc.
    all: (split; [reflexivity|]); repeat split.
Qed.

(** The listing of the target groups fails. *)
Lemma listing_error_ends_deregistration_witness :
  let s := Fixture.start (Fixture.New Fixture.failingListAuth Fixture.deregisterContext)
             {[1%nat := Fixture.event]} in
  exists s' t,
    drainLoadbalancerTarget 1 [] s = Done (Some (PlainError "listing failed")) s'
    /\ trace s' = trace s ++ t
    /\ mgr s' = mgr s
    /\ times isPoolRequest t = 0%nat
    /\ spawns t = 0%nat
    /\ times (isAddCounter SuccessfulLBDeregisterTotalMetric) t = 0%nat.
Proof.
  intros s.
  apply (listing_error_ends_deregistration 1%nat [] s Fixture.event
           (PlainError "listing failed") eq_refl eq_refl).
  right. left. split; reflexivity.
Defined.

Lemma pool_not_prologue c :
  isPoolCall c = true -> isFlushCache c = false /\ isKubectlLabel c = false.
Proof. destruct c; try discriminate; auto. Qed.

(** [int(now.Sub(created).Minutes()) <= 90] holds up to the 91st minute,
    and for a creation time in the future. *)
Lemma nodeAge_young now created :
  (nodeAgeMinutes now created <=? NodeAgeCacheTTL)
  = bool_decide (now - created < 5460000000000).
Proof.
  unfold nodeAgeMinutes, NodeAgeCacheTTL.
  pose proof (Z.quot_rem' (now - created) 60000000000) as Hqr.
  destruct (Z.le_gt_cases 0 (now - created)) as [Hpos|Hneg].
  - assert (Hm : 0 < 60000000000) by lia.
    pose proof (Z.rem_bound_pos (now - created) 60000000000 Hpos Hm).
    case_bool_decide; [apply Z.leb_le | apply Z.leb_gt]; lia.
  - assert (Hq : Z.quot (now - created) 60000000000 <= 0).
    { replace (now - created) with (- (created - now)) by lia.
      rewrite Z.quot_opp_l by lia.
      assert (0 <= Z.quot (created - now) 60000000000) by (apply Z.quot_pos; lia). lia. }
    rewrite bool_decide_eq_true_2 by lia. apply Z.leb_le. lia.
Qed.

(** X9. In every run of the stage that gets past the exclusion label, whatever
    its outcome, the node is labelled once and the two caches are flushed
    (two FlushCache calls) exactly when the node was created less than 91
    minutes before the clock reading, a creation time in the future
    included; otherwise no cache is flushed. *)
Theorem caches_flushed_for_young_node event sched s ev :
  events s !! event = Some ev ->
  WithDeregister (context (mgr s)) = true ->
  KubectlLabelNode (KubernetesClient (authenticator (mgr s))) (Name (referencedNode ev))
    ExcludeLabelKey ExcludeLabelValue = None ->
  exists t,
    trace (final (drainLoadbalancerTarget event sched s)) = trace s ++ t
    /\ times isKubectlLabel t = 1%nat
    /\ times isFlushCache t
       = if bool_decide (wallClock s (clockReads s) - CreationTimestamp (referencedNode ev)
                         < 5460000000000)
         then 2%nat else 0%nat.
Proof.
  intros Hev Hwith Hlabel.
  unfold drainLoadbalancerTarget. repeat step. rewrite Hwith. cbn [negb].
  rewrite run_waitJitter. proj. unfold labelNode. repeat step. rewrite Hlabel.
  step. rewrite nodeAge_young.
  assert (Hrest : forall (c : M (option error)) s0,
            framed isPoolCall c ->
            exists t, trace (final (c s0)) = trace s0 ++ t
                      /\ times isKubectlLabel t = 0%nat /\ times isFlushCache t = 0%nat).
  { intros c s0 Hc. destruct (Hc s0) as (_ & _ & t & Ht & Hkind).
    exists t. split; [exact Ht|].
    split; eapply times_none; try exact Hkind; intros x Hx; apply (pool_not_prologue x Hx). }
  assert (Hnone : forall s0, exists t : list Call,
            trace s0 = trace s0 ++ t
            /\ times isKubectlLabel t = 0%nat /\ times isFlushCache t = 0%nat).
  { intros s0. exists []. rewrite app_nil_r. auto. }
  case_bool_decide; repeat step.
  all: destruct (DescribeTargetGroupsPages _) as [pages [e|]]; repeat step.
  all: try destruct (DescribeLoadBalancersPages _) as [pages' [e|]]; repeat step.
  all: match goal with
       | |- context [final (mret _ ?s0)] =>
           destruct (Hnone s0) as (t & Ht & Hl & Hf); cbn [final]; unfold mret, M_ret
       | |- context [final (?c ?s0)] =>
           destruct (Hrest c s0) as (t & Ht & Hl & Hf)
       end.
  all: try (repeat first
              [ apply framed_findTargetGroups | apply framed_findLoadBalancers
              | apply framed_deregisterAndWait | framed_step ]).
  all: cbn [final]; rewrite Ht; proj; rewrite <- !app_assoc.
  all: eexists; (split; [reflexivity|]).
  all: unfold times in *; rewrite !List.filter_app, !length_app.
  all: cbn [app List.filter isKubectlLabel isFlushCache length]; rewrite Hl, Hf.
  all: split; reflexivity.
Qed.

(** The node of the test event, created at the epoch, one clock tick old. *)
Lemma caches_flushed_for_young_node_witness :
  let s := Fixture.start (Fixture.New Fixture.auth Fixture.deregisterContext)
             {[1%nat := Fixture.event]} in
  exists t,
    trace (final (drainLoadbalancerTarget 1 [] s)) = trace s ++ t
    /\ times isKubectlLabel t = 1%nat
    /\ times isFlushCache t
       = if bool_decide (wallClock s (clockReads s)
                         - CreationTimestamp (referencedNode Fixture.event) < 5460000000000)
         then 2%nat else 0%nat.
Proof.
  intros s.
  exact (caches_flushed_for_young_node 1%nat [] s Fixture.event eq_refl eq_refl eq_refl).
Defined.

Lemma find_target_some (descs : list (string * Z)) instanceID desc :
  find (fun d => bool_decide (d.1 = instanceID)) descs = Some desc ->
  (instanceID, desc.2) ∈ descs.
Proof.
  intros H. apply find_some in H as [Hin Heq]. apply bool_decide_eq_true in Heq.
  apply list_elem_of_In. destruct desc as [i p]. cbn in *. now subst.
Qed.

Lemma find_target_none (descs : list (string * Z)) instanceID port :
  find (fun d => bool_decide (d.1 = instanceID)) descs = None ->
  (instanceID, port) ∈ descs -> False.
Proof.
  intros H Hin. apply list_elem_of_In in Hin.
  pose proof (find_none _ _ H _ Hin) as Hf. cbn in Hf.
  now apply bool_decide_eq_false in Hf.
Qed.

Lemma findTargetGroups_scan elbv2Client instanceID targetGroups :
  forall active s,
    exists r s',
      findTargetGroups elbv2Client instanceID targetGroups active s = Done r s'
      /\ mgr s' = mgr s
      /\ match r with
         | inl e =>
             exists arn descs,
               arn ∈ targetGroups
               /\ DescribeTargetHealth elbv2Client arn = (descs, Some e)
               /\ hasCode e ErrCodeTargetGroupNotFoundException = false
         | inr found => membersOf elbv2Client instanceID targetGroups active found
         end.
Proof.
  induction targetGroups as [|arn0 rest IH]; intros active s.
  - exists (inr active), s. split; [reflexivity|]. split; [reflexivity|].
    split; [auto|]. split; [|auto]. intros arn descs port Hin. now apply elem_of_nil in Hin.
  - cbn [findTargetGroups]. rewrite run_waitJitter. proj.
    unfold findInstanceInTargetGroup. repeat step.
    destruct (DescribeTargetHealth elbv2Client arn0) as [descs0 [err|]] eqn:Hd.
    + repeat step. destruct (hasCode err _) eqn:Hcode.
      * step.
        match goal with |- context [findTargetGroups _ _ _ ?a ?s0] =>
          destruct (IH a s0) as (r & s' & Hrun & Hm & Hr) end.
        exists r, s'. split; [exact Hrun|]. split; [exact Hm|].
        destruct r as [e|found].
        { destruct Hr as (arn & descs & Hin & Hdesc & Hc).
          exists arn, descs. split; [now right | auto]. }
        destruct Hr as (H1 & H2 & H3). split; [|split]; [| |exact H3].
        { intros arn port Hf. destruct (H1 arn port Hf) as [|(Hin & Hx)]; [now left|].
          right. split; [now right | exact Hx]. }
        { intros arn descs port Hin Hdesc Hmem.
          apply elem_of_cons in Hin as [->|Hin]; [congruence|]. eauto. }
      * exists (inl err). eexists. split; [reflexivity|]. split; [reflexivity|].
        exists arn0, descs0. split; [now left | auto].
    + destruct (find _ descs0) as [desc|] eqn:Hfind; repeat step.
      * match goal with |- context [findTargetGroups _ _ _ ?a ?s0] =>
          destruct (IH a s0) as (r & s' & Hrun & Hm & Hr) end.
        exists r, s'. split; [exact Hrun|]. split; [exact Hm|].
        destruct r as [e|found].
        { destruct Hr as (arn & descs & Hin & Hdesc & Hc).
          exists arn, descs. split; [now right | auto]. }
        destruct Hr as (H1 & H2 & H3).
        assert (Hfirst : forall arn port, found !! arn = Some port ->
                  active !! arn = Some port
                  \/ (arn ∈ arn0 :: rest
                      /\ exists descs, DescribeTargetHealth elbv2Client arn = (descs, None)
                                       /\ (instanceID, port) ∈ descs)).
        { intros arn port Hf. destruct (H1 arn port Hf) as [Hins|(Hin & Hx)].
          - destruct (decide (arn0 = arn)) as [<-|Hne].
            + rewrite lookup_insert_eq in Hins. injection Hins as <-.
              right. split; [now left|]. exists descs0. split; [exact Hd|].
              now apply find_target_some.
            + rewrite lookup_insert_ne in Hins by exact Hne. now left.
          - right. split; [now right | exact Hx]. }
        split; [exact Hfirst|]. split.
        { intros arn descs port Hin Hdesc Hmem.
          apply elem_of_cons in Hin as [->|Hin]; [|eauto].
          destruct (H3 arn0) as [port' Hport']; [rewrite lookup_insert_eq; eauto|].
          exists port'. split; [exact Hport'|].
          destruct (Hfirst arn0 port' Hport') as [Hact|(_ & descs' & Hdesc' & Hmem')].
          - destruct (H1 arn0 port' Hport') as [Hins|(_ & descs' & Hdesc' & Hmem')].
            + rewrite lookup_insert_eq in Hins. injection Hins as <-.
              apply find_target_some in Hfind. congruence.
            + congruence.
          - congruence. }
        { intros arn Hsome. apply H3. rewrite lookup_insert. case_decide; eauto. }
      * match goal with |- context [findTargetGroups _ _ _ ?a ?s0] =>
          destruct (IH a s0) as (r & s' & Hrun & Hm & Hr) end.
        exists r, s'. split; [exact Hrun|]. split; [exact Hm|].
        destruct r as [e|found].
        { destruct Hr as (arn & descs & Hin & Hdesc & Hc).
          exists arn, descs. split; [now right | auto]. }
        destruct Hr as (H1 & H2 & H3). split; [|split]; [| |exact H3].
        { intros arn port Hf. destruct (H1 arn port Hf) as [|(Hin & Hx)]; [now left|].
          right. split; [now right | exact Hx]. }
        { intros arn descs port Hin Hdesc Hmem.
          apply elem_of_cons in Hin as [->|Hin]; [|eauto].
          exfalso. rewrite Hd in Hdesc. injection Hdesc as <-.
          exact (find_target_none _ _ _ Hfind Hmem). }
Qed.

(** X10. The membership scan over the target groups always returns. When it
    returns an error, that is the error of a target-health query of a listed
    group whose code is not TargetGroupNotFound. Otherwise the groups it
    marks active are exactly the listed groups whose target-health query
    succeeded with the instance among the targets, each with a port the
    instance is registered with; groups whose query answered
    TargetGroupNotFound are skipped. *)
Theorem findTargetGroups_marks_members elbv2Client instanceID targetGroups s :
  exists r s',
    findTargetGroups elbv2Client instanceID targetGroups ∅ s = Done r s'
    /\ mgr s' = mgr s
    /\ match r with
       | inl e =>
           exists arn descs,
             arn ∈ targetGroups
             /\ DescribeTargetHealth elbv2Client arn = (descs, Some e)
             /\ hasCode e ErrCodeTargetGroupNotFoundException = false
       | inr found =>
           (forall arn port, found !! arn = Some port ->
              arn ∈ targetGroups
              /\ exists descs, DescribeTargetHealth elbv2Client arn = (descs, None)
                               /\ (instanceID, port) ∈ descs)
           /\ (forall arn descs port,
                 arn ∈ targetGroups ->
                 DescribeTargetHealth elbv2Client arn = (descs, None) ->
                 (instanceID, port) ∈ descs ->
                 exists port', found !! arn = Some port' /\ (instanceID, port') ∈ descs)
       end.
Proof.
  destruct (findTargetGroups_scan elbv2Client instanceID targetGroups ∅ s)
    as (r & s' & Hrun & Hm & Hr).
  exists r, s'. split; [exact Hrun|]. split; [exact Hm|].
  destruct r as [e|found]; [exact Hr|].
  destruct Hr as (H1 & H2 & _). split; [|exact H2].
  intros arn port Hf. destruct (H1 arn port Hf) as [Hempty|H]; [|exact H].
  now rewrite lookup_empty in Hempty.
Qed.

Lemma collectPages_marked {A} (front : list (Page A)) :
  forall rest acc,
    Forall (fun page => is_Some (NextMarker page)) front ->
    collectPages (front ++ rest) acc
    = collectPages rest (acc ++ concat (map PageItems front)).
Proof.
  induction front as [|page front IH]; intros rest acc Hmarked.
  - cbn. now rewrite app_nil_r.
  - inversion Hmarked as [|? ? [marker Hm] Hfront]; subst.
    cbn [app collectPages map concat]. rewrite Hm, IH by exact Hfront.
    now rewrite <- app_assoc.
Qed.

(** X11. The callback of the two paginated listings: while the pages carry a
    NextMarker their items are collected in order; the first page without
    one is collected as well and ends the listing, whatever comes after
    it. *)
Theorem collectPages_stops_at_last_page {A} (front : list (Page A)) acc :
  Forall (fun page => is_Some (NextMarker page)) front ->
  collectPages front acc = acc ++ concat (map PageItems front)
  /\ forall last rest,
       NextMarker last = None ->
       collectPages (front ++ last :: rest) acc
       = acc ++ concat (map PageItems front) ++ PageItems last.
Proof.
  intros Hmarked. split.
  - rewrite <- (app_nil_r front) at 1. now rewrite collectPages_marked.
  - intros last rest Hlast. rewrite collectPages_marked by exact Hmarked.
    cbn [collectPages]. now rewrite Hlast, <- app_assoc.
Qed.

(** A marked page followed by any last page. *)
Lemma collectPages_stops_at_last_page_witness :
  let front := [mkPage ["tg-1"; "tg-2"] (Some "marker")] in
  collectPages front [] = [] ++ concat (map PageItems front)
  /\ forall last rest,
       NextMarker last = None ->
       collectPages (front ++ last :: rest) []
       = [] ++ concat (map PageItems front) ++ PageItems last.
Proof.
  intros front. apply (collectPages_stops_at_last_page front []).
  repeat constructor. eexists. reflexivity.
Defined.

(** ** The error channel and the wait group *)

Lemma deregisterLoadBalancers_room event elbClient kubeClient instanceID capacity active :
  forall deregistered errChannel s,
    is_Some (events s !! event) ->
    Z.of_nat (length errChannel + length active) <= capacity ->
    exists r s' t,
      deregisterLoadBalancers event elbClient kubeClient instanceID capacity active
        deregistered errChannel s = Done r s'
      /\ trace s' = trace s ++ t
      /\ Forall (fun c => isDeregistrationCall c = true) t
      /\ is_Some (events s' !! event)
      /\ forall d c, r = inr (d, c) ->
           (length c + length d <= length errChannel + length deregistered + length active)%nat.
Proof.
  induction active as [|elbName rest IH]; intros deregistered errChannel s [ev Hev] Hroom.
  - eexists. exists s, []. rewrite app_nil_r. split; [reflexivity|].
    split; [reflexivity|]. split; [constructor|]. split; [eauto|].
    intros d c [= <- <-]. lia.
  - cbn [deregisterLoadBalancers]. step. cbn [length] in Hroom.
    destruct (eventCompleted ev).
    { eexists. exists s, []. rewrite app_nil_r. split; [reflexivity|].
      split; [reflexivity|]. split; [constructor|]. split; [eauto|]. discriminate. }
    rewrite run_waitJitter. proj.
    pose proof (lookup_after_yield (others s (sleeps s)) (events s) event ev Hev) as Hev'.
    unfold deregisterInstance. repeat step.
    destruct (DeregisterInstancesFromLoadBalancer _ _ _) as [e|].
    + destruct (hasCode e ErrCodeAccessPointNotFoundException);
        [|destruct (hasCode e ErrCodeInvalidEndPointException)].
      1,2: step.
      3: step; rewrite run_errChannelSend by lia; proj;
         erewrite run_deref by exact Hev'; rewrite run_publish; proj.
      all: match goal with |- context [deregisterLoadBalancers _ _ _ _ _ _ ?d ?c ?s0] =>
             destruct (IH d c s0) as (r & s' & t & Hrun & Ht & Hkind & Hv & Hlen);
               [proj; eauto | rewrite ?length_app; cbn [length]; lia |] end.
      all: exists r, s'; eexists; (split; [exact Hrun|]).
      all: rewrite Ht; proj; rewrite <- !app_assoc; (split; [reflexivity|]).
      all: split; [|split; [exact Hv|]].
      all: try (intros d c Hr; specialize (Hlen d c Hr); rewrite ?length_app in Hlen;
                cbn [length] in *; lia).
      all: try destruct (CreateEvent _ _ _); repeat (constructor; [reflexivity|]); exact Hkind.
    + match goal with |- context [deregisterLoadBalancers _ _ _ _ _ _ ?d ?c ?s0] =>
        destruct (IH d c s0) as (r & s' & t & Hrun & Ht & Hkind & Hv & Hlen);
          [proj; eauto | lia |] end.
      exists r, s'. eexists. split; [exact Hrun|].
      rewrite Ht. proj. rewrite <- !app_assoc. split; [reflexivity|].
      split; [repeat (constructor; [reflexivity|]); exact Hkind|]. split; [exact Hv|].
      intros d c Hr. specialize (Hlen d c Hr). rewrite length_app in Hlen.
      cbn [length] in *. lia.
Qed.

Lemma deregisterTargetGroups_room event elbv2Client kubeClient instanceID capacity active :
  forall deregistered errChannel s,
    is_Some (events s !! event) ->
    Z.of_nat (length errChannel + length active) <= capacity ->
    exists r s' t,
      deregisterTargetGroups event elbv2Client kubeClient instanceID capacity active
        deregistered errChannel s = Done r s'
      /\ trace s' = trace s ++ t
      /\ Forall (fun c => isDeregistrationCall c = true) t
      /\ is_Some (events s' !! event)
      /\ forall (d : gmap string Z) c, r = inr (d, c) ->
           (length c + size d <= length errChannel + size deregistered + length active)%nat.
Proof.
  induction active as [|[arn port] rest IH]; intros deregistered errChannel s [ev Hev] Hroom.
  - eexists. exists s, []. rewrite app_nil_r. split; [reflexivity|].
    split; [reflexivity|]. split; [constructor|]. split; [eauto|].
    intros d c [= <- <-]. lia.
  - cbn [deregisterTargetGroups]. step. cbn [length] in Hroom.
    destruct (eventCompleted ev).
    { eexists. exists s, []. rewrite app_nil_r. split; [reflexivity|].
      split; [reflexivity|]. split; [constructor|]. split; [eauto|]. discriminate. }
    rewrite run_waitJitter. proj.
    pose proof (lookup_after_yield (others s (sleeps s)) (events s) event ev Hev) as Hev'.
    unfold deregisterTarget. repeat step.
    destruct (DeregisterTargets _ _ _ _) as [e|].
    + destruct (hasCode e ErrCodeTargetGroupNotFoundException);
        [|destruct (hasCode e ErrCodeInvalidTargetException)].
      1,2: step.
      3: step; rewrite run_errChannelSend by lia; proj;
         erewrite run_deref by exact Hev'; rewrite run_publish; proj.
      all: match goal with |- context [deregisterTargetGroups _ _ _ _ _ _ ?d ?c ?s0] =>
             destruct (IH d c s0) as (r & s' & t & Hrun & Ht & Hkind & Hv & Hlen);
               [proj; eauto | rewrite ?length_app; cbn [length]; lia |] end.
      all: exists r, s'; eexists; (split; [exact Hrun|]).
      all: rewrite Ht; proj; rewrite <- !app_assoc; (split; [reflexivity|]).
      all: split; [|split; [exact Hv|]].
      all: try (intros d c Hr; specialize (Hlen d c Hr); rewrite ?length_app in Hlen;
                cbn [length] in *; lia).
      all: try destruct (CreateEvent _ _ _); repeat (constructor; [reflexivity|]); exact Hkind.
    + match goal with |- context [deregisterTargetGroups _ _ _ _ _ _ ?d ?c ?s0] =>
        destruct (IH d c s0) as (r & s' & t & Hrun & Ht & Hkind & Hv & Hlen);
          [proj; eauto | lia |] end.
      exists r, s'. eexists. split; [exact Hrun|].
      rewrite Ht. proj. rewrite <- !app_assoc. split; [reflexivity|].
      split; [repeat (constructor; [reflexivity|]); exact Hkind|]. split; [exact Hv|].
      intros d c Hr. specialize (Hlen d c Hr).
      pose proof (size_insert_le arn port deregistered). cbn [length] in *. lia.
Qed.

(** X12. From [wg.Add] on, the stage does not panic, and when it blocks it
    does so in its final select, after the goroutine that closes [finished]
    was started: no send of the deregistration loops on the error channel
    blocks, the channel having room for twice as many errors as there are
    active pools. *)
Theorem stage_blocks_only_in_select event instanceID activeTargetGroups activeLoadBalancers
    sched s :
  is_Some (events s !! event) ->
  match deregisterAndWait event instanceID activeTargetGroups activeLoadBalancers sched s
  with
  | Blocked s' => exists t, trace s' = trace s ++ t /\ In (Go GoWaitGroupCloser) t
  | Done _ _ => True
  | Panicked _ _ => False
  end.
Proof.
  intros Hv.
  pose proof (deregisterAndWait_returns event instanceID activeTargetGroups
                activeLoadBalancers sched s Hv) as Hret.
  destruct (deregisterAndWait _ _ _ _ _ s) as [r s'|p s'|s'] eqn:Hrun; auto.
  revert Hrun. unfold deregisterAndWait. repeat step.
  match goal with |- context [(deregisterLoadBalancers ?a ?b ?c ?d ?e ?f ?g ?h ≫= _) ?s0] =>
    destruct (deregisterLoadBalancers_room a b c d e f g h s0)
      as (r1 & s1 & t1 & Hrun1 & Ht1 & _ & Hv1 & Hlen1);
      [exact Hv | cbn [length]; lia |]
  end.
  erewrite run_bind by exact Hrun1.
  destruct r1 as [err|[deregisteredLoadBalancers errChannel1]]; [discriminate|].
  specialize (Hlen1 _ _ eq_refl). cbn [length] in Hlen1.
  match goal with |- context [(deregisterTargetGroups ?a ?b ?c ?d ?e ?f ?g ?h ≫= _) ?s0] =>
    destruct (deregisterTargetGroups_room a b c d e f g h s0)
      as (r2 & s2 & t2 & Hrun2 & Ht2 & _ & Hv2 & _);
      [exact Hv1 | rewrite length_map_to_list; lia |]
  end.
  erewrite run_bind by exact Hrun2.
  destruct r2 as [err|[deregisteredTargetGroups errChannel2]]; [discriminate|].
  step.
  match goal with |- context [(spawnClassicWaiters ?i ?names ?sp ≫= _) ?s0] =>
    destruct (spawnClassicWaiters_returns i names sp s0)
      as (s3 & t3 & Hrun3 & Ht3 & _)
  end.
  erewrite run_bind by exact Hrun3.
  match goal with |- context [(spawnTargetWaiters ?i ?groups ?sp ≫= _) ?s0] =>
    destruct (spawnTargetWaiters_returns i groups sp s0)
      as (s4 & t4 & Hrun4 & Ht4 & _)
  end.
  erewrite run_bind by exact Hrun4. step.
  match goal with |- context [(coordinate ?e ?sc ?st0 ≫= _) ?s0] =>
    destruct (framed_coordinate e sc st0 s0) as (_ & _ & t5 & Ht5 & _);
    destruct (coordinate e sc st0 s0) as [[r st'] s5|p s5|s5] eqn:Hrun5
  end.
  - erewrite run_bind by exact Hrun5. cbn [fst]. destruct (Wrap r _); [intros H; inversion H|].
    repeat step. unfold mbind, M_bind, update. proj.
    match goal with |- context [match ?x !! event with _ => _ end] => destruct (x !! event) end;
      intros H; inversion H.
  - erewrite run_bind_panic by exact Hrun5. discriminate.
  - erewrite run_bind_block by exact Hrun5. intros [= <-].
    cbn [final] in Ht5. proj. rewrite Ht5, Ht4, Ht3, Ht2, Ht1. proj.
    rewrite <- !app_assoc. eexists. split; [reflexivity|].
    rewrite !in_app_iff. cbn. tauto.
Qed.

(** A skipped deregistration, which leaves the select waiting for ever. *)
Lemma stage_blocks_only_in_select_witness :
  let s := Fixture.start (Fixture.New Fixture.vanishingAuth Fixture.deregisterContext)
             {[1%nat := Fixture.event]} in
  (exists s', deregisterAndWait 1 "i-123486890234" ∅ ["my-classic-elb"] [] s = Blocked s')
  /\ match deregisterAndWait 1 "i-123486890234" ∅ ["my-classic-elb"] [] s with
     | Blocked s' => exists t, trace s' = trace s ++ t /\ In (Go GoWaitGroupCloser) t
     | Done _ _ => True
     | Panicked _ _ => False
     end.
Proof.
  intros s. split; [eexists; vm_compute; reflexivity|].
  apply (stage_blocks_only_in_select 1%nat "i-123486890234" ∅ ["my-classic-elb"] [] s).
  eexists. reflexivity.
Defined.

Lemma waiterBody_room event w st s ev :
  events s !! event = Some ev ->
  1 <= wgCounter st ->
  Z.of_nat (length (errChannel st)) < capacity st ->
  exists st' s',
    waiterBody event w st s = Done st' s'
    /\ events s' = events s
    /\ running st' = running st
    /\ stuck st' = stuck st
    /\ capacity st' = capacity st
    /\ finished st' = finished st
    /\ wgCounter st' = wgCounter st - 1
    /\ (length (errChannel st') <= length (errChannel st) + 1)%nat.
Proof.
  intros Hev Hwg Hroom.
  assert (Hdone : forall st0 s0,
            wgCounter st0 = wgCounter st -> events s0 = events s ->
            running st0 = running st -> stuck st0 = stuck st ->
            capacity st0 = capacity st -> finished st0 = finished st ->
            (length (errChannel st0) <= length (errChannel st) + 1)%nat ->
            exists st' s',
              wgDone st0 s0 = Done st' s' /\ events s' = events s
              /\ running st' = running st /\ stuck st' = stuck st
              /\ capacity st' = capacity st /\ finished st' = finished st
              /\ wgCounter st' = wgCounter st - 1
              /\ (length (errChannel st') <= length (errChannel st) + 1)%nat).
  { intros st0 s0 Hw He Hr Hs Hc Hf Hl. unfold wgDone. rewrite Hw.
    destruct (Z.ltb_spec (wgCounter st - 1) 0); [lia|].
    repeat step. eexists. eexists. split; [reflexivity|]. cbn. auto 10. }
  unfold waiterBody. step.
  destruct w as [elbName instance | arn instance port]; step.
  - unfold waitForDeregisterInstance. step.
    destruct (WaitUntilInstanceDeregistered _ _ _) as [e|].
    + destruct (hasCode e _).
      * step. apply Hdone; auto; lia.
      * unfold waiterFail. destruct (Z.ltb_spec (Z.of_nat (length (errChannel st))) (capacity st));
          [|lia].
        step. apply Hdone; auto. cbn. rewrite length_app. cbn. lia.
    + step. rewrite run_publish. proj. apply Hdone; auto; lia.
  - unfold waitForDeregisterTarget. step.
    destruct (WaitUntilTargetDeregistered _ _ _ _) as [e|].
    + destruct (hasCode e _).
      * step. apply Hdone; auto; lia.
      * unfold waiterFail. destruct (Z.ltb_spec (Z.of_nat (length (errChannel st))) (capacity st));
          [|lia].
        step. apply Hdone; auto. cbn. rewrite length_app. cbn. lia.
    + step. rewrite run_publish. proj. apply Hdone; auto; lia.
Qed.

Lemma runWaiters_room event ws :
  forall st s ev,
    events s !! event = Some ev ->
    Z.of_nat (length ws) <= wgCounter st ->
    Z.of_nat (length (errChannel st) + length ws) <= capacity st ->
    exists st' s',
      runWaiters event ws st s = Done st' s'
      /\ events s' = events s
      /\ running st' = running st
      /\ stuck st' = stuck st
      /\ capacity st' = capacity st
      /\ finished st' = finished st
      /\ wgCounter st' = wgCounter st - Z.of_nat (length ws).
Proof.
  induction ws as [|w rest IH]; intros st s ev Hev Hcount Hroom.
  - exists st, s. cbn. repeat split; lia.
  - cbn [runWaiters]. cbn [length] in *.
    destruct (waiterBody_room event w st s ev Hev ltac:(lia) ltac:(lia))
      as (st1 & s1 & Hrun & He & Hr & Hs & Hc & Hf & Hw & Hl).
    erewrite run_bind by exact Hrun.
    destruct (IH st1 s1 ev) as (st' & s' & Hrun' & He' & Hr' & Hs' & Hc' & Hf' & Hw');
      [now rewrite He | lia | lia |].
    exists st', s'. rewrite Hrun'. repeat split; try congruence. lia.
Qed.

Lemma coordinate_sized event sched :
  forall st s ev,
    events s !! event = Some ev ->
    sized st ->
    exists r st' s',
      coordinate event sched st s = Done (r, st') s'
      /\ events s' = events s
      /\ stuck st' = []
      /\ (r = None -> running st' = [] /\ finished st' = true).
Proof.
  induction sched as [|step rest IH]; intros st s ev Hev (Hun & Hstuck & Hroom & Hfin).
  - cbn [coordinate]. unfold unaccounted in Hun. rewrite Hstuck in Hun. cbn [length] in Hun.
    destruct (runWaiters_room event (running st) (setRunning [] st) s ev Hev)
      as (st1 & s1 & Hrun & He & Hr & Hs & Hc & Hf & Hw); [cbn; lia | cbn; lia |].
    erewrite run_bind by exact Hrun. cbn in Hr, Hs, Hc, Hf, Hw.
    assert (Hz : wgCounter st1 = 0) by lia.
    unfold closerStep. rewrite Hz. cbn [Z.eqb]. unfold trySelect. cbn.
    destruct (errChannel st1) as [|err errs]; eexists; eexists; eexists;
      (split; [reflexivity|]); cbn; repeat split; try congruence.
  - destruct step as [i| |preferFinished]; cbn [coordinate].
    + destruct (running st !! i) as [w|] eqn:Hw; [|apply (IH st s ev Hev); repeat split; auto].
      assert (Hlen : (i < length (running st))%nat) by (eapply lookup_lt_Some; eauto).
      unfold unaccounted in Hun. rewrite Hstuck in Hun. cbn [length] in Hun.
      destruct (waiterBody_room event w (setRunning (delete i (running st)) st) s ev Hev)
        as (st1 & s1 & Hrun & He & Hr & Hs & Hc & Hf & Hw1 & Hl); [cbn; lia | cbn; lia |].
      erewrite run_bind by exact Hrun. cbn in Hr, Hs, Hc, Hf, Hw1, Hl.
      destruct (IH st1 s1 ev) as (r & st' & s' & Hrun' & He' & Hs' & Hr').
      { now rewrite He. }
      { unfold sized, unaccounted. rewrite Hr, Hs, Hstuck, Hc, Hw1, length_delete by eauto.
        cbn [length]. repeat split; try lia.
        rewrite Hf. intros Hfin'. specialize (Hfin Hfin'). lia. }
      exists r, st', s'. rewrite Hrun'. repeat split; try congruence; now apply Hr'.
    + apply (IH (closerStep st) s ev Hev). unfold closerStep.
      destruct (Z.eqb_spec (wgCounter st) 0) as [Hz|]; [|repeat split; auto].
      unfold sized, unaccounted in *. cbn. repeat split; auto.
    + destruct (trySelect preferFinished st) as [r|] eqn:Hsel;
        [|apply (IH st s ev Hev); repeat split; auto].
      exists r, st, s. split; [reflexivity|]. split; [reflexivity|]. split; [exact Hstuck|].
      intros ->. pose proof (trySelect_result _ _ _ Hsel) as Hclosed. cbn in Hclosed.
      split; [|exact Hclosed].
      specialize (Hfin Hclosed). unfold unaccounted in Hun. rewrite Hstuck in Hun.
      cbn [length] in Hun. destruct (running st); [reflexivity|cbn [length] in Hun; lia].
Qed.

Lemma deregisterLoadBalancers_accepted event elbClient kubeClient instanceID capacity active :
  forall deregistered errChannel s,
    is_Some (events s !! event) ->
    (forall elbName, DeregisterInstancesFromLoadBalancer elbClient elbName instanceID = None) ->
    exists r s',
      deregisterLoadBalancers event elbClient kubeClient instanceID capacity active
        deregistered errChannel s = Done r s'
      /\ is_Some (events s' !! event)
      /\ match r with
         | inl err => err = PlainError "event finished execution during deregistration"
         | inr (d, c) => d = deregistered ++ active /\ c = errChannel
         end.
Proof.
  induction active as [|elbName rest IH]; intros deregistered errChannel s [ev Hev] Hacc.
  - eexists. exists s. split; [reflexivity|]. split; [eauto|].
    now rewrite app_nil_r.
  - cbn [deregisterLoadBalancers]. step.
    destruct (eventCompleted ev).
    { eexists. exists s. split; [reflexivity|]. split; [eauto|]. reflexivity. }
    rewrite run_waitJitter. proj.
    pose proof (lookup_after_yield (others s (sleeps s)) (events s) event ev Hev) as Hev'.
    unfold deregisterInstance. repeat step. rewrite Hacc.
    match goal with |- context [deregisterLoadBalancers _ _ _ _ _ _ ?d ?c ?s0] =>
      destruct (IH d c s0) as (r & s' & Hrun & Hv & Hr); [proj; eauto | exact Hacc |] end.
    exists r, s'. split; [exact Hrun|]. split; [exact Hv|].
    destruct r as [err|[d c]]; [exact Hr|]. destruct Hr as [-> ->]. now rewrite <- app_assoc.
Qed.

Lemma deregisterTargetGroups_accepted event elbv2Client kubeClient instanceID capacity active :
  forall deregistered errChannel s,
    is_Some (events s !! event) ->
    (forall arn port, DeregisterTargets elbv2Client arn instanceID port = None) ->
    exists r s',
      deregisterTargetGroups event elbv2Client kubeClient instanceID capacity active
        deregistered errChannel s = Done r s'
      /\ is_Some (events s' !! event)
      /\ match r with
         | inl err => err = PlainError "event finished execution during deregistration"
         | inr (d, c) => d = insertAll active deregistered /\ c = errChannel
         end.
Proof.
  induction active as [|[arn port] rest IH]; intros deregistered errChannel s [ev Hev] Hacc.
  - eexists. exists s. split; [reflexivity|]. split; [eauto|]. auto.
  - cbn [deregisterTargetGroups]. step.
    destruct (eventCompleted ev).
    { eexists. exists s. split; [reflexivity|]. split; [eauto|]. reflexivity. }
    rewrite run_waitJitter. proj.
    pose proof (lookup_after_yield (others s (sleeps s)) (events s) event ev Hev) as Hev'.
    unfold deregisterTarget. repeat step. rewrite Hacc.
    match goal with |- context [deregisterTargetGroups _ _ _ _ _ _ ?d ?c ?s0] =>
      destruct (IH d c s0) as (r & s' & Hrun & Hv & Hr); [proj; eauto | exact Hacc |] end.
    exists r, s'. split; [exact Hrun|]. split; [exact Hv|].
    destruct r as [err|[d c]]; [exact Hr|]. destruct Hr as [-> ->]. auto.
Qed.

Lemma size_insertAll (groups : list (string * Z)) :
  forall m : gmap string Z,
    NoDup groups.*1 ->
    (forall g, g ∈ groups -> m !! g.1 = None) ->
    size (insertAll groups m) = (size m + length groups)%nat.
Proof.
  induction groups as [|[arn port] rest IH]; intros m Hnodup Hfresh.
  - cbn. lia.
  - cbn [insertAll foldl fst snd]. fold (insertAll rest (<[arn := port]> m)).
    cbn [fmap list_fmap fst] in Hnodup. apply NoDup_cons in Hnodup as [Hnotin Hnodup].
    rewrite IH.
    + pose proof (Hfresh (arn, port) ltac:(now left)) as Hnone. cbn [fst] in Hnone.
      rewrite map_size_insert, Hnone. cbn [length]. lia.
    + exact Hnodup.
    + intros g Hg. destruct (decide (arn = g.1)) as [->|Hne].
      * exfalso. apply Hnotin. apply list_elem_of_fmap. exists g. auto.
      * rewrite lookup_insert_ne by exact Hne. apply Hfresh. now right.
Qed.

(** X13. When the load-balancer services accept every deregistration request,
    the stage returns from [wg.Add] on under every schedule of the waiters,
    the closer and the select, whatever the waiters answer: with nil and the
    event marked deregistered, or with the error of an event that finished
    meanwhile, or with a waiter's error wrapped as "failed to process
    alb-drain: ". *)
Theorem stage_returns_when_requests_accepted event instanceID activeTargetGroups
    activeLoadBalancers sched s :
  is_Some (events s !! event) ->
  (forall elbName,
     DeregisterInstancesFromLoadBalancer (ELBClient (authenticator (mgr s))) elbName instanceID
     = None) ->
  (forall arn port,
     DeregisterTargets (ELBv2Client (authenticator (mgr s))) arn instanceID port = None) ->
  exists r s',
    deregisterAndWait event instanceID activeTargetGroups activeLoadBalancers sched s
    = Done r s'
    /\ match r with
       | None => deregisterCompleted <$> events s' !! event = Some true
       | Some err =>
           err = PlainError "event finished execution during deregistration"
           \/ exists cause, err = WrappedError cause "failed to process alb-drain: "
       end.
Proof.
  intros Hv Hclassic Htarget. unfold deregisterAndWait. repeat step.
  match goal with |- context [(deregisterLoadBalancers ?a ?b ?c ?d ?e ?f ?g ?h ≫= _) ?s0] =>
    destruct (deregisterLoadBalancers_accepted a b c d e f g h s0 Hv Hclassic)
      as (r1 & s1 & Hrun1 & Hv1 & Hr1)
  end.
  erewrite run_bind by exact Hrun1.
  destruct r1 as [err|[deregisteredLoadBalancers errChannel1]].
  { eexists. eexists. split; [reflexivity|]. now left. }
  destruct Hr1 as [-> ->]. cbn [app].
  match goal with |- context [(deregisterTargetGroups ?a ?b ?c ?d ?e ?f ?g ?h ≫= _) ?s0] =>
    destruct (deregisterTargetGroups_accepted a b c d e f g h s0 Hv1 Htarget)
      as (r2 & s2 & Hrun2 & Hv2 & Hr2)
  end.
  erewrite run_bind by exact Hrun2.
  destruct r2 as [err|[deregisteredTargetGroups errChannel2]].
  { eexists. eexists. split; [reflexivity|]. now left. }
  destruct Hr2 as [-> ->].
  assert (Hsize : size (insertAll (map_to_list activeTargetGroups) ∅)
                  = size activeTargetGroups).
  { rewrite size_insertAll.
    - now rewrite map_size_empty, length_map_to_list.
    - apply NoDup_fst_map_to_list.
    - intros g _. apply lookup_empty. }
  step.
  match goal with |- context [(spawnClassicWaiters ?i ?names ?sp ≫= _) ?s0] =>
    destruct (spawnClassicWaiters_returns i names sp s0)
      as (s3 & t3 & Hrun3 & _ & _ & _ & Hvalid3);
    pose proof (Hvalid3 event Hv2) as Hv3
  end.
  erewrite run_bind by exact Hrun3.
  match goal with |- context [(spawnTargetWaiters ?i ?groups ?sp ≫= _) ?s0] =>
    destruct (spawnTargetWaiters_returns i groups sp s0)
      as (s4 & t4 & Hrun4 & _ & _ & _ & Hvalid4);
    pose proof (Hvalid4 event Hv3) as [ev4 Hev4]
  end.
  erewrite run_bind by exact Hrun4. step.
  match goal with |- context [(coordinate ?e ?sc ?st0 ≫= _) ?s0] =>
    destruct (coordinate_sized e sc st0 s0 ev4 Hev4)
      as (r & st' & s5 & Hrun5 & He5 & _)
  end.
  { unfold sized, unaccounted. cbn.
    rewrite !length_app, !length_map, length_map_to_list, Hsize.
    cbn [length]. repeat split; try lia; try discriminate. }
  erewrite run_bind by exact Hrun5. cbn [fst].
  destruct r as [err|]; cbn [Wrap].
  { eexists. eexists. split; [reflexivity|]. right. eauto. }
  repeat step. erewrite run_update by (proj; rewrite He5; exact Hev4).
  eexists. eexists. split; [reflexivity|]. proj. now rewrite lookup_insert_eq.
Qed.

(** One target group and one classic balancer, the select scheduled first. *)
Lemma stage_returns_when_requests_accepted_witness :
  let s := Fixture.start (Fixture.New Fixture.auth Fixture.deregisterContext)
             {[1%nat := Fixture.event]} in
  exists r s',
    deregisterAndWait 1 "i-123486890234" {["tg-1" := 8080]} ["elb-a"]
      [RunSelect true; RunWaiter 1] s = Done r s'
    /\ match r with
       | None => deregisterCompleted <$> events s' !! 1%nat = Some true
       | Some err =>
           err = PlainError "event finished execution during deregistration"
           \/ exists cause, err = WrappedError cause "failed to process alb-drain: "
       end.
Proof.
  intros s.
  apply (stage_returns_when_requests_accepted 1%nat "i-123486890234" {["tg-1" := 8080]}
           ["elb-a"] [RunSelect true; RunWaiter 1] s).
  - eexists. reflexivity.
  - intros elbName. reflexivity.
  - intros arn port. reflexivity.
Defined.

(** ** Requests and waiters of the target groups *)

Lemma deregisterTargetGroups_result event elbv2Client kubeClient instanceID capacity active :
  forall deregistered errChannel s,
    is_Some (events s !! event) ->
    Z.of_nat (length errChannel + length active) <= capacity ->
    exists r s' t k,
      deregisterTargetGroups event elbv2Client kubeClient instanceID capacity active
        deregistered errChannel s = Done r s'
      /\ trace s' = trace s ++ t
      /\ List.filter isDeregisterTargets t
         = map (fun g => ELBv2DeregisterTargets g.1 instanceID g.2) (take k active)
      /\ match r with
         | inl err => err = PlainError "event finished execution during deregistration"
         | inr (d, c) =>
             k = length active
             /\ d = insertAll (List.filter (targetAccepted elbv2Client instanceID) active)
                      deregistered
             /\ c = errChannel ++ omap (targetReported elbv2Client instanceID) active
         end.
Proof.
  induction active as [|[arn port] rest IH]; intros deregistered errChannel s [ev Hev] Hroom.
  - eexists. exists s, [], 0%nat. rewrite !app_nil_r. repeat split.
  - cbn [deregisterTargetGroups]. step. cbn [length] in Hroom.
    destruct (eventCompleted ev).
    { eexists. exists s, [], 0%nat. rewrite app_nil_r. repeat split. }
    rewrite run_waitJitter. proj.
    pose proof (lookup_after_yield (others s (sleeps s)) (events s) event ev Hev) as Hev'.
    unfold deregisterTarget. repeat step.
    cbn [List.filter omap list_omap]. unfold targetAccepted at 1, targetReported at 1.
    cbn [fst snd].
    destruct (DeregisterTargets elbv2Client arn instanceID port) as [e|] eqn:Hcall.
    + rewrite bool_decide_eq_false_2 by discriminate.
      destruct (hasCode e ErrCodeTargetGroupNotFoundException);
        [|destruct (hasCode e ErrCodeInvalidTargetException)]; cbn [orb].
      1,2: step.
      3: step; rewrite run_errChannelSend by lia; proj;
         erewrite run_deref by exact Hev'; rewrite run_publish; proj.
      all: match goal with |- context [deregisterTargetGroups _ _ _ _ _ _ ?d ?c ?s0] =>
             destruct (IH d c s0) as (r & s' & t & k & Hrun & Ht & Hreq & Hr);
               [proj; eauto | rewrite ?length_app; cbn [length]; lia |] end.
      all: exists r, s'; eexists; exists (S k); (split; [exact Hrun|]).
      all: rewrite Ht; proj; rewrite <- !app_assoc; (split; [reflexivity|]).
      all: try destruct (CreateEvent _ _ _).
      all: rewrite ?List.filter_app; cbn [app List.filter isDeregisterTargets take map fst snd].
      all: rewrite Hreq; (split; [reflexivity|]).
      all: destruct r as [err|[d c]]; [exact Hr|].
      all: destruct Hr as (-> & -> & ->); rewrite <- ?app_assoc; auto.
    + rewrite bool_decide_eq_true_2 by reflexivity.
      match goal with |- context [deregisterTargetGroups _ _ _ _ _ _ ?d ?c ?s0] =>
        destruct (IH d c s0) as (r & s' & t & k & Hrun & Ht & Hreq & Hr);
          [proj; eauto | lia |] end.
      exists r, s'. eexists. exists (S k). split; [exact Hrun|].
      rewrite Ht. proj. rewrite <- !app_assoc. split; [reflexivity|].
      rewrite ?List.filter_app. cbn [app List.filter isDeregisterTargets take map fst snd].
      rewrite Hreq. split; [reflexivity|].
      destruct r as [err|[d c]]; [exact Hr|].
      destruct Hr as (-> & -> & ->). auto.
Qed.

(** X21. The deregistration loop over the active target groups, started
    with room on the error channel for an error of each group: it returns;
    the requests it has sent are those of a prefix of the groups, one each,
    in the order of the iteration. It stops early only with the error of an
    event that finished meanwhile. Otherwise every group was asked; the
    groups it hands to the waiters are those whose request was accepted, and
    the errors it put on the channel are, in order, those of the refused
    requests except TargetGroupNotFound and InvalidTarget. *)
Theorem deregisterTargetGroups_requests_in_order event elbv2Client kubeClient instanceID
    capacity active errChannel s :
  is_Some (events s !! event) ->
  Z.of_nat (length errChannel + length active) <= capacity ->
  exists r s' t k,
    deregisterTargetGroups event elbv2Client kubeClient instanceID capacity active ∅
      errChannel s = Done r s'
    /\ trace s' = trace s ++ t
    /\ List.filter isDeregisterTargets t
       = map (fun g => ELBv2DeregisterTargets g.1 instanceID g.2) (take k active)
    /\ match r with
       | inl err => err = PlainError "event finished execution during deregistration"
       | inr (d, c) =>
           k = length active
           /\ d = insertAll (List.filter (targetAccepted elbv2Client instanceID) active) ∅
           /\ c = errChannel ++ omap (targetReported elbv2Client instanceID) active
       end.
Proof.
  intros Hv Hroom.
  exact (deregisterTargetGroups_result event elbv2Client kubeClient instanceID capacity
           active ∅ errChannel s Hv Hroom).
Qed.

(** Three groups: one accepted, one refused, one gone. *)
Lemma deregisterTargetGroups_requests_in_order_witness :
  let s := Fixture.start (Fixture.New Fixture.auth Fixture.deregisterContext)
             {[1%nat := Fixture.event]} in
  let active := [("tg-a", 80); ("tg-b", 8080); ("tg-c", 443)] in
  exists r s' t k,
    deregisterTargetGroups 1 Fixture.pickyELBv2 Fixture.fakeKube "i-123486890234" 6 active ∅
      [] s = Done r s'
    /\ trace s' = trace s ++ t
    /\ List.filter isDeregisterTargets t
       = map (fun g => ELBv2DeregisterTargets g.1 "i-123486890234" g.2) (take k active)
    /\ match r with
       | inl err => err = PlainError "event finished execution during deregistration"
       | inr (d, c) =>
           k = length active
           /\ d = insertAll
                    (List.filter (targetAccepted Fixture.pickyELBv2 "i-123486890234") active) ∅
           /\ c = [] ++ omap (targetReported Fixture.pickyELBv2 "i-123486890234") active
       end.
Proof.
  intros s active.
  exact (deregisterTargetGroups_requests_in_order 1%nat Fixture.pickyELBv2 Fixture.fakeKube
           "i-123486890234" 6 active [] s (ex_intro _ Fixture.event eq_refl)
           ltac:(vm_compute; discriminate)).
Defined.



Lemma findTargetGroups_none event elbv2Client instanceID targetGroups :
  inNoTargetGroup elbv2Client instanceID ->
  forall active s,
    is_Some (events s !! event) ->
    exists s' t,
      findTargetGroups elbv2Client instanceID targetGroups active s = Done (inr active) s'
      /\ trace s' = trace s ++ t
      /\ Forall (fun c => isScanCall c = true) t
      /\ is_Some (events s' !! event).
Proof.
  intros Hnone. induction targetGroups as [|arn rest IH]; intros active s Hv.
  - exists s, []. rewrite app_nil_r. repeat split; auto.
  - cbn [findTargetGroups]. rewrite run_waitJitter. proj.
    apply (valid_after_yield (others s (sleeps s))) in Hv.
    unfold findInstanceInTargetGroup. repeat step.
    specialize (Hnone arn).
    destruct (DescribeTargetHealth elbv2Client arn) as [descs [err|]].
    + repeat step. rewrite Hnone. step.
      match goal with |- context [findTargetGroups _ _ _ _ ?s0] =>
        destruct (IH active s0 Hv) as (s' & t & Hrun & Ht & Hkind & Hv') end.
      exists s'. eexists. split; [exact Hrun|]. rewrite Ht. proj. rewrite <- !app_assoc.
      split; [reflexivity|]. split; [|exact Hv'].
      repeat (constructor; [reflexivity|]). exact Hkind.
    + destruct (find _ descs) as [desc|] eqn:Hfind.
      { exfalso. apply Hnone. apply find_target_some in Hfind.
        apply list_elem_of_fmap. exists (instanceID, desc.2). auto. }
      repeat step.
      match goal with |- context [findTargetGroups _ _ _ _ ?s0] =>
        destruct (IH active s0 Hv) as (s' & t & Hrun & Ht & Hkind & Hv') end.
      exists s'. eexists. split; [exact Hrun|]. rewrite Ht. proj. rewrite <- !app_assoc.
      split; [reflexivity|]. split; [|exact Hv'].
      repeat (constructor; [reflexivity|]). exact Hkind.
Qed.

(** With no waiter, no error and the counter at zero the select receives
    from [finished], under every schedule. *)
Lemma coordinate_idle event sched :
  forall st s,
    running st = [] -> errChannel st = [] -> wgCounter st = 0 ->
    exists st', coordinate event sched st s = Done (None, st') s.
Proof.
  induction sched as [|step rest IH]; intros st s Hrun Herr Hwg.
  - cbn [coordinate]. rewrite Hrun. cbn [runWaiters]. rewrite run_ret.
    unfold closerStep. cbn [wgCounter setRunning]. rewrite Hwg. cbn [Z.eqb].
    unfold trySelect. cbn. rewrite Herr. eauto.
  - destruct step as [i| |preferFinished]; cbn [coordinate].
    + rewrite Hrun. cbn. now apply IH.
    + unfold closerStep. rewrite Hwg. cbn [Z.eqb]. now apply IH.
    + unfold trySelect. rewrite Herr. destruct (finished st); [eauto|now apply IH].
Qed.

Lemma scan_is_quiet c :
  isScanCall c = true ->
  isDeregisterRequest c = false /\ isSpawnWaiter c = false
  /\ isAddCounter SuccessfulLBDeregisterTotalMetric c = false.
Proof. destruct c; try discriminate; auto. Qed.

(** X23. With deregistration enabled, the exclusion label applied, both
    listings answered, no classic balancer listed and the instance a target
    of no target group (each group lists its targets without it, or is
    gone): the stage returns nil under every schedule, marks the event
    deregistered and counts one success, having sent no deregistration
    request and started no waiter. *)
Theorem stage_succeeds_when_instance_in_no_target_group event sched s ev :
  events s !! event = Some ev ->
  WithDeregister (context (mgr s)) = true ->
  KubectlLabelNode (KubernetesClient (authenticator (mgr s))) (Name (referencedNode ev))
    ExcludeLabelKey ExcludeLabelValue = None ->
  (DescribeTargetGroupsPages (ELBv2Client (authenticator (mgr s)))).2 = None ->
  (DescribeLoadBalancersPages (ELBClient (authenticator (mgr s)))).2 = None ->
  collectPages (DescribeLoadBalancersPages (ELBClient (authenticator (mgr s)))).1 [] = [] ->
  inNoTargetGroup (ELBv2Client (authenticator (mgr s))) (EC2InstanceID ev) ->
  exists s' t,
    drainLoadbalancerTarget event sched s = Done None s'
    /\ trace s' = trace s ++ t
    /\ deregisterCompleted <$> events s' !! event = Some true
    /\ times isDeregisterRequest t = 0%nat
    /\ spawns t = 0%nat
    /\ times (isAddCounter SuccessfulLBDeregisterTotalMetric) t = 1%nat.
Proof.
  intros Hev Hwith Hlabel Htg Helb Hnoelb Hnotg.
  unfold drainLoadbalancerTarget. repeat step. rewrite Hwith. cbn [negb].
  rewrite run_waitJitter. proj. unfold labelNode. repeat step. rewrite Hlabel.
  step.
  pose proof (lookup_after_yield (others s (sleeps s)) (events s) event ev Hev) as Hev'.
  destruct (_ <=? _); repeat step.
  all: destruct (DescribeTargetGroupsPages _) as [pages err]; cbn [snd] in Htg; subst err.
  all: repeat step.
  all: destruct (DescribeLoadBalancersPages _) as [pages' err]; cbn [fst snd] in Helb, Hnoelb;
         subst err.
  all: repeat step.
  all: match goal with |- context [(findTargetGroups ?a ?b ?c ?d ≫= _) ?s0] =>
         destruct (findTargetGroups_none event a b c Hnotg d s0)
           as (s1 & t1 & Hrun1 & Ht1 & Hk1 & Hv1); [proj; eauto|] end.
  all: erewrite run_bind by exact Hrun1.
  all: cbn beta iota.
  all: rewrite Hnoelb; cbn [findLoadBalancers]; repeat step.
  all: destruct Hv1 as [ev1 Hev1].
  all: unfold deregisterAndWait; repeat step.
  all: cbn [deregisterLoadBalancers]; repeat step.
  all: rewrite map_to_list_empty; cbn [deregisterTargetGroups]; repeat step.
  all: cbn [spawnClassicWaiters]; repeat step.
  all: rewrite map_to_list_empty; cbn [spawnTargetWaiters]; repeat step.
  all: match goal with |- context [(coordinate ?e ?sc ?st0 ≫= _) ?s0] =>
         destruct (coordinate_idle e sc st0 s0) as (st' & Hrun3);
           [reflexivity | reflexivity | cbn; rewrite map_size_empty; reflexivity |] end.
  all: erewrite run_bind by exact Hrun3.
  all: cbn beta iota.
  all: cbn [fst Wrap]; repeat step.
  all: eexists; eexists; (split; [reflexivity|]); proj.
  all: rewrite Ht1; proj; rewrite <- !app_assoc; (split; [reflexivity|]).
  all: rewrite lookup_insert_eq; (split; [reflexivity|]).
  all: assert (Hq1 : times isDeregisterRequest t1 = 0%nat /\ spawns t1 = 0%nat
                     /\ times (isAddCounter SuccessfulLBDeregisterTotalMetric) t1 = 0%nat)
         by (repeat split; eapply times_none; try exact Hk1; intros c Hc;
             apply (scan_is_quiet c Hc)).
  all: destruct Hq1 as (Ha1 & Hb1 & Hc1).
  all: unfold spawns, times in *; rewrite !List.filter_app, !length_app.
  all: cbn [app List.filter isDeregisterRequest isSpawnWaiter isAddCounter length].
  all: rewrite Ha1, Hb1, Hc1; repeat split.
Qed.

(** One target group that serves another instance. *)
Lemma stage_succeeds_when_instance_in_no_target_group_witness :
  let s := Fixture.start (Fixture.New Fixture.foreignAuth Fixture.deregisterContext)
             {[1%nat := Fixture.event]} in
  exists s' t,
    drainLoadbalancerTarget 1 [] s = Done None s'
    /\ trace s' = trace s ++ t
    /\ deregisterCompleted <$> events s' !! 1%nat = Some true
    /\ times isDeregisterRequest t = 0%nat
    /\ spawns t = 0%nat
    /\ times (isAddCounter SuccessfulLBDeregisterTotalMetric) t = 1%nat.
Proof.
  intros s.
  assert (Htg : inNoTargetGroup (ELBv2Client (authenticator (mgr s)))
                  (EC2InstanceID Fixture.event)).
  { intros arn. cbn. apply not_elem_of_cons. split; [discriminate|apply not_elem_of_nil]. }
  exact (stage_succeeds_when_instance_in_no_target_group 1%nat [] s Fixture.event eq_refl eq_refl
           eq_refl eq_refl eq_refl eq_refl Htg).
Defined.

(** ** Heartbeats sent *)

Lemma sendHeartbeat_loop_returns client event recommendedInterval maxIterations :
  forall fuel iterationCount s ev,
    events s !! event = Some ev ->
    exists exit n s',
      sendHeartbeat_loop fuel client event recommendedInterval maxIterations iterationCount s
      = Done (exit, n) s'.
Proof.
  induction fuel as [|fuel IH]; intros it s ev Hev; [cbn; eauto|].
  cbn [sendHeartbeat_loop]. rewrite run_timeSleep. proj.
  pose proof (lookup_after_yield (others s (sleeps s)) (events s) event ev Hev) as Hev'.
  erewrite run_deref by exact Hev'.
  destruct (eventCompleted _); [cbn; eauto|].
  destruct (_ >=? _); repeat step; [cbn; eauto|].
  unfold extendLifecycleAction. repeat step.
  match goal with |- context [RecordLifecycleActionHeartbeat ?a ?b ?c ?d ?e ?f] =>
    destruct (RecordLifecycleActionHeartbeat a b c d e f) as [err|] end.
  - repeat step. cbn. eauto.
  - eapply IH. proj. exact Hev'.
Qed.

(** X14. The heartbeat driver on an allocated event panics exactly when the
    heartbeat interval is -1, 0 or 1: [interval / 2] is then zero and
    [3600 / recommendedInterval] divides by it, after the first debug log
    and before any sleep or heartbeat. For every other interval the driver
    does not panic. *)
Theorem sendHeartbeat_panics_iff_interval_too_short fuel client event s ev :
  events s !! event = Some ev ->
  if bool_decide (-1 <= heartbeatInterval ev <= 1) then
    sendHeartbeat fuel client event s
    = Panicked DivideByZero
        (mkState (mgr s) (events s)
           (trace s ++ [Log LvlDebug "scaling-group = %v, maxInterval = %v, heartbeat = %v"])
           (wallClock s) (clockReads s) (others s) (sleeps s))
  else
    exists exit n s', sendHeartbeat fuel client event s = Done (exit, n) s'.
Proof.
  intros Hev. unfold sendHeartbeat. erewrite run_deref by exact Hev. repeat step.
  assert (Hq : Z.quot (heartbeatInterval ev) 2 = 0 <-> -1 <= heartbeatInterval ev <= 1).
  { rewrite Z.quot_small_iff by lia. lia. }
  case_bool_decide as Hi.
  - apply Hq in Hi. rewrite Hi. reflexivity.
  - destruct (Z.eqb_spec (Z.quot (heartbeatInterval ev) 2) 0) as [Hz|_]; [tauto|].
    eapply sendHeartbeat_loop_returns. proj. exact Hev.
Qed.

(** A hook without a heartbeat timeout: the interval is 0. *)
Lemma sendHeartbeat_panics_iff_interval_too_short_witness :
  let s := Fixture.start (Fixture.New Fixture.auth Fixture.basicContext)
             {[1%nat := withHeartbeatInterval 0 Fixture.event]} in
  sendHeartbeat 5 (Fixture.stubAutoscaling [0]) 1 s
  = Panicked DivideByZero
      (mkState (mgr s) (events s)
         (trace s ++ [Log LvlDebug "scaling-group = %v, maxInterval = %v, heartbeat = %v"])
         (wallClock s) (clockReads s) (others s) (sleeps s)).
Proof.
  intros s.
  exact (sendHeartbeat_panics_iff_interval_too_short 5 (Fixture.stubAutoscaling [0]) 1%nat s
           (withHeartbeatInterval 0 Fixture.event) eq_refl).
Defined.

Lemma sendHeartbeat_loop_heartbeats client event recommendedInterval maxIterations :
  maxIterations <= 3600 ->
  forall fuel iterationCount s ev,
    events s !! event = Some ev ->
    0 <= iterationCount <= 3600 ->
    exists exit n s' t,
      sendHeartbeat_loop fuel client event recommendedInterval maxIterations iterationCount s
      = Done (exit, n) s'
      /\ trace s' = trace s ++ t
      /\ Z.of_nat (times isHeartbeat t) <= Z.max 0 (maxIterations - 1 - iterationCount)
      /\ (times isHeartbeat t <= times isSleep t)%nat.
Proof.
  intros Hmax. induction fuel as [|fuel IH]; intros it s ev Hev Hit.
  { exists StillRunning, it, s, []. rewrite app_nil_r. unfold times. cbn [List.filter length].
    repeat split; lia. }
  cbn [sendHeartbeat_loop]. rewrite incr_small by lia.
  rewrite run_timeSleep. proj.
  pose proof (lookup_after_yield (others s (sleeps s)) (events s) event ev Hev) as Hev'.
  erewrite run_deref by exact Hev'.
  destruct (eventCompleted _).
  { eexists. eexists. eexists. exists [Sleep (secondsDuration recommendedInterval)].
    split; [reflexivity|]. proj. unfold times. cbn [List.filter isHeartbeat isSleep length].
    repeat split; lia. }
  destruct (Z.geb_spec (it + 1) maxIterations) as [Hge|Hlt].
  { repeat step. eexists. eexists. eexists. eexists.
    split; [reflexivity|]. proj. rewrite <- app_assoc. split; [reflexivity|].
    unfold times. cbn [app List.filter isHeartbeat isSleep length]. split; lia. }
  repeat step. unfold extendLifecycleAction. repeat step.
  match goal with |- context [RecordLifecycleActionHeartbeat ?a ?b ?c ?d ?e ?f] =>
    destruct (RecordLifecycleActionHeartbeat a b c d e f) as [err|] end.
  { repeat step. eexists. eexists. eexists. eexists.
    split; [reflexivity|]. proj. rewrite <- !app_assoc. split; [reflexivity|].
    unfold times. cbn [app List.filter isHeartbeat isSleep length]. split; lia. }
  match goal with |- context [sendHeartbeat_loop _ _ _ _ _ _ ?s0] =>
    destruct (IH (it + 1) s0 _ Hev') as (exit & n & s' & t & Hrun & Htrace & Hcount & Hsleep);
      [lia|] end.
  exists exit, n, s'. eexists. split; [exact Hrun|].
  rewrite Htrace. proj. rewrite <- !app_assoc. split; [reflexivity|].
  unfold times in *. rewrite !List.filter_app, !length_app.
  cbn [app List.filter isHeartbeat isSleep length]. lia.
Qed.

(** X15. For a heartbeat interval of at least 2 the driver records at most
    [3600 / (interval / 2) - 1] heartbeats, each after a sleep; for an
    interval of 3602 seconds or more it records none. *)
Theorem sendHeartbeat_heartbeats_bounded fuel client event s ev :
  events s !! event = Some ev ->
  2 <= heartbeatInterval ev ->
  exists exit n s' t,
    sendHeartbeat fuel client event s = Done (exit, n) s'
    /\ trace s' = trace s ++ t
    /\ Z.of_nat (times isHeartbeat t) <= Z.max 0 (3600 / (heartbeatInterval ev / 2) - 1)
    /\ (times isHeartbeat t <= times isSleep t)%nat
    /\ (3602 <= heartbeatInterval ev -> times isHeartbeat t = 0%nat).
Proof.
  intros Hev Hinterval. unfold sendHeartbeat.
  erewrite run_deref by exact Hev. repeat step.
  assert (Hr : 1 <= Z.quot (heartbeatInterval ev) 2).
  { rewrite Z.quot_div_nonneg by lia. apply Z.div_le_lower_bound; lia. }
  assert (Hm : 0 <= Z.quot 3600 (Z.quot (heartbeatInterval ev) 2) <= 3600).
  { rewrite (Z.quot_div_nonneg 3600) by lia. split.
    - apply Z.div_pos; lia.
    - apply Z.div_le_upper_bound; nia. }
  destruct (Z.eqb_spec (Z.quot (heartbeatInterval ev) 2) 0) as [Hz|_]; [lia|].
  match goal with |- context [sendHeartbeat_loop _ _ _ _ ?m _ ?s0] =>
    destruct (sendHeartbeat_loop_heartbeats client event (Z.quot (heartbeatInterval ev) 2) m
                ltac:(lia) fuel 0 s0 ev Hev ltac:(lia))
      as (exit & n & s' & t & Hrun & Htrace & Hcount & Hsleep) end.
  exists exit, n, s'. eexists. split; [exact Hrun|].
  rewrite Htrace. proj. rewrite <- !app_assoc. split; [reflexivity|].
  unfold times in *. rewrite !List.filter_app, !length_app.
  cbn [app List.filter isHeartbeat isSleep length].
  rewrite (Z.quot_div_nonneg 3600) in Hcount by lia.
  rewrite Z.quot_div_nonneg in Hcount by lia.
  rewrite Z.sub_0_r in Hcount.
  cbn [plus]. split; [exact Hcount|]. split; [lia|].
  intros Hlong.
  assert (Hbig : 1801 <= heartbeatInterval ev / 2) by (apply Z.div_le_lower_bound; lia).
  assert (3600 / (heartbeatInterval ev / 2) <= 1).
  { apply Z.lt_succ_r. apply Z.div_lt_upper_bound; lia. }
  lia.
Qed.

(** A hook with a heartbeat timeout of 3602 seconds. *)
Lemma sendHeartbeat_heartbeats_bounded_witness :
  let s := Fixture.start (Fixture.New Fixture.auth Fixture.basicContext)
             {[1%nat := withHeartbeatInterval 3602 Fixture.event]} in
  exists exit n s' t,
    sendHeartbeat 5 (Fixture.stubAutoscaling [3602]) 1 s = Done (exit, n) s'
    /\ trace s' = trace s ++ t
    /\ Z.of_nat (times isHeartbeat t) <= Z.max 0 (3600 / (3602 / 2) - 1)
    /\ (times isHeartbeat t <= times isSleep t)%nat
    /\ (3602 <= 3602 -> times isHeartbeat t = 0%nat).
Proof.
  intros s.
  apply (sendHeartbeat_heartbeats_bounded 5 (Fixture.stubAutoscaling [3602]) 1%nat s
           (withHeartbeatInterval 3602 Fixture.event) eq_refl).
  simpl. lia.
Defined.

(** ** Poller and Start *)

Lemma sendAll_run messages :
  forall s,
    sendAll messages s
    = Done tt (mkState (mgr s) (events s) (trace s ++ map StreamSend messages) (wallClock s)
                 (clockReads s) (others s) (sleeps s)).
Proof.
  induction messages as [|m rest IH]; intros s.
  - cbn. rewrite app_nil_r. now destruct s.
  - cbn [sendAll map]. step. rewrite IH. proj. now rewrite <- app_assoc.
Qed.

Lemma filter_StreamSend messages :
  List.filter isStreamSend (map StreamSend messages) = map StreamSend messages.
Proof. induction messages as [|m rest IH]; [reflexivity|]. cbn. now rewrite IH. Qed.

Lemma filter_other_StreamSend (kind : Call -> bool) messages :
  (forall m, kind (StreamSend m) = false) ->
  List.filter kind (map StreamSend messages) = [].
Proof.
  intros H. induction messages as [|m rest IH]; [reflexivity|]. cbn. now rewrite H, IH.
Qed.

Lemma newPoller_loop_forwards queue url interval numGoroutine turns :
  forall n s,
    (forall k, (n <= k < n + turns)%nat -> is_Some (ReceiveMessage queue k).1) ->
    exists s' t,
      newPoller_loop queue url interval numGoroutine turns n s = Done tt s'
      /\ trace s' = trace s ++ t
      /\ mgr s' = mgr s
      /\ List.filter isStreamSend t = map StreamSend (received queue turns n)
      /\ times isSleep t = failedPolls queue turns n
      /\ times isDeleteMessage t = 0%nat.
Proof.
  induction turns as [|turns IH]; intros n s Hout.
  - exists s, []. rewrite app_nil_r. repeat split.
  - cbn [newPoller_loop received failedPolls]. unfold newPoller_body. repeat step.
    destruct (Hout n ltac:(lia)) as [out Hn].
    destruct (ReceiveMessage queue n) as [output err]. cbn [fst snd] in *. subst output.
    destruct err as [e|]; repeat step; rewrite ?run_timeSleep; proj.
    all: case_bool_decide; repeat step.
    all: rewrite (run_bind _ _ _ _ _ (sendAll_run _ _)); proj.
    all: match goal with |- context [newPoller_loop _ _ _ _ _ _ ?s0] =>
           destruct (IH (S n) s0) as (s' & t & Hrun & Ht & Hm & Hsend & Hsleep & Hdel);
             [intros k Hk; apply Hout; lia|] end.
    all: exists s'; eexists; (split; [exact Hrun|]).
    all: rewrite Ht, Hm; proj; rewrite <- !app_assoc; (split; [reflexivity|]).
    all: (split; [reflexivity|]).
    all: unfold times in *; rewrite !List.filter_app, !length_app, Hsend.
    all: rewrite filter_StreamSend, !filter_other_StreamSend by reflexivity.
    all: cbn [app List.filter isStreamSend isSleep isDeleteMessage length].
    all: rewrite Hsleep, Hdel, map_app; repeat split; lia.
Qed.

(** X16. While ReceiveMessage answers an output that is not nil, the poller
    hands every message of every output to the event stream, once and in
    the order received, also the messages that come with an error; it
    sleeps once per failed poll, deletes no message and leaves the manager
    as it is. *)
Theorem newPoller_forwards_messages numGoroutine turns s :
  (forall k, (k < turns)%nat ->
     is_Some (ReceiveMessage (SQSClient (authenticator (mgr s))) k).1) ->
  exists s' t,
    newPoller numGoroutine turns s = Done tt s'
    /\ trace s' = trace s ++ t
    /\ mgr s' = mgr s
    /\ List.filter isStreamSend t
       = map StreamSend (received (SQSClient (authenticator (mgr s))) turns 0)
    /\ times isSleep t = failedPolls (SQSClient (authenticator (mgr s))) turns 0
    /\ times isDeleteMessage t = 0%nat.
Proof.
  intros Hout. unfold newPoller. step.
  apply newPoller_loop_forwards. intros k Hk. apply Hout. lia.
Qed.

(** Two polls: one message, then an error with an empty output. *)
Lemma newPoller_forwards_messages_witness :
  let s := Fixture.start (Fixture.New Fixture.deliveringAuth Fixture.basicContext) ∅ in
  exists s' t,
    newPoller (fun _ => 3) 2 s = Done tt s'
    /\ trace s' = trace s ++ t
    /\ mgr s' = mgr s
    /\ List.filter isStreamSend t
       = map StreamSend (received (SQSClient (authenticator (mgr s))) 2 0)
    /\ times isSleep t = failedPolls (SQSClient (authenticator (mgr s))) 2 0
    /\ times isDeleteMessage t = 0%nat.
Proof.
  intros s. apply (newPoller_forwards_messages (fun _ => 3) 2 s).
  intros [|[|k]] Hk; [eexists; reflexivity | eexists; reflexivity | lia].
Defined.

Section StartProps.
Variable deserializeMessage : string -> option Message * option error.

Lemma Start_resume_goroutines inProgressEvents :
  forall s,
    exists s' t,
      Start_resume deserializeMessage inProgressEvents s = Done tt s'
      /\ trace s' = trace s ++ t
      /\ mgr s' = mgr s
      /\ List.filter isGo t
         = map (fun entry => Go (GoWorker (deserializeMessage entry.2).1))
             (List.filter (fun entry => negb (bool_decide (entry.2 = ""))) inProgressEvents).
Proof.
  induction inProgressEvents as [|[node sqsMessage] rest IH]; intros s.
  - exists s, []. rewrite app_nil_r. repeat split.
  - cbn [Start_resume List.filter snd]. case_bool_decide as Hempty; cbn [negb].
    + apply IH.
    + destruct (deserializeMessage sqsMessage) as [message err] eqn:Hd.
      repeat step.
      destruct err as [err|]; repeat step.
      all: match goal with |- context [Start_resume _ _ ?s0] =>
             destruct (IH s0) as (s' & t & Hrun & Htrace & Hm & Hspawn) end.
      all: exists s'; eexists; (split; [exact Hrun|]).
      all: rewrite Htrace, Hm; proj; rewrite <- ?app_assoc.
      all: (split; [reflexivity|]); (split; [reflexivity|]).
      all: rewrite ?List.filter_app; cbn [app List.filter isGo map snd fst].
      all: now rewrite Hd, Hspawn.
Qed.

Lemma Start_consume_goroutines eventStream :
  forall s,
    Start_consume eventStream s
    = Done tt (mkState (mgr s) (events s)
                 (trace s ++ map (fun m => Go (GoWorker (Some m))) eventStream)
                 (wallClock s) (clockReads s) (others s) (sleeps s)).
Proof.
  induction eventStream as [|m rest IH]; intros s.
  - cbn. rewrite app_nil_r. now destruct s.
  - cbn [Start_consume map]. step. rewrite IH. proj. now rewrite <- app_assoc.
Qed.

Lemma filter_isGo_workers (eventStream : list Message) :
  List.filter isGo (map (fun m => Go (GoWorker (Some m))) eventStream)
  = map (fun m => Go (GoWorker (Some m))) eventStream.
Proof. induction eventStream as [|m rest IH]; [reflexivity|]. cbn. now rewrite IH. Qed.

(** X17. Start returns once the event stream is consumed and leaves the
    manager as it is. The goroutines it has started are, in this order: the
    metrics server, the poller, one worker for each node whose in-progress
    annotation is not empty (with the message deserializeMessage returned),
    and one worker for each message of the stream; an error of the node
    listing is only logged. *)
Theorem Start_spawns_goroutines eventStream s :
  exists s' t,
    Start deserializeMessage eventStream s = Done tt s'
    /\ trace s' = trace s ++ t
    /\ mgr s' = mgr s
    /\ List.filter isGo t
       = [Go GoMetricsServer; Go GoPoller]
         ++ map (fun entry => Go (GoWorker (deserializeMessage entry.2).1))
              (List.filter (fun entry => negb (bool_decide (entry.2 = "")))
                 (getNodesByAnnotationKey (KubernetesClient (authenticator (mgr s)))
                    InProgressAnnotationKey).1)
         ++ map (fun m => Go (GoWorker (Some m))) eventStream.
Proof.
  unfold Start. repeat step.
  destruct (getNodesByAnnotationKey _ _) as [inProgressEvents err]. cbn [fst].
  destruct err as [err|]; repeat step.
  all: match goal with |- context [(Start_resume _ _ ≫= _) ?s0] =>
         destruct (Start_resume_goroutines inProgressEvents s0)
           as (s1 & t & Hrun & Htrace & Hm & Hspawn) end.
  all: erewrite run_bind by exact Hrun.
  all: rewrite Start_consume_goroutines.
  all: eexists; eexists; (split; [reflexivity|]); proj.
  all: rewrite Htrace, Hm; proj; rewrite <- !app_assoc.
  all: (split; [reflexivity|]); (split; [reflexivity|]).
  all: rewrite !List.filter_app, Hspawn, filter_isGo_workers; reflexivity.
Qed.

End StartProps.

(** X18. When readMessage fails, the worker rejects the event readMessage
    handed back: a nil event makes it panic; otherwise it returns, having
    counted a rejection and deleted the message under the queue URL the
    event carries (SetQueueURL is not reached), with the work queue and
    the events untouched, no lifecycle action reported and no goroutine
    started. *)
Theorem newWorker_rejects_unreadable_message
    (serializeMessage : option Message -> string * option error)
    (readMessage : option Message -> M (nat * option error))
    message sched s event e s1 :
  readMessage message s = Done (event, Some e) s1 ->
  match events s1 !! event with
  | None =>
      newWorker serializeMessage readMessage message sched s = Panicked NilDereference s1
  | Some ev =>
      exists s' t,
        newWorker serializeMessage readMessage message sched s = Done tt s'
        /\ trace s' = trace s1 ++ t
        /\ rejectedEvents (mgr s') = GoInt.incr (rejectedEvents (mgr s1))
        /\ workQueue (mgr s') = workQueue (mgr s1)
        /\ events s' = events s1
        /\ List.filter isDeleteMessage t = [SQSDeleteMessage (queueURL ev) (receiptHandle ev)]
        /\ times (isCompleteLifecycleAction ContinueAction) t = 0%nat
        /\ times (isCompleteLifecycleAction AbandonAction) t = 0%nat
        /\ times isGo t = 0%nat
  end.
Proof.
  intros Hread. unfold newWorker. step. erewrite run_bind by exact Hread.
  cbn [Wrap]. destruct (events s1 !! event) as [ev|] eqn:Hev.
  - unfold RejectEvent.
    repeat first [step' | rewrite DeepEqual_pointer_struct | case_stub].
    all: eexists; eexists; (split; [reflexivity|]); proj.
    all: rewrite <- ?app_assoc; (split; [reflexivity|]).
    all: repeat split.
  - unfold RejectEvent. step. unfold mbind, M_bind, deref. now rewrite Hev.
Qed.

(** A parser that fails and hands back a zero-valued event. *)
Lemma newWorker_rejects_unreadable_message_witness :
  let s := Fixture.start (Fixture.New Fixture.auth Fixture.basicContext)
             {[1%nat := zeroEvent]} in
  exists s' t,
    newWorker Fixture.serializeMessage Fixture.failingReadMessage
      (Some Fixture.fakeMessage) [] s = Done tt s'
    /\ trace s' = trace s ++ t
    /\ rejectedEvents (mgr s') = GoInt.incr (rejectedEvents (mgr s))
    /\ workQueue (mgr s') = workQueue (mgr s)
    /\ events s' = events s
    /\ List.filter isDeleteMessage t = [SQSDeleteMessage (queueURL zeroEvent) (receiptHandle zeroEvent)]
    /\ times (isCompleteLifecycleAction ContinueAction) t = 0%nat
    /\ times (isCompleteLifecycleAction AbandonAction) t = 0%nat
    /\ times isGo t = 0%nat.
Proof.
  intros s.
  exact (newWorker_rejects_unreadable_message Fixture.serializeMessage
           Fixture.failingReadMessage (Some Fixture.fakeMessage) [] s 1%nat
           (PlainError "unexpected end of JSON input") s eq_refl).
Defined.

(** ** Cluster events *)

(** X19. getReasonEventLevel answers "Warning" exactly for the four reasons
    that report a failure, and "Normal" for every other reason, one that
    [EventLevels] does not list included. *)
Theorem getReasonEventLevel_warning_iff_failure (reason : string) :
  getReasonEventLevel reason
  = if bool_decide (reason ∈ map reasonString failureReasons)
    then EventLevelWarning else EventLevelNormal.
Proof.
  unfold getReasonEventLevel, EventLevels.
  repeat (rewrite lookup_insert; case_decide; [subst reason; vm_compute; reflexivity|]).
  rewrite lookup_empty. rewrite bool_decide_eq_false_2; [reflexivity|].
  cbn [map failureReasons]. rewrite !elem_of_cons, elem_of_nil. intuition congruence.
Qed.

Lemma to_int_nonnil n :
  Z.to_int n <> Decimal.Pos Decimal.Nil /\ Z.to_int n <> Decimal.Neg Decimal.Nil.
Proof.
  destruct n as [|p|p]; cbn; split; try discriminate.
  all: intros [= H]; exact (DecimalPos.Unsigned.to_uint_nonnil p H).
Qed.

Lemma formatInt_inj n m : formatInt n = formatInt m -> n = m.
Proof.
  unfold formatInt. intros H. apply DecimalZ.to_int_inj.
  apply (f_equal DecimalString.NilZero.int_of_string) in H.
  rewrite !DecimalString.NilZero.isi in H by apply to_int_nonnil. congruence.
Qed.

Lemma getReasonEventLevel_two_levels reason :
  getReasonEventLevel reason = EventLevelNormal
  \/ getReasonEventLevel reason = EventLevelWarning.
Proof.
  unfold getReasonEventLevel, EventLevels.
  repeat (rewrite lookup_insert; case_decide; [cbn; auto|]).
  rewrite lookup_empty. now left.
Qed.

Lemma append_inj_r (p a b : string) : String.append p a = String.append p b -> a = b.
Proof. induction p as [|c p IH]; cbn; [auto|]. intros [= H]. auto. Qed.

(** X20. newKubernetesEvent reads the clock twice, for the name and for
    [LastTimestamp], and calls nothing else. The event is in the default
    namespace, its type is "Normal" or "Warning", and it refers to the node
    when a node name is given and to nothing otherwise. Two events created
    one after the other carry the same name exactly when the clock shows the
    same nanosecond at both name readings. *)
Theorem newKubernetesEvent_names_by_clock reason message refNodeName reason' message'
    refNodeName' s :
  exists e1 e2 s',
    (e1 ← newKubernetesEvent reason message refNodeName;
     e2 ← newKubernetesEvent reason' message' refNodeName';
     mret (e1, e2)) s = Done (e1, e2) s'
    /\ trace s' = trace s
    /\ clockReads s' = (4 + clockReads s)%nat
    /\ LastTimestamp e1 = wallClock s (S (clockReads s))
    /\ ObjectMetaNamespace e1 = EventNamespace
    /\ (EventType e1 = EventLevelNormal \/ EventType e1 = EventLevelWarning)
    /\ InvolvedObject e1
       = (if bool_decide (refNodeName = "") then mkObjectReference "" ""
          else mkObjectReference "Node" refNodeName)
    /\ (ObjectMetaName e1 = ObjectMetaName e2
        <-> wallClock s (clockReads s) = wallClock s (2 + clockReads s)).
Proof.
  unfold newKubernetesEvent. repeat step.
  eexists. eexists. eexists. split; [reflexivity|]. cbn.
  repeat split; try reflexivity.
  - apply getReasonEventLevel_two_levels.
  - intros H. apply append_inj_r in H. now apply formatInt_inj.
  - intros ->. reflexivity.
Qed.
